(** * FactorioBoard-Server: archive ingestion and save analytics

    A shallow embedding of the game-save part of the server:

    - [Locator]: [findLevelInitInZip] of [save.service.ts];
    - [Js]: the JavaScript numbers and number formatting the analysis uses;
    - [Analysis]: [buildHeaderOnlyAnalysis] and [analyzeFactorioSave];
    - [Text]: UTF-16 strings and the codecs the repository calls
      ([Buffer], [decodeURIComponent]);
    - [Storage]: [GameSaveRepository] ([pruneOldFilesIfExceed],
      [saveFileAsync], [decodeFileName]) and [GameSaveService.uploadFile];
    - [Service]: [findFileByFilename], [parseFactorioSave],
      [GameSaveService.analyzeGameSave] and the two controllers.

    Strings that the code only compares, concatenates or tests for emptiness
    are Rocq strings holding the bytes of the source literals; file names
    handled by [decodeFileName] are sequences of UTF-16 code units, as
    JavaScript has them. *)

From Stdlib Require Import Bool List ZArith QArith Qround Qabs Lia Lqa.
From Stdlib Require Import String Ascii Permutation Sorted.
From Stdlib Require Import DecimalString DecimalZ DecimalPos.
Import ListNotations.

Local Open Scope list_scope.
Local Open Scope string_scope.

(* ================================================================= *)
(** ** String helpers shared by the modules *)

(** [s.endsWith(suffix)]: the last [length suffix] characters of [s] are
    [suffix]. *)
Definition endsWith (s suffix : string) : bool :=
  let n := String.length s in
  let m := String.length suffix in
  if (m <=? n)%nat then String.eqb (substring (n - m) m s) suffix else false.

(** [s.replace(/\\/g, "/")]. *)
Definition backslash : ascii := ascii_of_nat 92.
Definition slash : ascii := ascii_of_nat 47.

Fixpoint replaceBackslashes (s : string) : string :=
  match s with
  | EmptyString => EmptyString
  | String c r =>
      String (if Ascii.eqb c backslash then slash else c) (replaceBackslashes r)
  end.

(* ================================================================= *)
(** ** Archive locator ([save.service.ts], [findLevelInitInZip]) *)

Module Locator.

(** An entry of the listing [unzipper] returns: its path inside the archive
    (read with [f.path ?? ""], so possibly absent) and its content. *)
Record ZipEntry : Type := mkEntry {
  path : option string;
  buffer : string
}.

Definition LEVEL_INIT_NAME : string := "level-init.dat".

(** The predicate passed to [files.find]. *)
Definition isLevelInit (f : ZipEntry) : bool :=
  let p := replaceBackslashes (match path f with Some p => p | None => "" end) in
  endsWith p LEVEL_INIT_NAME || String.eqb p LEVEL_INIT_NAME.

Definition findLevelInitInZip (files : list ZipEntry) : option ZipEntry :=
  find isLevelInit files.

(** The match the specification describes: the normalized path is the
    basename, or ends with a separator followed by the basename. *)
Definition specMatches (target : string) (f : ZipEntry) : Prop :=
  let p := replaceBackslashes (match path f with Some p => p | None => "" end) in
  p = target \/ exists dir, p = dir ++ "/" ++ target.

End Locator.

(* ================================================================= *)
(** ** JavaScript numbers *)

(** Numbers are exact rationals extended with [NaN] and the two infinities.
    The binary rounding of doubles and the sign of zero are not modelled: a
    division by zero is a division by [+0]. Where a property of the program
    depends on a quotient, a product or a sum it computes, the statement
    speaks of a number close to the exact one ([closeTo] below) and not of
    the exact one, which the program may miss by the rounding of its
    operations. *)

Module Js.

Inductive num : Type :=
| NaN
| PInf
| NInf
| Fin (q : Q).

Definition ofZ (z : Z) : num := Fin (inject_Z z).
Definition ofNat (n : nat) : num := ofZ (Z.of_nat n).

(** A property that may be [undefined], used as a number. *)
Definition ofOption (o : option Q) : num :=
  match o with Some q => Fin q | None => NaN end.

Definition neg (a : num) : num :=
  match a with
  | NaN => NaN
  | PInf => NInf
  | NInf => PInf
  | Fin q => Fin (- q)%Q
  end.

(** The infinity with the sign of [q], [NaN] for zero. *)
Definition signedInf (q : Q) : num :=
  match (q ?= 0)%Q with
  | Gt => PInf
  | Lt => NInf
  | Eq => NaN
  end.

Definition add (a b : num) : num :=
  match a, b with
  | NaN, _ | _, NaN => NaN
  | Fin x, Fin y => Fin (x + y)%Q
  | PInf, NInf | NInf, PInf => NaN
  | PInf, _ | _, PInf => PInf
  | NInf, _ | _, NInf => NInf
  end.

Definition mul (a b : num) : num :=
  match a, b with
  | NaN, _ | _, NaN => NaN
  | Fin x, Fin y => Fin (x * y)%Q
  | PInf, Fin y | Fin y, PInf => signedInf y
  | NInf, Fin y | Fin y, NInf => signedInf (- y)%Q
  | PInf, PInf | NInf, NInf => PInf
  | PInf, NInf | NInf, PInf => NInf
  end.

Definition div (a b : num) : num :=
  match a, b with
  | NaN, _ | _, NaN => NaN
  | Fin x, Fin y => if Qeq_bool y 0 then signedInf x else Fin (x / y)%Q
  | Fin _, (PInf | NInf) => Fin 0
  | PInf, Fin y => if Qle_bool 0 y then PInf else NInf
  | NInf, Fin y => if Qle_bool 0 y then NInf else PInf
  | (PInf | NInf), (PInf | NInf) => NaN
  end.

(** Comparison; [None] when an operand is [NaN] (every test is then false). *)
Definition compare (a b : num) : option comparison :=
  match a, b with
  | NaN, _ | _, NaN => None
  | Fin x, Fin y => Some (x ?= y)%Q
  | PInf, PInf | NInf, NInf => Some Eq
  | NInf, _ | _, PInf => Some Lt
  | PInf, _ | _, NInf => Some Gt
  end.

Definition lt (a b : num) : bool :=
  match compare a b with Some Lt => true | _ => false end.

Definition ge (a b : num) : bool :=
  match compare a b with Some Gt | Some Eq => true | _ => false end.

(** [Math.min(a, b)]. *)
Definition min (a b : num) : num :=
  match compare a b with
  | None => NaN
  | Some Gt => b
  | Some _ => a
  end.

(** [Math.round] on a finite number: the nearest integer, halves upwards. *)
Definition roundQ (q : Q) : Z := Qfloor (q + (1 # 2))%Q.

Definition round (a : num) : num :=
  match a with
  | Fin q => ofZ (roundQ q)
  | _ => a
  end.

(** [x || d] for a numeric property: [undefined] and [0] are falsy. *)
Definition orElse (o : option Q) (d : Q) : Q :=
  match o with
  | Some q => if Qeq_bool q 0 then d else q
  | None => d
  end.

Definition truthy (o : option Q) : bool :=
  match o with
  | Some q => negb (Qeq_bool q 0)
  | None => false
  end.

(** *** Formatting and parsing *)

(** The decimal numeral of an integer, as template literals print it. *)
Definition stringOfZ (z : Z) : string := NilZero.string_of_int (Z.to_int z).
Definition stringOfNat (n : nat) : string := stringOfZ (Z.of_nat n).

Definition digit (d : Z) : ascii := ascii_of_nat (48 + Z.to_nat d).

(** The hundredths of [|q|] that [toFixed(2)] prints: the integer [n] with
    [n / 100] nearest to [|q|], the larger one on a tie. *)
Definition hundredths (q : Q) : Z := Qfloor (Qabs q * 100 + (1 # 2))%Q.

(** [x.toFixed(2)]. (For [|x| >= 1e21] JavaScript switches to exponent
    notation; numbers of that size are outside this model.) *)
Definition toFixed2 (a : num) : string :=
  match a with
  | NaN => "NaN"
  | PInf => "Infinity"
  | NInf => "-Infinity"
  | Fin q =>
      let n := hundredths q in
      (if negb (Qle_bool 0 q) then "-" else "")
        ++ stringOfZ (n / 100)%Z ++ "."
        ++ String (digit ((n mod 100) / 10)%Z) (String (digit (n mod 10)%Z) "")
  end.

(** The text before the first ["."] and, when there is one, the text after. *)
Fixpoint splitAtDot (s : string) : string * option string :=
  match s with
  | EmptyString => (EmptyString, None)
  | String c r =>
      if Ascii.eqb c "." then (EmptyString, Some r)
      else let (a, b) := splitAtDot r in (String c a, b)
  end.

Definition digitsValue (s : string) : option Z :=
  option_map Z.of_uint (NilEmpty.uint_of_string s).

(** An unsigned decimal literal: digits, optionally a dot and more digits,
    at least one digit overall. *)
Definition parseUnsigned (s : string) : num :=
  let (ip, fp) := splitAtDot s in
  let f := match fp with Some f => f | None => "" end in
  if (String.eqb ip "" && String.eqb f "")%bool then NaN
  else
    match digitsValue ip, digitsValue f with
    | Some i, Some d =>
        Fin (inject_Z i + inject_Z d / inject_Z (10 ^ Z.of_nat (String.length f)))%Q
    | _, _ => NaN
    end.

(** [Number(s)] on the numerals this program builds: plain signed decimals,
    ["NaN"] and the infinities. (Exponents, hexadecimal literals and
    surrounding blanks, which [Number] also reads, never occur here and are
    read as [NaN].) *)
Definition Number (s : string) : num :=
  if String.eqb s "" then Fin 0
  else if String.eqb s "Infinity" then PInf
  else if String.eqb s "+Infinity" then PInf
  else if String.eqb s "-Infinity" then NInf
  else
    match s with
    | String c r =>
        if Ascii.eqb c "-" then neg (parseUnsigned r)
        else if Ascii.eqb c "+" then parseUnsigned r
        else parseUnsigned s
    | EmptyString => Fin 0
    end.

(** [s.replace("%", "")]: the first percent sign is removed. *)
Fixpoint removeFirstPercent (s : string) : string :=
  match s with
  | EmptyString => EmptyString
  | String c r => if Ascii.eqb c "%" then r else String c (removeFirstPercent r)
  end.

End Js.

(* ================================================================= *)
(** ** Analysis engine ([save.service.ts]) *)

Module Analysis.
Import Js.

(** *** The parsed save

    [analyzeFactorioSave] takes [saveData: any]. The embedding gives the
    parsed save the shape the code reads: every property the code reaches
    through is optional, [None] standing for [undefined]. Properties that
    are present hold values of the kind the code expects (numbers, strings,
    flags, records); entity and technology records are never [null]. *)

Record Entity : Type := mkEntity {
  e_name : option string;
  e_amount : option Q
}.

Record Surface : Type := mkSurface {
  entities : option (list Entity)
}.

Record MapData : Type := mkMapData {
  surfaces : option (list Surface);
  map_name : option string
}.

Record Technology : Type := mkTechnology {
  researched : bool
}.

Record PowerProduction : Type := mkPowerProduction {
  nuclear : option Q;
  solar : option Q;
  steam : option Q;
  production_total : option Q
}.

Record PowerConsumption : Type := mkPowerConsumption {
  consumption_total : option Q
}.

Record ElectricStats : Type := mkElectricStats {
  stats_production : option PowerProduction;
  stats_consumption : option PowerConsumption
}.

Record ItemStats : Type := mkItemStats {
  output_counts : option (list (string * Q))
}.

Record Force : Type := mkForce {
  technologies : option (list (string * Technology));
  electric_network_statistics : option ElectricStats;
  item_production_statistics : option ItemStats;
  items : option (list (string * Q))
}.

Record Forces : Type := mkForces {
  player : option Force
}.

Record Game : Type := mkGame {
  forces : option Forces;
  tick : option Q
}.

Record FactorioVersion : Type := mkFactorioVersion {
  asString : option string
}.

Record SaveData : Type := mkSaveData {
  name : option string;
  factorioVersion : option FactorioVersion;
  game : option Game;
  map : option MapData;
  game_version : option string
}.

(** The object [{}] of [saveData ?? {}]. *)
Definition emptySaveData : SaveData := mkSaveData None None None None None.

(** *** The report ([FactorioAnalysisResult]) *)

Inductive Stage : Type := Early | Mid | Late | EndGame.
Inductive PowerType : Type := Thermal | Steam | Solar | Nuclear.
Inductive PowerStatus : Type := Sufficient | Tight | Insufficient.
Inductive ThreatLevel : Type := Low | Medium | High | Critical.

Definition stageLabel (s : Stage) : string :=
  match s with
  | Early => "前期（手动/半自动化）"
  | Mid => "中期（全自动化）"
  | Late => "后期（规模化）"
  | EndGame => "末期（无限升级）"
  end.

Definition powerTypeLabel (p : PowerType) : string :=
  match p with
  | Thermal => "热能"
  | Steam => "蒸汽"
  | Solar => "太阳能"
  | Nuclear => "核能"
  end.

Definition powerStatusLabel (p : PowerStatus) : string :=
  match p with
  | Sufficient => "充足"
  | Tight => "紧张"
  | Insufficient => "不足"
  end.

Definition threatLabel (t : ThreatLevel) : string :=
  match t with
  | Low => "低"
  | Medium => "中"
  | High => "高"
  | Critical => "极高"
  end.

Record Basic : Type := mkBasic {
  saveName : string;
  gameTimeHour : string;
  gameVersion : string
}.

Record TechStatus : Type := mkTechStatus {
  researchedCount : nat;
  totalTechCount : nat;
  techRate : string
}.

Record Develop : Type := mkDevelop {
  stage : Stage;
  score : num;
  techStatus : TechStatus;
  mainPowerType : PowerType
}.

Record Resource : Type := mkResource {
  mined : list (string * Q);
  remaining : list (string * Q);
  storage : list (string * Q);
  coreResAlert : list string
}.

Record Production : Type := mkProduction {
  machines : list (string * nat);
  efficiencyRate : string;
  efficiencyAlert : list string
}.

Record Power : Type := mkPower {
  totalProduction : Z;
  totalConsumption : Z;
  powerRatio : string;
  powerStatus : PowerStatus
}.

Record Enemy : Type := mkEnemy {
  totalCount : nat;
  nestCount : nat;
  threatLevel : ThreatLevel;
  threatAlert : list string
}.

Record Suggestions : Type := mkSuggestions {
  urgent : list string;
  important : list string;
  suggest : list string
}.

Record FactorioAnalysisResult : Type := mkResult {
  fullAnalysisAvailable : bool;
  basic : Basic;
  develop : Develop;
  resource : Resource;
  production : Production;
  power : Power;
  enemy : Enemy;
  optimizeSuggestions : Suggestions
}.

(** *** Exceptions

    Reading a property of [undefined], and [Object.keys] or [Object.values]
    of [undefined], raise a [TypeError]. *)

Inductive error : Type := TypeError.

Inductive result (A : Type) : Type :=
| Ok (a : A)
| Throw (e : error).

Arguments Ok {A} a.
Arguments Throw {A} e.

Definition bind {A B : Type} (r : result A) (k : A -> result B) : result B :=
  match r with
  | Ok a => k a
  | Throw e => Throw e
  end.

Notation "x <- r ;; k" := (bind r (fun x => k))
  (at level 61, r at next level, right associativity).

(** The object a property chain goes through: [undefined] raises. *)
Definition deref {A : Type} (o : option A) : result A :=
  match o with
  | Some a => Ok a
  | None => Throw TypeError
  end.

(** *** Helpers for the expressions the code repeats *)

(** [obj[key]] on a record of counters. *)
Fixpoint lookup {A : Type} (key : string) (l : list (string * A)) : option A :=
  match l with
  | [] => None
  | (k, v) :: r => if String.eqb k key then Some v else lookup key r
  end.

(** [s || fallback] for a string property: [undefined] and [""] are falsy. *)
Definition strOr (o : option string) (fallback : string) : string :=
  match o with
  | Some s => if String.eqb s "" then fallback else s
  | None => fallback
  end.

(** [s ?? fallback]. *)
Definition strNullish (o : option string) (fallback : string) : string :=
  match o with
  | Some s => s
  | None => fallback
  end.

(** [e.name === n]. *)
Definition named (n : string) (e : Entity) : bool :=
  match e_name e with
  | Some m => String.eqb m n
  | None => false
  end.

(** [entities.filter(e => e.name === n).length]. *)
Definition countNamed (n : string) (es : list Entity) : nat :=
  List.length (filter (named n) es).

(** [entities.filter(e => e.name === res).reduce((sum, e) => sum + (e.amount ?? 0), 0)]. *)
Definition remainingOf (res : string) (es : list Entity) : Q :=
  fold_left
    (fun sum e => (sum + match e_amount e with Some a => a | None => 0 end)%Q)
    (filter (named res) es) 0%Q.

Definition Qltb (a b : Q) : bool := negb (Qle_bool b a).

Definition enemyTypes : list string :=
  [ "small-biter"; "medium-biter"; "big-biter"; "behemoth-biter";
    "small-spitter"; "medium-spitter"; "big-spitter"; "behemoth-spitter" ].

Definition isEnemy (e : Entity) : bool :=
  match e_name e with
  | Some n => existsb (String.eqb n) enemyTypes
  | None => false
  end.

Definition isNest (e : Entity) : bool :=
  named "biter-nest" e || named "spitter-nest" e.

Definition coreResources : list string :=
  [ "iron-ore"; "copper-ore"; "coal"; "crude-oil" ].

Definition resourceMap (res : string) : string :=
  if String.eqb res "iron-ore" then "铁矿"
  else if String.eqb res "copper-ore" then "铜矿"
  else if String.eqb res "coal" then "煤"
  else "原油".

(** [s.includes(sub)]. *)
Fixpoint includes (s sub : string) : bool :=
  String.prefix sub s
  || match s with
     | EmptyString => false
     | String _ r => includes r sub
     end.

(** *** [buildHeaderOnlyAnalysis] *)

Definition buildHeaderOnlyAnalysis (header : SaveData) : FactorioAnalysisResult :=
  {| fullAnalysisAvailable := false;
     basic :=
       {| saveName := strNullish (name header) "未命名基地";
          gameTimeHour := "—";
          gameVersion :=
            strNullish
              (match factorioVersion header with
               | Some v => asString v
               | None => None
               end)
              "未知版本" |};
     develop :=
       {| stage := Early;
          score := ofZ 0;
          techStatus :=
            {| researchedCount := 0; totalTechCount := 0; techRate := "0.00%" |};
          mainPowerType := Thermal |};
     resource :=
       {| mined := []; remaining := []; storage := []; coreResAlert := [] |};
     production :=
       {| machines := []; efficiencyRate := "—"; efficiencyAlert := [] |};
     power :=
       {| totalProduction := 0; totalConsumption := 0; powerRatio := "—";
          powerStatus := Sufficient |};
     enemy :=
       {| totalCount := 0; nestCount := 0; threatLevel := Low; threatAlert := [] |};
     optimizeSuggestions :=
       {| urgent := []; important := []; suggest :=
            ["当前仅解析了存档头信息；全维度分析（资源/电力/敌人等）需要完整 level.dat 解析支持，暂无可用库。"] |} |}.

(** *** [analyzeFactorioSave], full mode

    The code fills one mutable [analysis] object dimension by dimension; the
    embedding names each value where it is computed and builds the record at
    the end. *)

Definition stageOf (gameTime : num) (techCount : nat) : Stage :=
  if lt gameTime (ofZ 10) && (techCount <? 30)%nat then Early
  else if lt gameTime (ofZ 50) && (techCount <? 80)%nat then Mid
  else if lt gameTime (ofZ 200) && (techCount <? 150)%nat then Late
  else EndGame.

Definition techScoreOf (researchedN totalN : nat) : num :=
  min (ofZ 50) (mul (div (ofNat researchedN) (ofNat totalN)) (ofZ 50)).

Definition stageScoreOf (gameTime : num) : num :=
  if lt gameTime (ofZ 10) then mul (div gameTime (ofZ 10)) (ofZ 50) else ofZ 50.

Definition scoreOf (gameTime : num) (researchedN totalN : nat) : num :=
  min (ofZ 100) (round (add (techScoreOf researchedN totalN) (stageScoreOf gameTime))).

Definition powerStatusOf (powerRatio : num) : PowerStatus :=
  if ge powerRatio (Fin (11 # 10)) then Sufficient
  else if ge powerRatio (Fin (9 # 10)) then Tight
  else Insufficient.

Definition threatLevelOf (nestCount : nat) : ThreatLevel :=
  if (nestCount =? 0)%nat then Low
  else if (nestCount <? 10)%nat then Medium
  else if (nestCount <? 30)%nat then High
  else Critical.

Definition efficiencyRateOf (totalEffective totalMachine : nat) : string :=
  if (0 <? totalMachine)%nat
  then toFixed2 (mul (div (ofNat totalEffective) (ofNat totalMachine)) (ofZ 100)) ++ "%"
  else "100%".

(** [threatAlert[0]], pushed only at a level whose alert was just added. *)
Definition firstAlert (alerts : list string) : list string :=
  match alerts with
  | a :: _ => [a]
  | [] => []
  end.

Definition fullAnalysis (saveData : SaveData) (gameData : Game)
    (mapObject : MapData) (mapData : Surface) : result FactorioAnalysisResult :=
  theForces <- deref (forces gameData) ;;
  let playerForce := player theForces in
  let gameTick := ofOption (tick gameData) in
  ents <- deref (entities mapData) ;;
  let saveName_ := strOr (map_name mapObject) "未命名基地" in
  let gameTimeHour_ := toFixed2 (div (div gameTick (ofZ 60)) (ofZ 60)) in
  let gameVersion_ := strOr (game_version saveData) "未知版本" in
  (* dimension 1: development *)
  force <- deref playerForce ;;
  techs <- deref (technologies force) ;;
  let techAll := List.map fst techs in
  let techResearched :=
    filter
      (fun tech =>
         match lookup tech techs with
         | Some t => researched t
         | None => false
         end)
      techAll in
  let researchedN := List.length techResearched in
  let totalN := List.length techAll in
  let techRate_ :=
    toFixed2 (mul (div (ofNat researchedN) (ofNat totalN)) (ofZ 100)) ++ "%" in
  stats <- deref (electric_network_statistics force) ;;
  powerProduction <- deref (stats_production stats) ;;
  let mainPowerType_ :=
    if truthy (nuclear powerProduction) then Nuclear
    else if truthy (solar powerProduction) then Solar
    else if truthy (steam powerProduction) then Steam
    else Thermal in
  let gameTime := Number gameTimeHour_ in
  let techCount := researchedN in
  let stage_ := stageOf gameTime techCount in
  let score_ := scoreOf gameTime researchedN totalN in
  (* dimension 2: resources *)
  itemStats <- deref (item_production_statistics force) ;;
  outputCounts <- deref (output_counts itemStats) ;;
  let mined_ :=
    [ ("铁矿", orElse (lookup "iron-ore" outputCounts) 0);
      ("铜矿", orElse (lookup "copper-ore" outputCounts) 0);
      ("煤", orElse (lookup "coal" outputCounts) 0);
      ("原油", orElse (lookup "crude-oil" outputCounts) 0) ] in
  let remaining_ :=
    List.map (fun res => (resourceMap res, remainingOf res ents)) coreResources in
  inventory <- deref (items force) ;;
  let ironPlate := orElse (lookup "iron-plate" inventory) 0 in
  let copperPlate := orElse (lookup "copper-plate" inventory) 0 in
  let storage_ :=
    [ ("铁板", ironPlate);
      ("铜板", copperPlate);
      ("铁齿轮", orElse (lookup "iron-gear-wheel" inventory) 0);
      ("铜缆", orElse (lookup "copper-cable" inventory) 0) ] in
  let coreResAlert_ :=
    flat_map
      (fun res =>
         let resCn := resourceMap res in
         match lookup resCn mined_, lookup resCn remaining_ with
         | Some m, Some r =>
             if Qltb 0 m && Qltb (r / m) (1 # 10)
             then [resCn ++ "剩余量不足已开采的10%，存在枯竭风险"]
             else []
         | _, _ => []
         end)
      coreResources in
  (* dimension 3: production *)
  let stoneFurnace := countNamed "stone-furnace" ents in
  let steelFurnace := countNamed "steel-furnace" ents in
  let lab := countNamed "lab" ents in
  let electricDrill := countNamed "electric-mining-drill" ents in
  let burnerDrill := countNamed "burner-mining-drill" ents in
  let machines_ :=
    [ ("石炉", stoneFurnace);
      ("钢炉", steelFurnace);
      ("组装机1", countNamed "assembling-machine-1" ents);
      ("组装机2", countNamed "assembling-machine-2" ents);
      ("组装机3", countNamed "assembling-machine-3" ents);
      ("研究中心", lab);
      ("电力采矿机", electricDrill);
      ("热能采矿机", burnerDrill) ] in
  let totalFurnace := (stoneFurnace + steelFurnace)%nat in
  let effectiveFurnace := steelFurnace in
  let totalMining := (electricDrill + burnerDrill)%nat in
  let effectiveMining := electricDrill in
  let totalEffective := (effectiveFurnace + effectiveMining)%nat in
  let totalMachine := (totalFurnace + totalMining)%nat in
  let efficiencyRate_ := efficiencyRateOf totalEffective totalMachine in
  let efficiencyAlert_ :=
    List.concat
      [ if (0 <? stoneFurnace)%nat
        then ["仍有" ++ stringOfNat stoneFurnace
                ++ "个石炉，建议升级为钢炉（冶炼效率翻倍，耗煤不变）"]
        else [];
        if (0 <? burnerDrill)%nat
        then ["仍有" ++ stringOfNat burnerDrill
                ++ "个热能采矿机，建议升级为电力采矿机（采矿效率提升50%）"]
        else [];
        if (lab <? 5)%nat && includes (stageLabel stage_) "前期"
        then ["研究中心数量不足（当前" ++ stringOfNat lab ++ "个），科技解锁速度慢"]
        else [] ] in
  (* dimension 4: power *)
  let totalProduction_ := roundQ (orElse (production_total powerProduction) 0) in
  powerConsumption <- deref (stats_consumption stats) ;;
  let totalConsumption_ := roundQ (orElse (consumption_total powerConsumption) 1) in
  let powerRatio_ := toFixed2 (div (ofZ totalProduction_) (ofZ totalConsumption_)) in
  let powerStatus_ := powerStatusOf (Number powerRatio_) in
  (* dimension 5: enemies *)
  let totalCount_ := List.length (filter isEnemy ents) in
  let nestCount_ := List.length (filter isNest ents) in
  let threatLevel_ := threatLevelOf nestCount_ in
  let threatAlert_ :=
    match threatLevel_ with
    | High | Critical =>
        [ "当前虫巢" ++ stringOfNat nestCount_ ++ "个，敌人" ++ stringOfNat totalCount_
            ++ "只，威胁等级" ++ threatLabel threatLevel_ ++ "，建议加强基地防御" ]
    | _ => []
    end in
  (* suggestions *)
  let urgent_ :=
    List.concat
      [ match powerStatus_ with
        | Insufficient =>
            [ "供电不足（供电比" ++ powerRatio_ ++ "），"
                ++ match mainPowerType_ with
                   | Steam => "请按1泵:20锅炉:40蒸汽机补充发电设备"
                   | _ => "建议增加太阳能板/储能箱/核能反应堆"
                   end ]
        | _ => []
        end;
        coreResAlert_;
        match threatLevel_ with
        | Critical => firstAlert threatAlert_
        | _ => []
        end ] in
  let important_ :=
    List.concat
      [ match powerStatus_ with
        | Tight =>
            [ "供电紧张（供电比" ++ powerRatio_
                ++ "），建议适当增加发电设备，避免设备停机" ]
        | _ => []
        end;
        efficiencyAlert_;
        match threatLevel_ with
        | High => firstAlert threatAlert_
        | _ => []
        end ] in
  let coreStorage := (ironPlate + copperPlate)%Q in
  let suggest_ :=
    List.concat
      [ if lt (Number (removeFirstPercent techRate_)) (ofZ 50)
        then ["科技解锁率仅" ++ techRate_ ++ "，建议优化科技包生产线，增加研究中心数量"]
        else [];
        if Qltb coreStorage 1000
        then ["核心基础材料（铁板+铜板）储备不足1000，建议提升冶炼产能"]
        else [] ] in
  Ok {| fullAnalysisAvailable := true;
        basic :=
          {| saveName := saveName_; gameTimeHour := gameTimeHour_;
             gameVersion := gameVersion_ |};
        develop :=
          {| stage := stage_; score := score_;
             techStatus :=
               {| researchedCount := researchedN; totalTechCount := totalN;
                  techRate := techRate_ |};
             mainPowerType := mainPowerType_ |};
        resource :=
          {| mined := mined_; remaining := remaining_; storage := storage_;
             coreResAlert := coreResAlert_ |};
        production :=
          {| machines := machines_; efficiencyRate := efficiencyRate_;
             efficiencyAlert := efficiencyAlert_ |};
        power :=
          {| totalProduction := totalProduction_;
             totalConsumption := totalConsumption_;
             powerRatio := powerRatio_; powerStatus := powerStatus_ |};
        enemy :=
          {| totalCount := totalCount_; nestCount := nestCount_;
             threatLevel := threatLevel_; threatAlert := threatAlert_ |};
        optimizeSuggestions :=
          {| urgent := urgent_; important := important_; suggest := suggest_ |} |}.

(** The mode decision [!saveData?.game || !saveData?.map?.surfaces?.[0]]:
    the game state, the map object and its first surface, when all exist. *)
Definition snapshot (saveData : option SaveData)
    : option (SaveData * Game * MapData * Surface) :=
  match saveData with
  | Some sd =>
      match game sd, map sd with
      | Some g, Some m =>
          match surfaces m with
          | Some (s :: _) => Some (sd, g, m, s)
          | _ => None
          end
      | _, _ => None
      end
  | None => None
  end.

Definition analyzeFactorioSave (saveData : option SaveData)
    : result FactorioAnalysisResult :=
  match snapshot saveData with
  | None =>
      Ok (buildHeaderOnlyAnalysis
            (match saveData with Some sd => sd | None => emptySaveData end))
  | Some (sd, gameData, mapObject, mapData) =>
      fullAnalysis sd gameData mapObject mapData
  end.

End Analysis.

(* ================================================================= *)
(** ** JavaScript strings as UTF-16, and the codecs the repository calls *)

Module Text.

(** A JavaScript string: its UTF-16 code units. *)
Definition jsstring : Type := list Z.

(** The code units of an ASCII literal. *)
Fixpoint units (s : string) : jsstring :=
  match s with
  | EmptyString => []
  | String c r => Z.of_nat (nat_of_ascii c) :: units r
  end.

Definition jsEqb (a b : jsstring) : bool :=
  if list_eq_dec Z.eq_dec a b then true else false.

Definition inRange (lo hi x : Z) : bool := ((lo <=? x) && (x <=? hi))%Z.

Definition isHighSurrogate (c : Z) : bool := inRange 0xD800 0xDBFF c.
Definition isLowSurrogate (c : Z) : bool := inRange 0xDC00 0xDFFF c.

(** The UTF-16 code units of a code point. *)
Definition utf16OfCodePoint (cp : Z) : jsstring :=
  if (cp <? 0x10000)%Z then [cp]
  else
    let v := (cp - 0x10000)%Z in
    [ (0xD800 + Z.shiftr v 10)%Z; (0xDC00 + Z.land v 0x3FF)%Z ].

(** The UTF-8 bytes of a code point. *)
Definition utf8OfCodePoint (cp : Z) : list Z :=
  if (cp <? 0x80)%Z then [cp]
  else if (cp <? 0x800)%Z then
    [ Z.lor 0xC0 (Z.shiftr cp 6); Z.lor 0x80 (Z.land cp 0x3F) ]
  else if (cp <? 0x10000)%Z then
    [ Z.lor 0xE0 (Z.shiftr cp 12);
      Z.lor 0x80 (Z.land (Z.shiftr cp 6) 0x3F);
      Z.lor 0x80 (Z.land cp 0x3F) ]
  else
    [ Z.lor 0xF0 (Z.shiftr cp 18);
      Z.lor 0x80 (Z.land (Z.shiftr cp 12) 0x3F);
      Z.lor 0x80 (Z.land (Z.shiftr cp 6) 0x3F);
      Z.lor 0x80 (Z.land cp 0x3F) ].

(** [Buffer.from(str, "utf8")]: a surrogate pair is one code point, a lone
    surrogate is written as U+FFFD. *)
Fixpoint utf8Encode (s : jsstring) : list Z :=
  match s with
  | [] => []
  | c :: r =>
      if isHighSurrogate c then
        match r with
        | d :: r' =>
            if isLowSurrogate d
            then utf8OfCodePoint
                   (0x10000 + Z.shiftl (c - 0xD800) 10 + (d - 0xDC00))%Z
                   ++ utf8Encode r'
            else utf8OfCodePoint 0xFFFD ++ utf8Encode r
        | [] => utf8OfCodePoint 0xFFFD
        end
      else if isLowSurrogate c then utf8OfCodePoint 0xFFFD ++ utf8Encode r
      else utf8OfCodePoint c ++ utf8Encode r
  end%list.

(** [Buffer.from(str, "latin1")]: the low byte of every code unit. *)
Definition latin1Encode (s : jsstring) : list Z :=
  List.map (fun c => Z.land c 0xFF) s.

(** *** [buf.toString("utf8")]

    The decoder of the Encoding standard: an ill-formed sequence becomes one
    U+FFFD per maximal subpart, and the byte that ended it is read again. *)

Record Utf8State : Type := mkUtf8State {
  bytesNeeded : Z;
  codePoint : Z;
  lowerBoundary : Z;
  upperBoundary : Z
}.

Definition utf8Start : Utf8State := mkUtf8State 0 0 0x80 0xBF.

(** A byte read with no sequence pending: what is emitted, and the state. *)
Definition utf8Lead (b : Z) : jsstring * Utf8State :=
  if inRange 0x00 0x7F b then ([b], utf8Start)
  else if inRange 0xC2 0xDF b then
    ([], mkUtf8State 1 (Z.land b 0x1F) 0x80 0xBF)
  else if inRange 0xE0 0xEF b then
    ([], mkUtf8State 2 (Z.land b 0xF)
           (if (b =? 0xE0)%Z then 0xA0 else 0x80)
           (if (b =? 0xED)%Z then 0x9F else 0xBF))
  else if inRange 0xF0 0xF4 b then
    ([], mkUtf8State 3 (Z.land b 0x7)
           (if (b =? 0xF0)%Z then 0x90 else 0x80)
           (if (b =? 0xF4)%Z then 0x8F else 0xBF))
  else ([0xFFFD%Z], utf8Start).

Definition utf8Step (st : Utf8State) (b : Z) : jsstring * Utf8State :=
  if (bytesNeeded st =? 0)%Z then utf8Lead b
  else if negb (inRange (lowerBoundary st) (upperBoundary st) b) then
    let (out, st') := utf8Lead b in ((0xFFFD%Z :: out), st')
  else
    let cp := Z.lor (Z.shiftl (codePoint st) 6) (Z.land b 0x3F) in
    if (bytesNeeded st =? 1)%Z then (utf16OfCodePoint cp, utf8Start)
    else ([], mkUtf8State (bytesNeeded st - 1) cp 0x80 0xBF).

Fixpoint utf8DecodeFrom (st : Utf8State) (bytes : list Z) : jsstring :=
  match bytes with
  | [] => if (bytesNeeded st =? 0)%Z then [] else [0xFFFD%Z]
  | b :: r => let (out, st') := utf8Step st b in (out ++ utf8DecodeFrom st' r)%list
  end.

Definition utf8Decode (bytes : list Z) : jsstring := utf8DecodeFrom utf8Start bytes.

(** *** [decodeURIComponent]

    Every escape [%XX] is one byte; bytes of 0x80 and above must form
    well-formed UTF-8 sequences made of escapes only. [None] is the
    [URIError] the function raises. *)

Definition hexValue (c : Z) : option Z :=
  if inRange 48 57 c then Some (c - 48)%Z
  else if inRange 65 70 c then Some (c - 55)%Z
  else if inRange 97 102 c then Some (c - 87)%Z
  else None.

Definition percent : Z := 37.

(** Where the scan stands inside an escape. *)
Inductive Escape : Type :=
| Outside
| AfterPercent
| AfterHex (hi : Z).

(** The number of leading one bits of a byte. *)
Definition leadingOnes (b : Z) : Z :=
  if (b <? 0x80)%Z then 0
  else if (b <? 0xC0)%Z then 1
  else if (b <? 0xE0)%Z then 2
  else if (b <? 0xF0)%Z then 3
  else if (b <? 0xF8)%Z then 4
  else 5.

(** The code point of a complete, well-formed multi-byte sequence. *)
Definition codePointOfOctets (octets : list Z) : option Z :=
  match octets with
  | [b0; b1] =>
      if inRange 0xC2 0xDF b0 && inRange 0x80 0xBF b1
      then Some (Z.lor (Z.shiftl (Z.land b0 0x1F) 6) (Z.land b1 0x3F))
      else None
  | [b0; b1; b2] =>
      if inRange 0xE0 0xEF b0
         && inRange (if (b0 =? 0xE0)%Z then 0xA0 else 0x80)
                    (if (b0 =? 0xED)%Z then 0x9F else 0xBF) b1
         && inRange 0x80 0xBF b2
      then Some (Z.lor (Z.shiftl (Z.land b0 0xF) 12)
                   (Z.lor (Z.shiftl (Z.land b1 0x3F) 6) (Z.land b2 0x3F)))
      else None
  | [b0; b1; b2; b3] =>
      if inRange 0xF0 0xF4 b0
         && inRange (if (b0 =? 0xF0)%Z then 0x90 else 0x80)
                    (if (b0 =? 0xF4)%Z then 0x8F else 0xBF) b1
         && inRange 0x80 0xBF b2 && inRange 0x80 0xBF b3
      then Some (Z.lor (Z.shiftl (Z.land b0 0x7) 18)
                   (Z.lor (Z.shiftl (Z.land b1 0x3F) 12)
                      (Z.lor (Z.shiftl (Z.land b2 0x3F) 6) (Z.land b3 0x3F))))
      else None
  | _ => None
  end.

(** The scan: [esc] is the position inside the current escape, [octets] the
    bytes of the pending multi-byte sequence and [need] how many of its
    bytes are still to come. *)
Fixpoint decodeURIFrom (esc : Escape) (octets : list Z) (need : Z)
    (s : jsstring) : option jsstring :=
  match s with
  | [] =>
      match esc with
      | Outside => if (need =? 0)%Z then Some [] else None
      | _ => None
      end
  | c :: r =>
      match esc with
      | Outside =>
          if (c =? percent)%Z then decodeURIFrom AfterPercent octets need r
          else if (need =? 0)%Z
          then option_map (cons c) (decodeURIFrom Outside [] 0 r)
          else None
      | AfterPercent =>
          match hexValue c with
          | Some hi => decodeURIFrom (AfterHex hi) octets need r
          | None => None
          end
      | AfterHex hi =>
          match hexValue c with
          | None => None
          | Some lo =>
              let b := (hi * 16 + lo)%Z in
              if (need =? 0)%Z then
                let n := leadingOnes b in
                if (n =? 0)%Z
                then option_map (cons b) (decodeURIFrom Outside [] 0 r)
                else if ((n =? 1) || (4 <? n))%Z then None
                else decodeURIFrom Outside [b] (n - 1) r
              else if (need =? 1)%Z then
                match codePointOfOctets (octets ++ [b])%list with
                | Some cp =>
                    option_map (app (utf16OfCodePoint cp))
                      (decodeURIFrom Outside [] 0 r)
                | None => None
                end
              else decodeURIFrom Outside (octets ++ [b])%list (need - 1) r
          end
      end
  end.

Definition decodeURIComponent (s : jsstring) : option jsstring :=
  decodeURIFrom Outside [] 0 s.

End Text.

(* ================================================================= *)
(** ** Storage: [GameSaveRepository] and [GameSaveService.uploadFile] *)

Module Storage.
Import Text.

(** *** [decodeFileName] and its tests *)

Definition includesUnit (c : Z) (s : jsstring) : bool :=
  existsb (Z.eqb c) s.

(** [Buffer.from(str, "utf8").toString("utf8") === str]. *)
Definition isValidUTF8 (str : jsstring) : bool :=
  jsEqb (utf8Decode (utf8Encode str)) str.

(** The test of the regular expression over U+4E00 to U+9FFF. *)
Definition containsChinese (str : jsstring) : bool :=
  existsb (inRange 0x4E00 0x9FFF) str.

(** The character class of [garbledPattern]: U+00E5, U+00E6, U+00E8 to
    U+00F6 and U+00F8 to U+00FF. *)
Definition garbledUnit (c : Z) : bool :=
  inRange 0xE5 0xE6 c || inRange 0xE8 0xF6 c || inRange 0xF8 0xFF c.

Definition looksLikeGarbled (str : jsstring) : bool :=
  existsb garbledUnit str && negb (containsChinese str).

(** The bytes of the name read as Latin-1, decoded as UTF-8. *)
Definition reinterpretLatin1 (fileName : jsstring) : jsstring :=
  utf8Decode (latin1Encode fileName).

(** Attempt 1: URL decoding, kept when the result is valid. *)
Definition tryUrlDecode (fileName : jsstring) : option jsstring :=
  if includesUnit percent fileName then
    match decodeURIComponent fileName with
    | Some decoded => if isValidUTF8 decoded then Some decoded else None
    | None => None
    end
  else None.

(** Attempt 2: an invalid name whose reinterpretation contains Chinese. *)
Definition tryLatin1 (fileName : jsstring) : option jsstring :=
  if negb (isValidUTF8 fileName) then
    let decoded := reinterpretLatin1 fileName in
    if containsChinese decoded then Some decoded else None
  else None.

Definition decodeFileName (fileName : jsstring) : jsstring :=
  match fileName with
  | [] => units "unnamed"
  | _ =>
      match tryUrlDecode fileName with
      | Some decoded => decoded
      | None =>
          match tryLatin1 fileName with
          | Some decoded => decoded
          | None =>
              if looksLikeGarbled fileName then reinterpretLatin1 fileName
              else fileName
          end
      end
  end.

(** *** [path.extname] (POSIX)

    Node scans the path from its end; the scan stops at the separator that
    starts the last path component. *)

Record ExtScan : Type := mkExtScan {
  startDot : Z;
  startPart : Z;
  endIndex : Z;
  matchedSlash : bool;
  preDotState : Z;
  stopped : bool
}.

Definition extScanStart : ExtScan := mkExtScan (-1) 0 (-1) true 0 false.

Definition extScanStep (st : ExtScan) (ic : Z * Z) : ExtScan :=
  let (i, code) := ic in
  if stopped st then st
  else if (code =? 47)%Z then
    if negb (matchedSlash st)
    then mkExtScan (startDot st) (i + 1) (endIndex st) (matchedSlash st)
           (preDotState st) true
    else st
  else
    let st1 :=
      if (endIndex st =? -1)%Z
      then mkExtScan (startDot st) (startPart st) (i + 1) false
             (preDotState st) false
      else st in
    if (code =? 46)%Z then
      if (startDot st1 =? -1)%Z
      then mkExtScan i (startPart st1) (endIndex st1) (matchedSlash st1)
             (preDotState st1) false
      else if negb (preDotState st1 =? 1)%Z
      then mkExtScan (startDot st1) (startPart st1) (endIndex st1)
             (matchedSlash st1) 1 false
      else st1
    else if negb (startDot st1 =? -1)%Z
    then mkExtScan (startDot st1) (startPart st1) (endIndex st1)
           (matchedSlash st1) (-1) false
    else st1.

(** [str.slice(from, to)] for indices inside the string. *)
Definition sliceUnits (from to : Z) (s : jsstring) : jsstring :=
  firstn (Z.to_nat (to - from)) (skipn (Z.to_nat from) s).

Definition extname (p : jsstring) : jsstring :=
  let indexed := combine (List.map Z.of_nat (seq 0 (List.length p))) p in
  let st := fold_left extScanStep (rev indexed) extScanStart in
  if ((startDot st =? -1) || (endIndex st =? -1) || (preDotState st =? 0)
      || ((preDotState st =? 1) && (startDot st =? endIndex st - 1)
          && (startDot st =? startPart st + 1)))%Z
  then []
  else sliceUnits (startDot st) (endIndex st) p.

(** *** The storage root *)

(** An entry of the upload directory. Modification times are in
    milliseconds ([stat.mtimeMs]). *)
Record DirEntry : Type := mkDirEntry {
  d_name : jsstring;
  d_isFile : bool;
  d_mtimeMs : Q;
  d_content : list Z
}.

(** The upload directory: absent, or present with its entries in the order
    [readdir] lists them. *)
Definition Disk : Type := option (list DirEntry).

(** What the repository cannot decide: which deletions and writes the
    operating system refuses, the identifier [randomUUID] draws, the clock,
    and how far a write that fails had come: [fs.writeFile] opens the file,
    creating or truncating it, before it writes, so a failure leaves nothing
    ([None], the open was refused) or a file holding the bytes written until
    then. *)
Record Env : Type := mkEnv {
  unlinkFails : jsstring -> bool;
  writeFails : jsstring -> bool;
  randomUUID : jsstring;
  now : Q;
  writtenBeforeFailure : jsstring -> option nat
}.

Definition ensureUploadDirExists (disk : Disk) : list DirEntry :=
  match disk with
  | Some entries => entries
  | None => []
  end.

Definition nameIs (n : jsstring) (e : DirEntry) : bool := jsEqb (d_name e) n.

(** [fs.unlink] inside [try]/[catch]: a refused deletion leaves the
    directory as it was. *)
Definition tryUnlink (env : Env) (entries : list DirEntry) (f : DirEntry)
    : list DirEntry :=
  if unlinkFails env (d_name f) then entries
  else filter (fun e => negb (nameIs (d_name f) e)) entries.

(** [withStat.sort((a, b) => a.mtimeMs - b.mtimeMs)]: ascending and stable. *)
Fixpoint insertByMtime (x : DirEntry) (l : list DirEntry) : list DirEntry :=
  match l with
  | [] => [x]
  | y :: r =>
      if Qle_bool (d_mtimeMs x) (d_mtimeMs y) then x :: y :: r
      else y :: insertByMtime x r
  end.

Definition sortByMtime (l : list DirEntry) : list DirEntry :=
  fold_right insertByMtime [] l.

(** [arr.slice(0, end)] with the clamping of a relative end. *)
Definition sliceTo {A : Type} (l : list A) (e : Z) : list A :=
  let len := Z.of_nat (List.length l) in
  let stop := if (e <? 0)%Z then Z.max (len + e) 0 else Z.min e len in
  firstn (Z.to_nat stop) l.

Definition pruneOldFilesIfExceed (env : Env) (maxCount : Z) (disk : Disk) : Disk :=
  let entries := ensureUploadDirExists disk in
  let files := filter d_isFile entries in
  if (Z.of_nat (List.length files) <=? maxCount)%Z then Some entries
  else
    let withStat := sortByMtime files in
    let toRemove := sliceTo withStat (Z.of_nat (List.length withStat) - maxCount) in
    Some (fold_left (tryUnlink env) toRemove entries).

(** The regular files of the storage root. *)
Definition storedFiles (disk : Disk) : list DirEntry :=
  filter d_isFile (ensureUploadDirExists disk).

(** *** [saveFileAsync] and [uploadFile] *)

Record UploadedFile : Type := mkUploadedFile {
  originalname : jsstring;
  mimetype : string;
  size : Z;
  buffer : list Z
}.

Record SavedFile : Type := mkSavedFile {
  saved_filename : jsstring;
  saved_path : jsstring;
  saved_originalName : jsstring
}.

(** [path.join(uploadDir, name)] for the default root ["game-saves"]. *)
Definition uploadDir : jsstring := units "game-saves".
Definition joinPath (dir n : jsstring) : jsstring := (dir ++ units "/" ++ n)%list.

(** [fs.writeFile]: replaces the file of that name or adds it. *)
Definition writeFile (env : Env) (n : jsstring) (data : list Z)
    (entries : list DirEntry) : list DirEntry :=
  (filter (fun e => negb (nameIs n e)) entries
     ++ [mkDirEntry n true (now env) data])%list.

(** What a failed [fs.writeFile] leaves behind: nothing removes the file it
    had created or truncated. *)
Definition failedWrite (env : Env) (n : jsstring) (data : list Z)
    (entries : list DirEntry) : list DirEntry :=
  match writtenBeforeFailure env n with
  | None => entries
  | Some k => writeFile env n (firstn k data) entries
  end.

(** [None] is the exception of a failed write; the directory has then been
    created, and holds what the failed write left. *)
Definition saveFileAsync (env : Env) (file : UploadedFile) (disk : Disk)
    : option SavedFile * Disk :=
  let entries := ensureUploadDirExists disk in
  let originalName := decodeFileName (originalname file) in
  let ext := match extname originalName with [] => units ".zip" | e => e end in
  let safeFilename := (randomUUID env ++ ext)%list in
  let filePath := joinPath uploadDir safeFilename in
  if writeFails env safeFilename
  then (None, Some (failedWrite env safeFilename (buffer file) entries))
  else
    (Some (mkSavedFile safeFilename filePath originalName),
     Some (writeFile env safeFilename (buffer file) entries)).

Inductive StatusCode : Type :=
| OK
| BAD_REQUEST
| NOT_FOUND
| INTERNAL_SERVER_ERROR.

Record GameSaveUploadResponse : Type := mkUploadResponse {
  r_filename : jsstring;
  r_originalName : jsstring;
  r_mimetype : string;
  r_size : Z;
  r_path : jsstring;
  r_uploadTime : Q
}.

(** Modelled from the spec: the [ServiceResponse] class of
    [common/models/serviceResponse.ts], the uniform success/failure
    envelope; [failure] and [success] are its two constructors. *)
Record ServiceResponse (A : Type) : Type := mkServiceResponse {
  success : bool;
  message : string;
  responseObject : option A;
  statusCode : StatusCode
}.

Arguments mkServiceResponse {A}.
Arguments success {A}.
Arguments message {A}.
Arguments responseObject {A}.
Arguments statusCode {A}.

Definition failure {A : Type} (msg : string) (code : StatusCode) : ServiceResponse A :=
  mkServiceResponse false msg None code.

Definition succeed {A : Type} (msg : string) (obj : A) : ServiceResponse A :=
  mkServiceResponse true msg (Some obj) OK.

Definition allowedMimeTypes : list string :=
  [ "application/zip";
    "application/x-zip-compressed";
    "application/x-rar-compressed";
    "application/x-rar";
    "application/x-7z-compressed";
    "application/gzip";
    "application/x-gzip";
    "application/x-tar" ].

Definition maxSize : Z := 200 * 1024 * 1024.

Definition uploadFile (env : Env) (file : UploadedFile) (disk : Disk)
    : ServiceResponse GameSaveUploadResponse * Disk :=
  if negb (existsb (String.eqb (mimetype file)) allowedMimeTypes) then
    (failure
       "Invalid file type. Only compressed files (zip, rar, 7z, gz, tar) are allowed."
       BAD_REQUEST, disk)
  else if (maxSize <? size file)%Z then
    (failure "File size exceeds the maximum limit of 100MB." BAD_REQUEST, disk)
  else
    match saveFileAsync env file disk with
    | (Some saved, disk') =>
        (succeed "File uploaded successfully"
           (mkUploadResponse (saved_filename saved) (saved_originalName saved)
              (mimetype file) (size file) (saved_path saved) (now env)),
         disk')
    | (None, disk') =>
        (failure "An error occurred while uploading the file."
           INTERNAL_SERVER_ERROR, disk')
    end.

End Storage.

(* ================================================================= *)
(** ** The analyze pipeline: [findFileByFilename], [parseFactorioSave],
       [analyzeGameSave] and the controller *)

Module Service.
Import Text Storage.

(** What a failing step raises: an [Error] with its message. *)
Inductive outcome (A : Type) : Type :=
| Returned (a : A)
| Raised (errorMessage : string).

Arguments Returned {A} a.
Arguments Raised {A} errorMessage.

(** The argument of [parseFactorioSave]: a path or the bytes of an upload. *)
Inductive Source : Type :=
| FromPath (p : jsstring)
| FromBuffer (bytes : list Z).

(** A name that is one path component: [path.join(uploadDir, name)] is then
    the root, a separator and the name. *)
Definition isComponent (n : jsstring) : bool :=
  negb (jsEqb n []) && negb (includesUnit 47 n)
  && negb (jsEqb n (units ".")) && negb (jsEqb n (units "..")).

(** The bytes of a JavaScript string inside a message. *)
Definition showName (n : jsstring) : string :=
  string_of_list_ascii (List.map (fun b => ascii_of_nat (Z.to_nat b)) (utf8Encode n)).

Definition quote : string := String (ascii_of_nat 34) "".

(** The regular file stored at a path of the upload directory. *)
Definition readStored (disk : Disk) (p : jsstring) : option (list Z) :=
  match disk with
  | Some entries =>
      option_map d_content
        (find (fun e => d_isFile e && jsEqb (joinPath uploadDir (d_name e)) p)
           entries)
  | None => None
  end.

(** [files.map((f) => f.path).slice(0, 10).join(", ")]: an absent path is
    joined as the empty text. *)
Definition firstNames (files : list Locator.ZipEntry) : string :=
  String.concat ", "
    (firstn 10
       (List.map
          (fun f => match Locator.path f with Some p => p | None => "" end)
          files)).

Definition notFoundMessage (files : list Locator.ZipEntry) : string :=
  "ZIP 中未找到 " ++ Locator.LEVEL_INIT_NAME
    ++ "。请确认是异星工厂原生存档（ZIP 内应含 xxx/" ++ Locator.LEVEL_INIT_NAME
    ++ "）。当前 ZIP 内前几项：" ++ firstNames files
    ++ (if (10 <? List.length files)%nat then "..." else "").

Definition emptyMessage : string := Locator.LEVEL_INIT_NAME ++ " 为空或读取失败".

(** The [catch] of [parseFactorioSave]. *)
Definition wrapParseError (msg : string) : string :=
  "存档解析失败：" ++ msg ++ "，请确认存档为异星工厂原生 ZIP 存档".

Definition httpStatus (c : StatusCode) : Z :=
  match c with
  | OK => 200
  | BAD_REQUEST => 400
  | NOT_FOUND => 404
  | INTERNAL_SERVER_ERROR => 500
  end.

Section External.

(** The libraries and the engine, taken as they are: the listing
    [unzipper] reads from the bytes of an archive, the header codec
    [parseLevelInitData] of [factorio-save-parser], both with the message
    of the error they raise; the message of the error raised for a path
    that cannot be opened, and of a [TypeError]; and what
    [path.join] and [fs.access] answer for a name that is not one path
    component, which leads outside the listing of the upload directory. *)
Variable unzip : list Z -> string + list Locator.ZipEntry.
Variable parseLevelInitData : string -> string + Analysis.SaveData.
Variable openError : jsstring -> string.
Variable typeErrorMessage : Analysis.error -> string.
Variable accessOutside : jsstring -> option jsstring.

(** [findFileByFilename]: the path when [fs.access] succeeds, [null]
    otherwise; it raises nothing. *)
Definition findFileByFilename (disk : Disk) (filename : jsstring)
    : option jsstring :=
  if isComponent filename then
    match disk with
    | Some entries =>
        if existsb (nameIs filename) entries
        then Some (joinPath uploadDir filename)
        else None
    | None => None
    end
  else accessOutside filename.

(** [unzipper.Open.file] and [unzipper.Open.buffer]. *)
Definition openDirectory (disk : Disk) (source : Source)
    : string + list Locator.ZipEntry :=
  match source with
  | FromPath p =>
      match readStored disk p with
      | Some bytes => unzip bytes
      | None => inl (openError p)
      end
  | FromBuffer bytes => unzip bytes
  end.

Definition parseFactorioSave (disk : Disk) (source : Source)
    : outcome Analysis.SaveData :=
  match openDirectory disk source with
  | inl msg => Raised (wrapParseError msg)
  | inr files =>
      match Locator.findLevelInitInZip files with
      | None => Raised (wrapParseError (notFoundMessage files))
      | Some levelInitEntry =>
          let buf := Locator.buffer levelInitEntry in
          if (String.length buf =? 0)%nat
          then Raised (wrapParseError emptyMessage)
          else
            match parseLevelInitData buf with
            | inl msg => Raised (wrapParseError msg)
            | inr saveData => Returned saveData
            end
      end
  end.

(** [GameSaveService.analyzeGameSave]; its log lines are left out. *)
Definition analyzeGameSave (disk : Disk) (filename : jsstring)
    : ServiceResponse Analysis.FactorioAnalysisResult :=
  match findFileByFilename disk filename with
  | None =>
      failure ("Game save file " ++ quote ++ showName filename ++ quote
               ++ " not found.") NOT_FOUND
  | Some filePath =>
      match parseFactorioSave disk (FromPath filePath) with
      | Raised msg =>
          failure ("Failed to parse game save file: " ++ msg) BAD_REQUEST
      | Returned saveData =>
          match Analysis.analyzeFactorioSave (Some saveData) with
          | Analysis.Throw e =>
              failure ("Failed to analyze game save: " ++ typeErrorMessage e)
                INTERNAL_SERVER_ERROR
          | Analysis.Ok analysisResult =>
              succeed "Game save analyzed successfully" analysisResult
          end
      end
  end.

(** [GameSaveController.analyzeGameSave]: the status sent and the body. *)
Definition analyzeGameSaveHandler (disk : Disk) (filename : jsstring)
    : Z * ServiceResponse Analysis.FactorioAnalysisResult :=
  let serviceResponse := analyzeGameSave disk filename in
  (httpStatus (statusCode serviceResponse), serviceResponse).

End External.

(** The body the upload controller sends when the request holds no file. *)
Definition noFileUploaded : ServiceResponse GameSaveUploadResponse :=
  mkServiceResponse false "No file uploaded" None BAD_REQUEST.

(** [GameSaveController.uploadFile]. *)
Definition uploadFileHandler (env : Env) (file : option UploadedFile) (disk : Disk)
    : (Z * ServiceResponse GameSaveUploadResponse) * Disk :=
  match file with
  | None => ((400%Z, noFileUploaded), disk)
  | Some f =>
      let (serviceResponse, disk') := uploadFile env f disk in
      ((httpStatus (statusCode serviceResponse), serviceResponse), disk')
  end.

End Service.

(* ================================================================= *)
(** * Vocabulary of the statements

    Accessors into the parsed save, the formulas as the specification words
    them, and the concrete inputs the statements are instantiated at. *)

Section LocatorVocabulary.
Import Locator.

Definition normalizedPath (f : ZipEntry) : string :=
  replaceBackslashes (match path f with Some p => p | None => "" end).

End LocatorVocabulary.

Section JsVocabulary.
Import Js.

Definition twoDigits (k : Z) : string :=
  String (digit (k / 10)) (String (digit (k mod 10)) "").

(** The numeral [toFixed2] prints for a finite number, and its value. *)
Definition fixedMagnitude (q : Q) : Q :=
  (inject_Z (hundredths q / 100)
   + inject_Z (hundredths q mod 100) / inject_Z (10 ^ 2))%Q.

Definition fixedValue (q : Q) : Q :=
  if Qle_bool 0 q then fixedMagnitude q else (- fixedMagnitude q)%Q.

(** The result of a few floating-point operations against the exact value
    [y]: each operation of the program rounds to the nearest double, a
    relative error of at most 2^-53, so sums, products and quotients of the
    magnitudes at hand stay within one part in 10^9 (of [1 + |y|], to allow
    for cancellation) of the exact result. *)
Definition closeTo (x y : Q) : Prop :=
  (Qabs (x - y) <= (1 + Qabs y) * (1 # 1000000000))%Q.


End JsVocabulary.

Section AnalysisVocabulary.
Import Js Analysis.

(** The parts of the parsed save. *)
Definition gameOf (saveData : option SaveData) : option Game :=
  match saveData with
  | Some sd => game sd
  | None => None
  end.

Definition firstSurfaceOf (saveData : option SaveData) : option Surface :=
  match saveData with
  | Some sd =>
      match map sd with
      | Some m =>
          match surfaces m with
          | Some (s :: _) => Some s
          | _ => None
          end
      | None => None
      end
  | None => None
  end.

Definition entitiesOf (saveData : option SaveData) : option (list Entity) :=
  match firstSurfaceOf saveData with
  | Some s => entities s
  | None => None
  end.

Definition playerOf (saveData : option SaveData) : option Force :=
  match gameOf saveData with
  | Some g =>
      match forces g with
      | Some fs => player fs
      | None => None
      end
  | None => None
  end.

Definition statsOf (saveData : option SaveData) : option ElectricStats :=
  match playerOf saveData with
  | Some f => electric_network_statistics f
  | None => None
  end.

Definition outputCountsOf (saveData : option SaveData) : option (list (string * Q)) :=
  match playerOf saveData with
  | Some f =>
      match item_production_statistics f with
      | Some s => output_counts s
      | None => None
      end
  | None => None
  end.

Definition technologiesOf (saveData : option SaveData)
    : option (list (string * Technology)) :=
  match playerOf saveData with
  | Some f => technologies f
  | None => None
  end.

Definition productionOf (saveData : option SaveData) : option PowerProduction :=
  match statsOf saveData with
  | Some s => stats_production s
  | None => None
  end.

Definition consumptionOf (saveData : option SaveData) : option PowerConsumption :=
  match statsOf saveData with
  | Some s => stats_consumption s
  | None => None
  end.

Definition inventoryOf (saveData : option SaveData) : option (list (string * Q)) :=
  match playerOf saveData with
  | Some f => items f
  | None => None
  end.

Definition isSome {A : Type} (o : option A) : bool :=
  match o with
  | Some _ => true
  | None => false
  end.

(** Every nested structure full mode reads through is present. *)
Definition nestedPresent (saveData : option SaveData) : bool :=
  isSome (entitiesOf saveData)
  && isSome (playerOf saveData)
  && isSome (technologiesOf saveData)
  && isSome (productionOf saveData)
  && isSome (consumptionOf saveData)
  && isSome (outputCountsOf saveData)
  && isSome (inventoryOf saveData).

(** A full snapshot the statements are instantiated at: five hours of
    play, 40 of 80 technologies researched, steam power with 1096 produced
    against 1000 consumed, twelve nests, three stone furnaces and one
    electric mining drill. *)
Definition demoTechnologies : list (string * Technology) :=
  List.map (fun i => (stringOfNat i, mkTechnology (i <? 40)%nat)) (seq 0 80).

Definition demoEntities : list Entity :=
  (repeat (mkEntity (Some "biter-nest") None) 7
   ++ repeat (mkEntity (Some "spitter-nest") None) 5
   ++ repeat (mkEntity (Some "stone-furnace") None) 3
   ++ [ mkEntity (Some "electric-mining-drill") None;
        mkEntity (Some "small-biter") None;
        mkEntity (Some "iron-ore") (Some 5%Q);
        mkEntity None None ])%list.

Definition demoForce : Force :=
  mkForce (Some demoTechnologies)
    (Some (mkElectricStats
             (Some (mkPowerProduction None None (Some 5%Q) (Some 1096%Q)))
             (Some (mkPowerConsumption (Some 1000%Q)))))
    (Some (mkItemStats (Some [("iron-ore", 100%Q)])))
    (Some [("iron-plate", 10%Q)]).

Definition demoSave : SaveData :=
  mkSaveData (Some "header") None
    (Some (mkGame (Some (mkForces (Some demoForce))) (Some 18000%Q)))
    (Some (mkMapData (Some [mkSurface (Some demoEntities)]) (Some "base")))
    (Some "1.1.0").




Definition elapsedHoursOf (r : FactorioAnalysisResult) : num :=
  Number (gameTimeHour (basic r)).

(** What the header parser alone returns: a name and a version, no game
    state and no map. *)
Definition headerRecord : SaveData :=
  mkSaveData (Some "My Base") (Some (mkFactorioVersion (Some "1.1.110")))
    None None None.

(** A save with a game state and a first surface, and nothing below them. *)
Definition bareSnapshot : SaveData :=
  mkSaveData None None
    (Some (mkGame None None))
    (Some (mkMapData (Some [mkSurface (Some [])]) None))
    None.

(** A full snapshot whose structures are all present and all empty. *)
Definition emptyForce : Force :=
  mkForce (Some [])
    (Some (mkElectricStats (Some (mkPowerProduction None None None None))
             (Some (mkPowerConsumption None))))
    (Some (mkItemStats (Some [])))
    (Some []).

Definition emptySnapshot : SaveData :=
  mkSaveData None None
    (Some (mkGame (Some (mkForces (Some emptyForce))) (Some 0%Q)))
    (Some (mkMapData (Some [mkSurface (Some [])]) None))
    None.


End AnalysisVocabulary.

Section RetentionVocabulary.
Import Text Storage.

Definition mtimeLe (a b : DirEntry) : Prop := (d_mtimeMs a <= d_mtimeMs b)%Q.

(** [e] bears the name of one of the files to remove. *)
Definition removedBy (toRemove : list DirEntry) (e : DirEntry) : bool :=
  existsb (fun f => nameIs (d_name f) e) toRemove.

Definition refusingEnv : Env :=
  mkEnv (fun _ => true) (fun _ => false) (units "id") 0 (fun _ => None).

Definition obligingEnv : Env :=
  mkEnv (fun _ => false) (fun _ => false) (units "id") 0 (fun _ => None).

Definition twoFiles : Disk :=
  Some [ mkDirEntry (units "old.zip") true 1 [];
         mkDirEntry (units "new.zip") true 2 [] ].

Definition threeFiles : Disk :=
  Some [ mkDirEntry (units "b.zip") true 20 [];
         mkDirEntry (units "notes") false 5 [];
         mkDirEntry (units "a.zip") true 10 [];
         mkDirEntry (units "c.zip") true 30 [] ].

End RetentionVocabulary.

Section UploadVocabulary.
Import Text Storage.

(** A five-byte [text/plain] upload against a root holding one file. *)
Definition textUpload : UploadedFile :=
  mkUploadedFile (units "notes.txt") "text/plain" 5 [104; 101; 108; 108; 111]%Z.

Definition oneFile : Disk :=
  Some [mkDirEntry (units "save.zip") true 1 []].

End UploadVocabulary.

Section CleanupVocabulary.
Import Text Storage.

(** The files [pruneOldFilesIfExceed] tries to delete: the oldest surplus of
    the listing sorted by modification time. *)
Definition oldestSurplus (maxCount : Z) (disk : Disk) : list DirEntry :=
  let withStat := sortByMtime (storedFiles disk) in
  sliceTo withStat (Z.of_nat (List.length withStat) - maxCount).

(** The deletion of [f] is not refused. *)
Definition deletable (env : Env) (f : DirEntry) : bool :=
  negb (unlinkFails env (d_name f)).

End CleanupVocabulary.

Section ReportVocabulary.
Import Js Analysis.

(** The tick of the game state. *)
Definition tickOf (saveData : option SaveData) : option Q :=
  match gameOf saveData with
  | Some g => tick g
  | None => None
  end.

(** A full snapshot with the given tick, player force and entities. *)
Definition saveWith (t : option Q) (f : Force) (ents : list Entity) : SaveData :=
  mkSaveData None None
    (Some (mkGame (Some (mkForces (Some f))) t))
    (Some (mkMapData (Some [mkSurface (Some ents)]) None))
    None.

(** A force that produces 40 and consumes a quarter of a unit. *)
Definition idleForce : Force :=
  mkForce (Some [])
    (Some (mkElectricStats (Some (mkPowerProduction None None None (Some 40%Q)))
             (Some (mkPowerConsumption (Some (1 # 4)%Q)))))
    (Some (mkItemStats (Some []))) (Some []).

(** The alert raised for a core resource. *)
Definition depletionAlert (res : string) : string :=
  resourceMap res ++ "剩余量不足已开采的10%，存在枯竭风险".

(** The suggestion made for a low technology rate. *)
Definition lowRateSuggestion (rate : string) : string :=
  "科技解锁率仅" ++ rate ++ "，建议优化科技包生产线，增加研究中心数量".

End ReportVocabulary.

Section StoredNameVocabulary.
Import Text Storage.

(** One deletion of three is refused: the file stays, the other goes. *)
Definition stubbornEnv : Env :=
  mkEnv (fun n => jsEqb n (units "a.zip")) (fun _ => false) (units "id") 0
    (fun _ => None).

(** The name [saveFileAsync] stores an upload under. *)
Definition generatedName (env : Env) (file : UploadedFile) : jsstring :=
  (randomUUID env
   ++ match extname (decodeFileName (originalname file)) with
      | [] => units ".zip"
      | e => e
      end)%list.

(** A three-byte upload of an allowed type. *)
Definition zipUpload : UploadedFile :=
  mkUploadedFile (units "my base.zip") "application/zip" 3 [80; 75; 3]%Z.

(** The disk fills up after the first byte of any write. *)
Definition fullDiskEnv : Env :=
  mkEnv (fun _ => false) (fun _ => true) (units "id") 0 (fun _ => Some 1%nat).

(** Every unit is an ASCII character. *)
Definition isAscii (s : jsstring) : Prop := Forall (fun c => (0 <= c < 128)%Z) s.

End StoredNameVocabulary.

Section CodecVocabulary.
Import Text Storage.
Local Open Scope Z_scope.

(** The start of the scanned component once the scan has stopped, the
    position reached before. *)
Definition scanLow (st : ExtScan) (k : Z) : Z :=
  if stopped st then startPart st else k.

(** What the scan of [extname] maintains, having read the units of [w] from
    position [k] on: the recorded end and dot lie in a stretch without
    separator. *)
Definition scanInv (w : jsstring) (k : Z) (st : ExtScan) : Prop :=
  (matchedSlash st = true -> endIndex st = -1)%Z
  /\ (endIndex st = -1 -> startDot st = -1)%Z
  /\ (forall j, scanLow st k <= j < endIndex st ->
        nth (Z.to_nat j) w 0 <> 47)%Z
  /\ (startDot st <> -1 -> scanLow st k <= startDot st)%Z
  /\ (k <= scanLow st k)%Z
  /\ (endIndex st <> -1 -> scanLow st k <= endIndex st)%Z
  /\ (startDot st <> -1 ->
      nth (Z.to_nat (startDot st)) w 0 = 46 /\ startDot st < endIndex st)%Z.

(** The scan of [extname] over a suffix [p] of the path, whose units sit at
    the positions from [off] on. *)
Definition scanFrom (off : nat) (p : jsstring) : ExtScan :=
  fold_right (fun ic st => extScanStep st ic) extScanStart
    (combine (List.map Z.of_nat (seq off (List.length p))) p).

(** A scalar value: a code point outside the surrogate range. *)
Definition isScalar (cp : Z) : Prop :=
  0 <= cp <= 0x10FFFF /\ ~ (0xD800 <= cp <= 0xDFFF).

(** No lone surrogate: every high surrogate is followed by a low one, and
    every low surrogate follows a high one. *)
Fixpoint wellFormed (s : jsstring) : bool :=
  match s with
  | [] => true
  | c :: r =>
      if isHighSurrogate c then
        match r with
        | d :: r' => isLowSurrogate d && wellFormed r'
        | [] => false
        end
      else negb (isLowSurrogate c) && wellFormed r
  end.

(** The units of a JavaScript string are 16-bit. *)
Definition codeUnits (s : jsstring) : Prop :=
  Forall (fun c => 0 <= c <= 0xFFFF) s.

(** What the UTF-8 decoder maintains while a sequence is pending: the bits
    read so far and the bounds of the next byte leave only scalar values to
    complete it. *)
Definition pendingScalar (st : Utf8State) : Prop :=
  let acc := codePoint st in
  bytesNeeded st = 0
  \/ (bytesNeeded st = 1 /\ 0 <= acc <= 0x43FF /\ ~ (0x360 <= acc <= 0x37F))
  \/ (bytesNeeded st = 2
      /\ 0x80 <= lowerBoundary st /\ upperBoundary st <= 0xBF
      /\ ((0 <= acc <= 15 /\ (acc = 13 -> upperBoundary st <= 0x9F))
          \/ 16 <= acc <= 0x10F))
  \/ (bytesNeeded st = 3
      /\ 0x80 <= lowerBoundary st /\ upperBoundary st <= 0xBF
      /\ 0 <= acc <= 4
      /\ (acc = 0 -> 0x90 <= lowerBoundary st)
      /\ (acc = 4 -> upperBoundary st <= 0x8F)).

(** Well-formed 16-bit text. *)
Definition goodUnits (o : jsstring) : Prop := wellFormed o = true /\ codeUnits o.

(** The unit a pending sequence still owes to the output. *)
Definition pendingUnit (st : Utf8State) : nat :=
  if bytesNeeded st =? 0 then 0%nat else 1%nat.

(** A pending sequence that can only end in one unit. *)
Definition shortPending (st : Utf8State) : Prop :=
  bytesNeeded st = 1 -> 0 <= codePoint st < 1024.

(** Text made of ASCII units and replacement characters. *)
Definition flat (o : jsstring) : Prop :=
  Forall (fun u => u < 0x80 \/ u = 0xFFFD) o.

End CodecVocabulary.

Section PipelineVocabulary.
Import Text Storage Service.

(** Stand-ins for the libraries: an archive of one header entry unless the
    bytes are empty, and a codec that answers the demonstration save. *)
Definition demoUnzip (bytes : list Z) : string + list Locator.ZipEntry :=
  match bytes with
  | [] => inl "unexpected end of file"
  | _ => inr [Locator.mkEntry (Some "base/level-init.dat") "header"]
  end.

Definition demoCodec (buf : string) : string + Analysis.SaveData :=
  inr demoSave.

Definition demoOpenError (p : jsstring) : string :=
  "ENOENT: no such file or directory".

Definition demoTypeError (e : Analysis.error) : string :=
  "Cannot read properties of undefined".

Definition demoAccess (n : jsstring) : option jsstring := None.

(** The listing of a native save: the header sits in a folder, written
    with a backslash, before another entry of the same name. *)
Definition nativeListing : list Locator.ZipEntry :=
  [ Locator.mkEntry (Some "base/info.json") "{}";
    Locator.mkEntry
      (Some (String "b" (String "a" (String "s" (String "e"
               (String backslash "level-init.dat")))))) "header";
    Locator.mkEntry (Some "base/level-init.dat") "other" ].

End PipelineVocabulary.

(* ================================================================= *)
(** * Properties *)

(** ** Strings *)

Lemma substring_all (s : string) : substring 0 (String.length s) s = s.
Proof. induction s as [|c s IH]; simpl; [reflexivity | now rewrite IH]. Qed.

Lemma substring_skip (pre s : string) (m : nat) :
  substring (String.length pre) m (pre ++ s) = substring 0 m s.
Proof. induction pre as [|c pre IH]; simpl; [reflexivity | exact IH]. Qed.

Lemma length_append (a b : string) :
  String.length (a ++ b) = (String.length a + String.length b)%nat.
Proof. induction a as [|c a IH]; simpl; [reflexivity | now rewrite IH]. Qed.

Lemma substring_split (s : string) (k : nat) :
  (k <= String.length s)%nat ->
  s = substring 0 k s ++ substring k (String.length s - k) s.
Proof.
  revert k; induction s as [|c s IH]; intros k Hk; simpl in *.
  - destruct k; [reflexivity | lia].
  - destruct k as [|k]; simpl.
    + now rewrite substring_all.
    + f_equal. apply IH. lia.
Qed.

(** [endsWith] is the suffix relation. *)
Lemma endsWith_iff (s suffix : string) :
  endsWith s suffix = true <-> exists pre, s = pre ++ suffix.
Proof.
  unfold endsWith. split.
  - destruct (Nat.leb_spec (String.length suffix) (String.length s)) as [Hle|Hlt];
      [|discriminate].
    intros H. apply String.eqb_eq in H.
    exists (substring 0 (String.length s - String.length suffix) s).
    pose proof (substring_split s (String.length s - String.length suffix)) as E.
    replace (String.length s - (String.length s - String.length suffix))%nat
      with (String.length suffix) in E by lia.
    rewrite H in E. apply E. lia.
  - intros [pre ->]. rewrite length_append.
    destruct (Nat.leb_spec (String.length suffix)
                (String.length pre + String.length suffix)) as [_|Hlt]; [|lia].
    replace (String.length pre + String.length suffix - String.length suffix)%nat
      with (String.length pre) by lia.
    rewrite substring_skip, substring_all. apply String.eqb_refl.
Qed.

(** ** Archive locator *)

Section LocatorFacts.
Import Locator.

(** The second disjunct of the predicate adds nothing: an entry is accepted
    exactly when its normalized path ends with the basename. *)
Lemma isLevelInit_iff (f : ZipEntry) :
  isLevelInit f = true <-> exists pre, normalizedPath f = pre ++ LEVEL_INIT_NAME.
Proof.
  unfold isLevelInit. fold (normalizedPath f).
  rewrite orb_true_iff, endsWith_iff, String.eqb_eq. split.
  - intros [H | H]; [exact H | exists ""; exact H].
  - intros H; left; exact H.
Qed.

(** Every entry the specification accepts is accepted by the code. *)
Lemma specMatches_isLevelInit (f : ZipEntry) :
  specMatches LEVEL_INIT_NAME f -> isLevelInit f = true.
Proof.
  unfold specMatches. cbv zeta. fold (normalizedPath f). intros H.
  apply isLevelInit_iff. destruct H as [H | [dir H]].
  - exists "". exact H.
  - exists (dir ++ "/"). rewrite H. clear H.
    induction dir as [|c dir IH]; [reflexivity|].
    change (String c (dir ++ "/" ++ LEVEL_INIT_NAME)
            = String c ((dir ++ "/") ++ LEVEL_INIT_NAME)).
    now rewrite IH.
Qed.

(** [find] returns the first accepted entry in list order. *)
Lemma findLevelInitInZip_first (files : list ZipEntry) (f : ZipEntry) :
  findLevelInitInZip files = Some f <->
  exists before after,
    files = (before ++ f :: after)%list
    /\ isLevelInit f = true
    /\ Forall (fun x => isLevelInit x = false) before.
Proof.
  unfold findLevelInitInZip. split.
  - induction files as [|x files IH]; simpl; [discriminate|].
    destruct (isLevelInit x) eqn:Hx.
    + intros [= ->]. exists [], files. repeat split; [exact Hx | constructor].
    + intros H. destruct (IH H) as (b & a & -> & Hf & Hb).
      exists (x :: b), a. repeat split; [exact Hf | constructor; assumption].
  - intros (b & a & -> & Hf & Hb). induction Hb as [|x b Hx Hb IH]; simpl.
    + now rewrite Hf.
    + now rewrite Hx.
Qed.

Lemma findLevelInitInZip_none (files : list ZipEntry) :
  findLevelInitInZip files = None <->
  Forall (fun x => isLevelInit x = false) files.
Proof.
  unfold findLevelInitInZip. induction files as [|x files IH]; simpl.
  - split; [constructor | reflexivity].
  - destruct (isLevelInit x) eqn:Hx.
    + split; [discriminate | intros H; inversion H; congruence].
    + rewrite IH. split; [now constructor | intros H; now inversion H].
Qed.

(** The entries the specification lists. *)
Lemma isLevelInit_examples :
  isLevelInit (mkEntry (Some "level-init.dat") "") = true
  /\ isLevelInit (mkEntry (Some "x/level-init.dat") "") = true
  /\ isLevelInit (mkEntry (Some "a/b/level-init.dat") "") = true
  /\ isLevelInit (mkEntry (Some (String backslash "level-init.dat")) "") = true
  /\ isLevelInit (mkEntry (Some "level-init.dat.bak") "") = false
  /\ isLevelInit (mkEntry None "") = false.
Proof. repeat split; reflexivity. Qed.

(** C1 (failing input). The listing holds one entry, [my-level-init.dat]:
    its path ends with the characters of the basename but has no separator
    before them, so it is neither the basename nor a path ending with
    ["/level-init.dat"]; [findLevelInitInZip] returns it all the same. *)
Theorem findLevelInitInZip_accepts_bare_suffix :
  let f := mkEntry (Some "my-level-init.dat") "data" in
  findLevelInitInZip [f] = Some f
  /\ ~ specMatches LEVEL_INIT_NAME f.
Proof.
  split; [reflexivity|].
  unfold specMatches; simpl. intros [H | [dir H]]; [discriminate|].
  destruct dir as [|a [|b [|c dir]]]; simpl in H; try discriminate.
  apply (f_equal String.length) in H. simpl in H.
  rewrite length_append in H. simpl in H. lia.
Qed.

End LocatorFacts.

(** ** JavaScript numbers: reading back what [toFixed(2)] printed *)

Section JsFacts.
Import Js.

Lemma stringOfZ_nonneg (z : Z) :
  (0 <= z)%Z ->
  exists d, d <> Decimal.Nil
            /\ stringOfZ z = NilEmpty.string_of_uint d
            /\ Z.of_uint d = z.
Proof.
  intros Hz. unfold stringOfZ. destruct z as [|p|p]; [| |lia].
  - exists (Decimal.D0 Decimal.Nil). repeat split. discriminate.
  - exists (Pos.to_uint p). split; [apply Unsigned.to_uint_nonnil|]. split.
    + simpl. pose proof (Unsigned.to_uint_nonnil p) as Hn.
      destruct (Pos.to_uint p); [contradiction | reflexivity ..].
    + exact (DecimalZ.of_to (Z.pos p)).
Qed.

Lemma splitAtDot_digits (d : Decimal.uint) (rest : string) :
  splitAtDot (NilEmpty.string_of_uint d ++ String "." rest)
  = (NilEmpty.string_of_uint d, Some rest).
Proof. induction d; simpl; try rewrite IHd; reflexivity. Qed.

Lemma digitsValue_digits (d : Decimal.uint) :
  digitsValue (NilEmpty.string_of_uint d) = Some (Z.of_uint d).
Proof. unfold digitsValue. now rewrite NilEmpty.usu. Qed.

Lemma digitsValue_twoDigits (k : Z) :
  (0 <= k < 100)%Z -> digitsValue (twoDigits k) = Some k.
Proof.
  intros Hk.
  assert (Hall : forallb
            (fun n => match digitsValue (twoDigits (Z.of_nat n)) with
                      | Some v => Z.eqb v (Z.of_nat n)
                      | None => false
                      end) (seq 0 100) = true) by (vm_compute; reflexivity).
  rewrite forallb_forall in Hall.
  specialize (Hall (Z.to_nat k)). rewrite Z2Nat.id in Hall by lia.
  destruct (digitsValue (twoDigits k)) as [v|].
  - f_equal. apply Z.eqb_eq. apply Hall. apply in_seq. lia.
  - exfalso. assert (false = true) by (apply Hall; apply in_seq; lia).
    discriminate.
Qed.

Lemma hundredths_nonneg (q : Q) : (0 <= hundredths q)%Z.
Proof.
  unfold hundredths. pose proof (Qabs_nonneg q) as Ha.
  assert (H : (Qfloor 0 <= Qfloor (Qabs q * 100 + (1 # 2)))%Z)
    by (apply Qfloor_resp_le; lra).
  exact H.
Qed.

Lemma fixedMagnitude_eq (q : Q) :
  (fixedMagnitude q == inject_Z (hundredths q) / 100)%Q.
Proof.
  unfold fixedMagnitude. set (n := hundredths q).
  rewrite (Z.div_mod n 100) at 3 by lia.
  rewrite inject_Z_plus, inject_Z_mult.
  change (inject_Z (10 ^ 2)) with 100%Q. change (inject_Z 100) with 100%Q.
  field.
Qed.

Lemma toFixed2_unsigned (q : Q) :
  exists d, d <> Decimal.Nil
    /\ Z.of_uint d = (hundredths q / 100)%Z
    /\ toFixed2 (Fin q)
       = (if negb (Qle_bool 0 q) then "-" else "")
           ++ NilEmpty.string_of_uint d
           ++ String "." (twoDigits (hundredths q mod 100)).
Proof.
  pose proof (hundredths_nonneg q) as Hn.
  destruct (stringOfZ_nonneg (hundredths q / 100)) as (d & Hd & Hs & Hv).
  { apply Z.div_pos; lia. }
  exists d. repeat split; [exact Hd | exact Hv |].
  unfold toFixed2, twoDigits. rewrite Hs.
  rewrite <- (Z.mod_mod_divide (hundredths q) 100 10)
    by (exists 10%Z; reflexivity).
  reflexivity.
Qed.

Lemma parseUnsigned_fixed (d : Decimal.uint) (k : Z) :
  d <> Decimal.Nil -> (0 <= k < 100)%Z ->
  parseUnsigned (NilEmpty.string_of_uint d ++ String "." (twoDigits k))
  = Fin (inject_Z (Z.of_uint d) + inject_Z k / inject_Z (10 ^ 2))%Q.
Proof.
  intros Hd Hk. unfold parseUnsigned.
  rewrite splitAtDot_digits, digitsValue_digits, digitsValue_twoDigits by exact Hk.
  unfold twoDigits at 1. cbn [String.eqb]. rewrite andb_false_r. reflexivity.
Qed.

Lemma Number_digits (d : Decimal.uint) (rest : string) :
  d <> Decimal.Nil ->
  Number (NilEmpty.string_of_uint d ++ String "." rest)
  = parseUnsigned (NilEmpty.string_of_uint d ++ String "." rest).
Proof. intros Hd. destruct d; [contradiction | reflexivity ..]. Qed.

(** [Number(x.toFixed(2))] is [x] rounded to hundredths. *)
Lemma Number_toFixed2 (q : Q) :
  Number (toFixed2 (Fin q)) = Fin (fixedValue q).
Proof.
  destruct (toFixed2_unsigned q) as (d & Hd & Hv & ->).
  pose proof (hundredths_nonneg q) as Hn.
  assert (Hk : (0 <= hundredths q mod 100 < 100)%Z) by (apply Z.mod_pos_bound; lia).
  unfold fixedValue, fixedMagnitude. rewrite <- Hv.
  destruct (Qle_bool 0 q); cbn [negb].
  - change ("" ++ ?s) with s. rewrite Number_digits, parseUnsigned_fixed; auto.
  - change ("-" ++ ?s) with (String "-" s).
    assert (Hneg : forall s, Number (String "-" (NilEmpty.string_of_uint d ++ s))
                             = neg (parseUnsigned (NilEmpty.string_of_uint d ++ s))).
    { intros s. destruct d; [contradiction | reflexivity ..]. }
    rewrite Hneg, parseUnsigned_fixed; auto.
Qed.

(** The printed value is the number rounded to hundredths. *)
Lemma fixedValue_close (q : Q) : (Qabs (fixedValue q - q) <= 1 # 200)%Q.
Proof.
  unfold fixedValue. pose proof (fixedMagnitude_eq q) as Hm.
  assert (Hlo : (inject_Z (hundredths q) <= Qabs q * 100 + (1 # 2))%Q)
    by apply Qfloor_le.
  assert (Hhi : (Qabs q * 100 + (1 # 2) < inject_Z (hundredths q + 1))%Q)
    by apply Qlt_floor.
  rewrite inject_Z_plus in Hhi. change (inject_Z 1) with 1%Q in Hhi.
  set (n := inject_Z (hundredths q)) in *.
  assert (Hn : (fixedMagnitude q * 100 == n)%Q) by (rewrite Hm; field).
  apply Qabs_Qle_condition.
  destruct (Qle_bool 0 q) eqn:Hs.
  - apply Qle_bool_iff in Hs. rewrite (Qabs_pos q Hs) in Hlo, Hhi. split; lra.
  - assert (Hneg : (q <= 0)%Q).
    { destruct (Qlt_le_dec 0 q) as [Hp|Hp]; [|exact Hp].
      apply Qlt_le_weak, Qle_bool_iff in Hp. congruence. }
    rewrite (Qabs_neg q Hneg) in Hlo, Hhi. split; lra.
Qed.

Lemma Number_toFixed2_other :
  Number (toFixed2 NaN) = NaN
  /\ Number (toFixed2 PInf) = PInf
  /\ Number (toFixed2 NInf) = NInf.
Proof. repeat split; reflexivity. Qed.

Example toFixed2_examples :
  toFixed2 (Fin (1096 # 1000)) = "1.10"
  /\ toFixed2 (Fin 5) = "5.00"
  /\ toFixed2 (Fin (5 # 1000)) = "0.01"
  /\ toFixed2 (Fin (- (12305 # 1000))) = "-12.31"
  /\ toFixed2 (Fin (- (1 # 1000))) = "-0.00"
  /\ toFixed2 (div (ofZ 0) (ofZ 0)) = "NaN"
  /\ toFixed2 (div (ofZ 3) (ofZ 0)) = "Infinity".
Proof. repeat split; reflexivity. Qed.

Example round_examples :
  roundQ (5 # 2) = 3%Z /\ roundQ (- (5 # 2)) = (-2)%Z
  /\ roundQ (3 # 10) = 0%Z /\ roundQ (1 # 2) = 1%Z.
Proof. repeat split; reflexivity. Qed.

Lemma closeTo_refl (x : Q) : closeTo x x.
Proof.
  unfold closeTo.
  assert (H : (Qabs (x - x) == 0)%Q).
  { assert (E : (x - x == 0)%Q) by ring. rewrite E. reflexivity. }
  rewrite H. pose proof (Qabs_nonneg x).
  apply Qmult_le_0_compat; [lra | discriminate].
Qed.



End JsFacts.

(** ** Analysis engine *)

Section AnalysisFacts.
Import Js Analysis.

(** *** The mode decision *)

Lemma snapshot_None_iff (saveData : option SaveData) :
  snapshot saveData = None <->
  gameOf saveData = None \/ firstSurfaceOf saveData = None.
Proof.
  unfold snapshot, gameOf, firstSurfaceOf.
  destruct saveData as [sd|]; [|intuition].
  destruct (game sd), (map sd) as [m|]; try (intuition congruence).
  destruct (surfaces m) as [[|s l]|]; intuition congruence.
Qed.

Lemma snapshot_Some (saveData : option SaveData) sd g m s :
  snapshot saveData = Some (sd, g, m, s) ->
  saveData = Some sd /\ gameOf saveData = Some g /\ map sd = Some m
  /\ firstSurfaceOf saveData = Some s.
Proof.
  unfold snapshot, gameOf, firstSurfaceOf.
  destruct saveData as [sd'|]; [|discriminate].
  destruct (game sd') eqn:Eg, (map sd') as [m'|] eqn:Em; try discriminate.
  destruct (surfaces m') as [[|s' l]|] eqn:Es; try discriminate.
  intros [= <- <- <- <-]. rewrite Em. auto.
Qed.

(** A report marked as full comes from [fullAnalysis]. *)
Lemma analyze_full_inv (saveData : option SaveData) (r : FactorioAnalysisResult) :
  analyzeFactorioSave saveData = Ok r ->
  fullAnalysisAvailable r = true ->
  exists sd g m s,
    snapshot saveData = Some (sd, g, m, s) /\ fullAnalysis sd g m s = Ok r.
Proof.
  unfold analyzeFactorioSave.
  destruct (snapshot saveData) as [[[[sd g] m] s]|].
  - intros H _. now exists sd, g, m, s.
  - intros [= <-]. discriminate.
Qed.

(** Unfolds a successful run of [fullAnalysis] into the structures it read
    and the report it built. *)
Ltac invert_full H :=
  unfold fullAnalysis in H;
  repeat
    match type of H with
    | bind (deref ?o) _ = Ok _ =>
        let E := fresh "E" in
        destruct o eqn:E; cbn [deref bind] in H; [|discriminate H]
    end;
  injection H as <-.

(** The report of a full run is marked as full. *)
Lemma fullAnalysis_available sd g m s r :
  fullAnalysis sd g m s = Ok r -> fullAnalysisAvailable r = true.
Proof. intros H. invert_full H. reflexivity. Qed.

(** *** Degraded mode *)

(** C5. Without a game state or without a first map surface, also for an
    absent or empty header record, [analyzeFactorioSave] raises nothing and
    returns the header-only report: not marked as full, the name and the
    version of the header or their sentinels, the time sentinel, the five
    other dimensions zeroed or empty, and exactly one message, in the
    [suggest] bucket: the note that only the header was parsed and that the
    analysis of all dimensions needs a complete [level.dat]. *)
Theorem analyze_header_only (saveData : option SaveData) :
  gameOf saveData = None \/ firstSurfaceOf saveData = None ->
  let header := match saveData with Some sd => sd | None => emptySaveData end in
  exists r,
    analyzeFactorioSave saveData = Ok r
    /\ fullAnalysisAvailable r = false
    /\ saveName (basic r)
       = match name header with Some n => n | None => "未命名基地" end
    /\ gameVersion (basic r)
       = match factorioVersion header with
         | Some v => match asString v with Some s => s | None => "未知版本" end
         | None => "未知版本"
         end
    /\ gameTimeHour (basic r) = "—"
    /\ develop r = mkDevelop Early (ofZ 0) (mkTechStatus 0 0 "0.00%") Thermal
    /\ resource r = mkResource [] [] [] []
    /\ production r = mkProduction [] "—" []
    /\ power r = mkPower 0 0 "—" Sufficient
    /\ enemy r = mkEnemy 0 0 Low []
    /\ urgent (optimizeSuggestions r) = []
    /\ important (optimizeSuggestions r) = []
    /\ suggest (optimizeSuggestions r)
       = ["当前仅解析了存档头信息；全维度分析（资源/电力/敌人等）需要完整 level.dat 解析支持，暂无可用库。"].
Proof.
  intros H header. apply snapshot_None_iff in H.
  unfold analyzeFactorioSave. rewrite H. fold header.
  eexists. split; [reflexivity|].
  cbn. destruct (name header), (factorioVersion header) as [[[v|]]|];
    repeat split; reflexivity.
Qed.

Lemma analyze_header_only_witness :
  (gameOf (Some headerRecord) = None \/ firstSurfaceOf (Some headerRecord) = None)
  /\ exists r,
       analyzeFactorioSave (Some headerRecord) = Ok r
       /\ fullAnalysisAvailable r = false
       /\ saveName (basic r) = "My Base"
       /\ gameVersion (basic r) = "1.1.110"
       /\ gameTimeHour (basic r) = "—"
       /\ urgent (optimizeSuggestions r) = []
       /\ important (optimizeSuggestions r) = []
       /\ suggest (optimizeSuggestions r)
          = ["当前仅解析了存档头信息；全维度分析（资源/电力/敌人等）需要完整 level.dat 解析支持，暂无可用库。"].
Proof.
  split; [left; reflexivity|].
  destruct (analyze_header_only (Some headerRecord) (or_introl eq_refl))
    as (r & H1 & H2 & H3 & H4 & H5 & _ & _ & _ & _ & _ & H6 & H7 & H8).
  exists r. repeat split; assumption.
Defined.

(** The same report for no record at all: every field is a sentinel. *)
Example analyze_absent_record :
  analyzeFactorioSave None = Ok (buildHeaderOnlyAnalysis emptySaveData)
  /\ basic (buildHeaderOnlyAnalysis emptySaveData)
     = mkBasic "未命名基地" "—" "未知版本".
Proof. split; reflexivity. Qed.

(** *** Threat *)

(** C7. In full mode the threat level is a function of the number of nests
    among the entities of the first surface: none gives low, 1 to 9 medium,
    10 to 29 high, 30 and more critical; the alert list is non-empty exactly
    at high and critical. *)
Theorem threat_level_by_nest_count
    (saveData : option SaveData) (r : FactorioAnalysisResult) :
  analyzeFactorioSave saveData = Ok r ->
  fullAnalysisAvailable r = true ->
  let n := nestCount (enemy r) in
  let level := threatLevel (enemy r) in
  (exists ents, entitiesOf saveData = Some ents
                /\ n = List.length (filter isNest ents))
  /\ (n = 0 -> level = Low)%nat
  /\ (1 <= n <= 9 -> level = Medium)%nat
  /\ (10 <= n <= 29 -> level = High)%nat
  /\ (30 <= n -> level = Critical)%nat
  /\ (threatAlert (enemy r) <> [] <-> level = High \/ level = Critical).
Proof.
  intros H Hfull.
  destruct (analyze_full_inv _ _ H Hfull) as (sd & g & m & s & Hs & Hr).
  apply snapshot_Some in Hs. destruct Hs as (_ & _ & _ & Hs).
  invert_full Hr. cbn [enemy nestCount threatLevel threatAlert].
  split.
  { exists l. split; [|reflexivity]. unfold entitiesOf. now rewrite Hs. }
  set (n := List.length (filter isNest l)).
  unfold threatLevelOf.
  destruct (Nat.eqb_spec n 0) as [H0|H0];
    [|destruct (Nat.ltb_spec n 10) as [H10|H10];
      [|destruct (Nat.ltb_spec n 30) as [H30|H30]]];
    repeat split; intros; try lia; try reflexivity; try discriminate;
    try tauto;
    try (match goal with H : _ \/ _ |- _ => destruct H; discriminate end).
Qed.

(** The boundary counts of the specification. *)
Lemma threatLevelOf_boundaries :
  threatLevelOf 0 = Low /\ threatLevelOf 9 = Medium
  /\ threatLevelOf 10 = High /\ threatLevelOf 29 = High
  /\ threatLevelOf 30 = Critical.
Proof. repeat split; reflexivity. Qed.

Lemma threat_level_by_nest_count_witness :
  exists r,
    analyzeFactorioSave (Some demoSave) = Ok r
    /\ fullAnalysisAvailable r = true
    /\ nestCount (enemy r) = 12%nat
    /\ (10 <= nestCount (enemy r) <= 29 -> threatLevel (enemy r) = High)%nat
    /\ (threatAlert (enemy r) <> []
        <-> threatLevel (enemy r) = High \/ threatLevel (enemy r) = Critical).
Proof.
  eexists. split; [vm_compute; reflexivity|].
  split; [reflexivity|]. split; [reflexivity|].
  match goal with
  | |- context [nestCount (enemy ?r)] =>
      pose proof (threat_level_by_nest_count (Some demoSave) r
                    ltac:(vm_compute; reflexivity) eq_refl) as H
  end.
  cbv zeta in H. destruct H as (_ & _ & _ & H3 & _ & H5).
  split; [exact H3 | exact H5].
Defined.

(** *** Production efficiency *)

(** C10. In full mode the efficiency rate divides by the number of furnaces
    and mining drills only when there is one: with none the rate is the
    text ["100%"]; otherwise it is a percentage printed with two decimals,
    of a number between 0 and 100 that is, up to the rounding of the
    program's division and multiplication, the share of steel furnaces and
    electric drills. *)
Theorem efficiency_rate_guarded
    (saveData : option SaveData) (r : FactorioAnalysisResult) :
  analyzeFactorioSave saveData = Ok r ->
  fullAnalysisAvailable r = true ->
  exists ents,
    entitiesOf saveData = Some ents
    /\ let stone := countNamed "stone-furnace" ents in
       let steel := countNamed "steel-furnace" ents in
       let electric := countNamed "electric-mining-drill" ents in
       let burner := countNamed "burner-mining-drill" ents in
       let totalMachine := (stone + steel + (electric + burner))%nat in
       let totalEffective := (steel + electric)%nat in
       (totalMachine = 0%nat -> efficiencyRate (production r) = "100%")
       /\ ((0 < totalMachine)%nat ->
           exists v,
             efficiencyRate (production r) = toFixed2 (Fin v) ++ "%"
             /\ closeTo v (inject_Z (Z.of_nat totalEffective)
                           / inject_Z (Z.of_nat totalMachine) * 100)
             /\ (0 <= v <= 100)%Q).
Proof.
  intros H Hfull.
  destruct (analyze_full_inv _ _ H Hfull) as (sd & g & m & s & Hs & Hr).
  apply snapshot_Some in Hs. destruct Hs as (_ & _ & _ & Hs).
  invert_full Hr. cbn [production efficiencyRate].
  exists l. split; [unfold entitiesOf; now rewrite Hs|].
  cbv zeta. unfold efficiencyRateOf.
  set (total := (countNamed "stone-furnace" l + countNamed "steel-furnace" l
                 + (countNamed "electric-mining-drill" l
                    + countNamed "burner-mining-drill" l))%nat).
  set (eff := (countNamed "steel-furnace" l
               + countNamed "electric-mining-drill" l)%nat).
  split; intros Ht.
  - rewrite Ht. reflexivity.
  - destruct (Nat.ltb_spec 0 total) as [_|Hn]; [|lia].
    unfold div, mul, ofNat, ofZ.
    assert (Hz : Qeq_bool (inject_Z (Z.of_nat total)) 0 = false).
    { destruct (Qeq_bool (inject_Z (Z.of_nat total)) 0) eqn:Hq; [|reflexivity].
      apply Qeq_bool_eq in Hq. unfold Qeq in Hq. simpl in Hq. lia. }
    rewrite Hz.
    exists (inject_Z (Z.of_nat eff) / inject_Z (Z.of_nat total) * inject_Z 100)%Q.
    split; [reflexivity|]. split; [apply closeTo_refl|].
    assert (Hle : (eff <= total)%nat) by (unfold eff, total; lia).
    assert (Ht' : (0 < inject_Z (Z.of_nat total))%Q).
    { unfold Qlt. simpl. lia. }
    assert (He0 : (0 <= inject_Z (Z.of_nat eff))%Q).
    { unfold Qle. simpl. lia. }
    assert (Het : (inject_Z (Z.of_nat eff) <= inject_Z (Z.of_nat total))%Q).
    { unfold Qle. simpl. lia. }
    set (qe := inject_Z (Z.of_nat eff)) in *.
    set (qt := inject_Z (Z.of_nat total)) in *.
    change (inject_Z 100) with 100%Q.
    assert (Hq0 : (0 <= qe / qt)%Q).
    { apply Qle_shift_div_l; [exact Ht'|]. lra. }
    assert (Hq1 : (qe / qt <= 1)%Q).
    { apply Qle_shift_div_r; [exact Ht'|]. lra. }
    split; lra.
Qed.

Lemma efficiency_rate_guarded_witness :
  (exists r,
     analyzeFactorioSave (Some emptySnapshot) = Ok r
     /\ fullAnalysisAvailable r = true
     /\ entitiesOf (Some emptySnapshot) = Some []
     /\ efficiencyRate (production r) = "100%")
  /\ (exists r v,
        analyzeFactorioSave (Some demoSave) = Ok r
        /\ fullAnalysisAvailable r = true
        /\ efficiencyRate (production r) = toFixed2 (Fin v) ++ "%"
        /\ closeTo v (inject_Z 1 / inject_Z 4 * 100)).
Proof.
  split.
  - eexists. split; [vm_compute; reflexivity|]. split; [reflexivity|].
    split; [reflexivity|].
    match goal with
    | |- efficiencyRate (production ?r) = _ =>
        destruct (efficiency_rate_guarded (Some emptySnapshot) r
                    ltac:(vm_compute; reflexivity) eq_refl) as (ents & He & H & _)
    end.
    injection He as <-. apply H. reflexivity.
  - destruct (analyzeFactorioSave (Some demoSave)) as [r|e] eqn:Hr;
      [|vm_compute in Hr; discriminate Hr].
    assert (Hfull : fullAnalysisAvailable r = true)
      by (vm_compute in Hr; injection Hr as <-; reflexivity).
    destruct (efficiency_rate_guarded (Some demoSave) r Hr Hfull)
      as (ents & He & _ & H).
    injection He as <-.
    destruct (H ltac:(vm_compute; lia)) as (v & Hv & Hclose & _).
    exists r, v. repeat split; assumption.
Defined.

(** *** Development score *)





(** A branch where a structure is missing: the run raises and the
    presence test is false. *)
Ltac missing_structure :=
  rewrite ?andb_false_r, ?andb_false_l;
  repeat split; intros;
  repeat match goal with
         | H : exists _, _ |- _ => destruct H
         | H : _ /\ _ |- _ => destruct H
         end;
  try discriminate; try reflexivity.

(** *** Totality of full mode *)

(** C4 (as stated, refuted). The save has a game state and a first map
    surface, so the mode decision chooses full mode; [forces] is missing and
    reading [gameData.forces.player] raises. *)
Lemma full_mode_raises_counterexample :
  gameOf (Some bareSnapshot) <> None
  /\ firstSurfaceOf (Some bareSnapshot) <> None
  /\ analyzeFactorioSave (Some bareSnapshot) = Throw TypeError.
Proof. repeat split; try discriminate. Qed.

(** C4 (amended). In full mode [analyzeFactorioSave] returns a report
    exactly when the structures it reads through are present: the entities
    of the first surface, [forces.player], its technologies, its electric
    statistics with production and consumption, the output counts of its
    item statistics and its inventory; when one of them is missing it
    raises a [TypeError]. Counters missing inside those structures are read
    as zero (the consumption total as one). This is for saves whose
    technology and entity records are objects, the only ones [Technology]
    and [Entity] represent: where one of them is [null], reading its
    [researched] or [name] raises as well, whatever else is present. *)
Theorem full_mode_returns_iff_nested_present (saveData : option SaveData) :
  gameOf saveData <> None ->
  firstSurfaceOf saveData <> None ->
  ((exists r, analyzeFactorioSave saveData = Ok r /\ fullAnalysisAvailable r = true)
   <-> nestedPresent saveData = true)
  /\ (nestedPresent saveData = false ->
      analyzeFactorioSave saveData = Throw TypeError)
  /\ (forall r counts,
        analyzeFactorioSave saveData = Ok r ->
        outputCountsOf saveData = Some counts ->
        mined (resource r)
        = [ ("铁矿", orElse (lookup "iron-ore" counts) 0);
            ("铜矿", orElse (lookup "copper-ore" counts) 0);
            ("煤", orElse (lookup "coal" counts) 0);
            ("原油", orElse (lookup "crude-oil" counts) 0) ])
  /\ (forall r prod cons,
        analyzeFactorioSave saveData = Ok r ->
        productionOf saveData = Some prod ->
        consumptionOf saveData = Some cons ->
        (production_total prod = None -> totalProduction (power r) = 0%Z)
        /\ (consumption_total cons = None -> totalConsumption (power r) = 1%Z)).
Proof.
  intros Hg Hs.
  destruct (snapshot saveData) as [[[[sd g] m] s]|] eqn:Esnap;
    [|apply snapshot_None_iff in Esnap; tauto].
  assert (Han : analyzeFactorioSave saveData = fullAnalysis sd g m s)
    by (unfold analyzeFactorioSave; now rewrite Esnap).
  apply snapshot_Some in Esnap. destruct Esnap as (-> & Eg & Em & Es).
  rewrite Han. clear Han Hg Hs.
  unfold nestedPresent, technologiesOf, productionOf, consumptionOf,
    inventoryOf, outputCountsOf, statsOf, playerOf, entitiesOf.
  rewrite Eg, Es. clear Eg Es Em.
  unfold fullAnalysis.
  destruct (forces g) as [fs|]; cbn [deref bind isSome];
    [|missing_structure].
  destruct (entities s) as [ents|]; cbn [deref bind isSome];
    [|missing_structure].
  destruct (player fs) as [f|]; cbn [deref bind isSome];
    [|missing_structure].
  destruct (technologies f) as [techs|]; cbn [deref bind isSome];
    [|missing_structure].
  destruct (electric_network_statistics f) as [stats|]; cbn [deref bind isSome];
    [|missing_structure].
  destruct (stats_production stats) as [prod|]; cbn [deref bind isSome];
    [|missing_structure].
  destruct (item_production_statistics f) as [istats|]; cbn [deref bind isSome];
    [|missing_structure].
  destruct (output_counts istats) as [counts|]; cbn [deref bind isSome];
    [|missing_structure].
  destruct (items f) as [inventory|]; cbn [deref bind isSome];
    [|missing_structure].
  destruct (stats_consumption stats) as [cons|]; cbn [deref bind isSome];
    [|missing_structure].
  cbn [andb]. split; [|split; [discriminate|split]].
  - split; [reflexivity|]. intros _. eexists. split; reflexivity.
  - intros r counts' [= <-] [= <-]. reflexivity.
  - intros r prod' cons' [= <-] [= <-] [= <-].
    cbn [power totalProduction totalConsumption]. split; intros ->; reflexivity.
Qed.

Lemma full_mode_returns_iff_nested_present_witness :
  gameOf (Some emptySnapshot) <> None
  /\ firstSurfaceOf (Some emptySnapshot) <> None
  /\ exists r,
       analyzeFactorioSave (Some emptySnapshot) = Ok r
       /\ fullAnalysisAvailable r = true
       /\ totalProduction (power r) = 0%Z
       /\ totalConsumption (power r) = 1%Z.
Proof.
  assert (Hg : gameOf (Some emptySnapshot) <> None) by discriminate.
  assert (Hs : firstSurfaceOf (Some emptySnapshot) <> None) by discriminate.
  destruct (full_mode_returns_iff_nested_present (Some emptySnapshot) Hg Hs)
    as ([_ Hok] & _ & _ & Hpower).
  destruct (Hok eq_refl) as (r & Hr & Hfull).
  destruct (Hpower r (mkPowerProduction None None None None)
              (mkPowerConsumption None) Hr eq_refl eq_refl) as [Hp Hc].
  repeat split; [exact Hg | exact Hs |].
  exists r. repeat split; [exact Hr | exact Hfull | apply Hp | apply Hc];
    reflexivity.
Defined.

(** *** Power *)



(** The printed boundary values of the specification. *)
Lemma powerStatusOf_boundaries :
  powerStatusOf (Number "1.10") = Sufficient
  /\ powerStatusOf (Number "0.90") = Tight
  /\ powerStatusOf (Number "0.89") = Insufficient.
Proof. repeat split; vm_compute; reflexivity. Qed.




End AnalysisFacts.

(** ** Storage: retention *)

Section RetentionFacts.
Import Text Storage.

Lemma jsEqb_eq (a b : jsstring) : jsEqb a b = true <-> a = b.
Proof.
  unfold jsEqb. destruct (list_eq_dec Z.eq_dec a b); split; congruence.
Qed.

Lemma nameIs_eq (n : jsstring) (e : DirEntry) :
  nameIs n e = true <-> d_name e = n.
Proof. apply jsEqb_eq. Qed.

(** *** Lists *)

Lemma filter_filter {A : Type} (p q : A -> bool) (l : list A) :
  filter p (filter q l) = filter (fun x => q x && p x) l.
Proof.
  induction l as [|x l IH]; simpl; [reflexivity|].
  destruct (q x); simpl; [destruct (p x)|]; now rewrite IH.
Qed.

Lemma filter_all {A : Type} (p : A -> bool) (l : list A) :
  (forall x, In x l -> p x = true) -> filter p l = l.
Proof.
  induction l as [|x l IH]; simpl; intros H; [reflexivity|].
  rewrite (H x) by auto. f_equal. apply IH. auto.
Qed.

Lemma filter_none {A : Type} (p : A -> bool) (l : list A) :
  (forall x, In x l -> p x = false) -> filter p l = [].
Proof.
  induction l as [|x l IH]; simpl; intros H; [reflexivity|].
  rewrite (H x) by auto. apply IH. auto.
Qed.

Lemma Permutation_filter {A : Type} (p : A -> bool) (l l' : list A) :
  Permutation l l' -> Permutation (filter p l) (filter p l').
Proof.
  induction 1 as [|x l l' _ IH|x y l|l l' l'' _ IH1 _ IH2]; simpl.
  - constructor.
  - destruct (p x); [now constructor | exact IH].
  - destruct (p x), (p y); try reflexivity. apply perm_swap.
  - now transitivity (filter p l').
Qed.

Lemma NoDup_app_disjoint {A : Type} (l1 l2 : list A) (x : A) :
  NoDup (l1 ++ l2)%list -> In x l1 -> In x l2 -> False.
Proof.
  induction l1 as [|a l1 IH]; simpl; intros Hnd H1 H2; [contradiction|].
  inversion Hnd as [|? ? Hnotin Hnd']; subst.
  destruct H1 as [-> | H1].
  - apply Hnotin. apply in_or_app. now right.
  - now apply IH.
Qed.

Lemma NoDup_map_filter {A B : Type} (f : A -> B) (p : A -> bool) (l : list A) :
  NoDup (List.map f l) -> NoDup (List.map f (filter p l)).
Proof.
  induction l as [|x l IH]; simpl; intros H; [constructor|].
  inversion H as [|? ? Hnotin Hnd]; subst.
  destruct (p x); simpl; [|now apply IH].
  constructor; [|now apply IH].
  intros Hin. apply Hnotin. apply in_map_iff in Hin.
  destruct Hin as (y & Hy & Hin). apply filter_In in Hin.
  apply in_map_iff. exists y. tauto.
Qed.

Lemma NoDup_map_same {A B : Type} (f : A -> B) (l : list A) (a b : A) :
  NoDup (List.map f l) -> In a l -> In b l -> f a = f b -> a = b.
Proof.
  induction l as [|x l IH]; simpl; intros Hnd Ha Hb Hf; [contradiction|].
  inversion Hnd as [|? ? Hnotin Hnd']; subst.
  destruct Ha as [-> | Ha], Hb as [-> | Hb]; auto.
  - exfalso. apply Hnotin. rewrite Hf. now apply in_map.
  - exfalso. apply Hnotin. rewrite <- Hf. now apply in_map.
Qed.

(** *** The sort *)

Lemma insertByMtime_perm (x : DirEntry) (l : list DirEntry) :
  Permutation (insertByMtime x l) (x :: l).
Proof.
  induction l as [|y l IH]; simpl; [reflexivity|].
  destruct (Qle_bool (d_mtimeMs x) (d_mtimeMs y)); [reflexivity|].
  transitivity (y :: x :: l); [now apply perm_skip | apply perm_swap].
Qed.

Lemma sortByMtime_perm (l : list DirEntry) : Permutation (sortByMtime l) l.
Proof.
  induction l as [|x l IH]; simpl; [reflexivity|].
  transitivity (x :: sortByMtime l);
    [apply insertByMtime_perm | now apply perm_skip].
Qed.

Lemma insertByMtime_sorted (x : DirEntry) (l : list DirEntry) :
  StronglySorted mtimeLe l -> StronglySorted mtimeLe (insertByMtime x l).
Proof.
  induction l as [|y l IH]; simpl; intros Hs.
  - repeat constructor.
  - inversion Hs as [|? ? Hs' Hall]; subst.
    destruct (Qle_bool (d_mtimeMs x) (d_mtimeMs y)) eqn:Hle.
    + apply Qle_bool_iff in Hle. constructor; [exact Hs|].
      constructor; [exact Hle|].
      eapply Forall_impl; [|exact Hall].
      intros z Hz. unfold mtimeLe in *. lra.
    + constructor; [now apply IH|].
      apply (Permutation_Forall (Permutation_sym (insertByMtime_perm x l))).
      constructor; [|exact Hall].
      unfold mtimeLe.
      destruct (Qlt_le_dec (d_mtimeMs y) (d_mtimeMs x)) as [Hlt|Hge];
        [lra|].
      apply Qle_bool_iff in Hge. congruence.
Qed.

Lemma sortByMtime_sorted (l : list DirEntry) :
  StronglySorted mtimeLe (sortByMtime l).
Proof.
  induction l as [|x l IH]; simpl; [constructor | now apply insertByMtime_sorted].
Qed.

Lemma sorted_app_le (l1 l2 : list DirEntry) (x y : DirEntry) :
  StronglySorted mtimeLe (l1 ++ l2)%list -> In x l1 -> In y l2 -> mtimeLe x y.
Proof.
  induction l1 as [|a l1 IH]; simpl; intros Hs Hx Hy; [contradiction|].
  inversion Hs as [|? ? Hs' Hall]; subst.
  destruct Hx as [-> | Hx]; [|now apply IH].
  rewrite Forall_forall in Hall. apply Hall. apply in_or_app. now right.
Qed.

(** *** The deletions *)

Lemma fold_tryUnlink (env : Env) (toRemove entries : list DirEntry) :
  (forall n, unlinkFails env n = false) ->
  fold_left (tryUnlink env) toRemove entries
  = filter (fun e => negb (removedBy toRemove e)) entries.
Proof.
  intros Hno. revert entries.
  induction toRemove as [|f toRemove IH]; intros entries; simpl.
  - symmetry. apply filter_all. reflexivity.
  - rewrite IH. unfold tryUnlink. rewrite Hno, filter_filter.
    apply filter_ext. intros e. now rewrite negb_orb.
Qed.

Lemma removedBy_iff (toRemove : list DirEntry) (e : DirEntry) :
  removedBy toRemove e = true <-> exists f, In f toRemove /\ d_name e = d_name f.
Proof.
  unfold removedBy. rewrite existsb_exists.
  split; intros (f & Hf & Hn); exists f; split; auto; now apply nameIs_eq.
Qed.

(** With distinct names, deleting the files of [toRemove] from a listing
    that is [toRemove] followed by [keep], in any order, leaves [keep]. *)
Lemma survivors_perm (files toRemove keep : list DirEntry) :
  NoDup (List.map d_name files) ->
  Permutation files (toRemove ++ keep)%list ->
  Permutation (filter (fun e => negb (removedBy toRemove e)) files) keep.
Proof.
  intros Hnd Hperm.
  assert (Hnd' : NoDup (List.map d_name toRemove ++ List.map d_name keep)%list).
  { rewrite <- map_app. eapply Permutation_NoDup; [|exact Hnd].
    now apply Permutation_map. }
  rewrite (Permutation_filter _ _ _ Hperm), filter_app.
  rewrite filter_none, filter_all; [reflexivity| |].
  - intros e He. apply negb_true_iff.
    destruct (removedBy toRemove e) eqn:Hr; [|reflexivity].
    apply removedBy_iff in Hr. destruct Hr as (f & Hf & Hn).
    exfalso. apply (NoDup_app_disjoint _ _ (d_name e) Hnd').
    + rewrite Hn. now apply in_map.
    + now apply in_map.
  - intros e He. apply negb_false_iff. apply removedBy_iff. now exists e.
Qed.

(** *** The retention theorem *)

(** C2 (as stated, refuted). Two files and a cap of one: the deletion of the
    older file is refused, the refusal is caught and logged, and both files
    are still stored, one more than [min(2, 1)]. *)
Lemma prune_refused_deletion_counterexample :
  (0 <= 1)%Z
  /\ NoDup (List.map d_name (ensureUploadDirExists twoFiles))
  /\ List.length (storedFiles twoFiles) = 2%nat
  /\ List.length (storedFiles (pruneOldFilesIfExceed refusingEnv 1 twoFiles))
     = 2%nat
  /\ Z.of_nat
       (List.length (storedFiles (pruneOldFilesIfExceed refusingEnv 1 twoFiles)))
     <> Z.min (Z.of_nat (List.length (storedFiles twoFiles))) 1.
Proof.
  split; [lia|]. split.
  - repeat constructor; simpl; intuition discriminate.
  - repeat split; vm_compute; congruence.
Qed.

(** C2 (amended). For every cap [maxCount >= 0] and every storage root,
    when no deletion is refused, after [pruneOldFilesIfExceed] the number of
    stored files is [min(priorCount, maxCount)]; the stored files are the
    prior ones less the removed ones, every removed file being no more
    recently modified than any file kept, and they are the last files of the
    prior listing sorted by modification time; entries that are not regular
    files stay; with [priorCount <= maxCount] the directory is unchanged. *)
Theorem prune_keeps_most_recent (env : Env) (maxCount : Z) (disk : Disk) :
  (0 <= maxCount)%Z ->
  NoDup (List.map d_name (ensureUploadDirExists disk)) ->
  (forall n, unlinkFails env n = false) ->
  let before := storedFiles disk in
  let after := storedFiles (pruneOldFilesIfExceed env maxCount disk) in
  Z.of_nat (List.length after) = Z.min (Z.of_nat (List.length before)) maxCount
  /\ (exists removed,
        Permutation before (removed ++ after)%list
        /\ forall x y, In x removed -> In y after -> mtimeLe x y)
  /\ Permutation after
       (skipn (List.length before - Z.to_nat maxCount) (sortByMtime before))
  /\ filter (fun e => negb (d_isFile e))
       (ensureUploadDirExists (pruneOldFilesIfExceed env maxCount disk))
     = filter (fun e => negb (d_isFile e)) (ensureUploadDirExists disk)
  /\ ((Z.of_nat (List.length before) <= maxCount)%Z ->
      ensureUploadDirExists (pruneOldFilesIfExceed env maxCount disk)
      = ensureUploadDirExists disk).
Proof.
  intros Hmax Hnd Hno before after.
  unfold after, before, storedFiles, pruneOldFilesIfExceed.
  set (entries := ensureUploadDirExists disk) in *.
  set (files := filter d_isFile entries).
  pose proof (sortByMtime_perm files) as Hperm.
  pose proof (Permutation_length Hperm) as Hlen.
  destruct (Z.leb_spec (Z.of_nat (List.length files)) maxCount) as [Hle|Hgt].
  - (* nothing to prune *)
    cbn [ensureUploadDirExists]. fold files.
    replace (List.length files - Z.to_nat maxCount)%nat with 0%nat by lia.
    repeat split; try reflexivity; try lia.
    + exists []. split; [reflexivity | intros x y []].
    + cbn [skipn]. now symmetry.
  - (* the oldest surplus files go *)
    cbn [ensureUploadDirExists]. rewrite fold_tryUnlink by exact Hno.
    unfold sliceTo. rewrite Hlen.
    set (n := List.length files) in *.
    destruct (Z.ltb_spec (Z.of_nat n - maxCount) 0) as [Hneg|_]; [lia|].
    replace (Z.to_nat (Z.min (Z.of_nat n - maxCount) (Z.of_nat n)))
      with (n - Z.to_nat maxCount)%nat by lia.
    set (k := (n - Z.to_nat maxCount)%nat).
    set (toRemove := firstn k (sortByMtime files)).
    set (keep := skipn k (sortByMtime files)).
    assert (Hsplit : sortByMtime files = (toRemove ++ keep)%list)
      by (symmetry; apply firstn_skipn).
    rewrite filter_filter.
    rewrite (filter_ext _ (fun x => d_isFile x && negb (removedBy toRemove x)))
      by (intros x; apply andb_comm).
    rewrite <- filter_filter. fold files.
    assert (Hkeep : Permutation
                      (filter (fun e => negb (removedBy toRemove e)) files) keep).
    { apply survivors_perm.
      - now apply NoDup_map_filter.
      - rewrite <- Hsplit. now symmetry. }
    assert (Hklen : List.length keep = Z.to_nat maxCount).
    { unfold keep. rewrite length_skipn, Hlen. fold n. lia. }
    split; [rewrite (Permutation_length Hkeep), Hklen; lia|].
    split.
    { exists toRemove. split.
      - transitivity (sortByMtime files); [now symmetry|].
        rewrite Hsplit. apply Permutation_app_head. now symmetry.
      - intros x y Hx Hy. apply (sorted_app_le toRemove keep); auto.
        + rewrite <- Hsplit. apply sortByMtime_sorted.
        + eapply Permutation_in; [exact Hkeep | exact Hy]. }
    split; [exact Hkeep|]. split; [|lia].
    rewrite filter_filter. apply filter_ext_in. intros e He.
    destruct (d_isFile e) eqn:Hfile; cbn [negb andb];
      [now rewrite andb_false_r|].
    rewrite andb_true_r. apply negb_true_iff.
    destruct (removedBy toRemove e) eqn:Hr; [|reflexivity].
    apply removedBy_iff in Hr. destruct Hr as (f & Hf & Hn).
    assert (Hfin : In f files).
    { eapply Permutation_in; [exact Hperm|]. rewrite Hsplit.
      apply in_or_app. now left. }
    apply filter_In in Hfin. destruct Hfin as [Hfe Hff].
    assert (e = f) by (eapply NoDup_map_same; eauto). congruence.
Qed.

Lemma prune_keeps_most_recent_witness :
  (0 <= 2)%Z
  /\ NoDup (List.map d_name (ensureUploadDirExists threeFiles))
  /\ (forall n, unlinkFails obligingEnv n = false)
  /\ Z.of_nat
       (List.length (storedFiles (pruneOldFilesIfExceed obligingEnv 2 threeFiles)))
     = Z.min (Z.of_nat (List.length (storedFiles threeFiles))) 2.
Proof.
  assert (Hnd : NoDup (List.map d_name (ensureUploadDirExists threeFiles))).
  { repeat constructor; simpl; intuition discriminate. }
  assert (Hno : forall n, unlinkFails obligingEnv n = false) by reflexivity.
  assert (Hmax : (0 <= 2)%Z) by lia.
  split; [exact Hmax|]. split; [exact Hnd|]. split; [exact Hno|].
  exact (proj1 (prune_keeps_most_recent obligingEnv 2 threeFiles Hmax Hnd Hno)).
Defined.

End RetentionFacts.

(** ** Storage: upload validation *)

Section UploadFacts.
Import Text Storage.

Lemma maxSize_200MiB : maxSize = 209715200%Z.
Proof. reflexivity. Qed.

(** C8. An upload whose mime type is outside the allow-list, or whose size
    exceeds 200 MiB, is answered with a [BAD_REQUEST] failure carrying no
    object, and the storage root is left exactly as it was: the checks come
    before the directory is created or anything is written. *)
Theorem upload_rejected_without_side_effect
    (env : Env) (file : UploadedFile) (disk : Disk) :
  ~ In (mimetype file) allowedMimeTypes \/ (200 * 1024 * 1024 < size file)%Z ->
  success (fst (uploadFile env file disk)) = false
  /\ statusCode (fst (uploadFile env file disk)) = BAD_REQUEST
  /\ responseObject (fst (uploadFile env file disk)) = None
  /\ snd (uploadFile env file disk) = disk.
Proof.
  intros H. unfold uploadFile.
  destruct (existsb (String.eqb (mimetype file)) allowedMimeTypes) eqn:Hmime;
    cbn [negb]; [|repeat split; reflexivity].
  destruct H as [Hout | Hbig].
  - exfalso. apply Hout. apply existsb_exists in Hmime.
    destruct Hmime as (m & Hin & Heq). apply String.eqb_eq in Heq. now subst.
  - fold maxSize in Hbig.
    destruct (Z.ltb_spec maxSize (size file)) as [_|Hle]; [|lia].
    repeat split; reflexivity.
Qed.

Lemma upload_rejected_without_side_effect_witness :
  (~ In (mimetype textUpload) allowedMimeTypes
   \/ (200 * 1024 * 1024 < size textUpload)%Z)
  /\ statusCode (fst (uploadFile obligingEnv textUpload oneFile)) = BAD_REQUEST
  /\ snd (uploadFile obligingEnv textUpload oneFile) = oneFile.
Proof.
  assert (H : ~ In (mimetype textUpload) allowedMimeTypes
              \/ (200 * 1024 * 1024 < size textUpload)%Z).
  { left. simpl. intuition discriminate. }
  split; [exact H|].
  destruct (upload_rejected_without_side_effect obligingEnv textUpload oneFile H)
    as (_ & Hcode & _ & Hdisk).
  split; [exact Hcode | exact Hdisk].
Defined.

(** An accepted upload is stored under the generated name. *)
Lemma upload_accepted_example :
  let file := mkUploadedFile (units "base.zip") "application/zip" 3 [1; 2; 3]%Z in
  let out := uploadFile obligingEnv file None in
  statusCode (fst out) = OK
  /\ option_map r_filename (responseObject (fst out)) = Some (units "id.zip")
  /\ List.map d_name (storedFiles (snd out)) = [units "id.zip"].
Proof. repeat split; vm_compute; reflexivity. Qed.

End UploadFacts.

(** ** Storage: file-name normalization *)

Section NormalizerFacts.
Import Text Storage.

(** C9 (as stated, refuted). ["%2541"] is valid UTF-8; it decodes to
    ["%41"], which in turn decodes to ["A"]. *)
Lemma decodeFileName_escaped_percent_counterexample :
  isValidUTF8 (units "%2541") = true
  /\ decodeFileName (units "%2541") = units "%41"
  /\ decodeFileName (decodeFileName (units "%2541")) = units "A"
  /\ decodeFileName (decodeFileName (units "%2541"))
     <> decodeFileName (units "%2541").
Proof.
  repeat split; try (vm_compute; reflexivity). vm_compute. discriminate.
Qed.

(** A name that matches the garbled heuristic is not a fixed point either:
    U+00C3 U+00A5 U+00E9 is reinterpreted as U+00E5 U+FFFD, which matches
    the heuristic again and becomes U+FFFD U+FFFD. *)
Lemma decodeFileName_garbled_not_idempotent :
  let s := [0xC3; 0xA5; 0xE9]%Z in
  isValidUTF8 s = true
  /\ includesUnit percent s = false
  /\ decodeFileName s = [0xE5; 0xFFFD]%Z
  /\ decodeFileName (decodeFileName s) = [0xFFFD; 0xFFFD]%Z.
Proof. repeat split; vm_compute; reflexivity. Qed.

(** The names no attempt of the chain applies to are returned unchanged. *)
Lemma decodeFileName_plain (s : jsstring) :
  s <> [] ->
  isValidUTF8 s = true ->
  includesUnit percent s = false \/ decodeURIComponent s = None ->
  looksLikeGarbled s = false ->
  decodeFileName s = s.
Proof.
  intros Hne Hvalid Hpct Hgarbled. unfold decodeFileName.
  destruct s as [|c s]; [contradiction|].
  assert (Hurl : tryUrlDecode (c :: s) = None).
  { unfold tryUrlDecode. destruct Hpct as [-> | ->]; [reflexivity|].
    now destruct (includesUnit percent (c :: s)). }
  unfold tryLatin1. now rewrite Hurl, Hvalid, Hgarbled.
Qed.

(** The repairs the chain is written for: a URL-encoded name and a UTF-8
    name that was read as Latin-1 both become U+6559 ["教"]. *)
Example decodeFileName_repairs :
  decodeFileName (units "%E6%95%99.zip") = (0x6559 :: units ".zip")%Z
  /\ decodeFileName ([0xE6; 0x95; 0x99]%Z ++ units ".zip")%list
     = (0x6559 :: units ".zip")%Z
  /\ decodeFileName [] = units "unnamed".
Proof. repeat split; vm_compute; reflexivity. Qed.

Example decodeURIComponent_examples :
  decodeURIComponent (units "a%20b") = Some (units "a b")
  /\ decodeURIComponent (units "%F0%9F%98%80") = Some [0xD83D; 0xDE00]%Z
  /\ decodeURIComponent (units "100%") = None
  /\ decodeURIComponent (units "%C0%80") = None
  /\ decodeURIComponent (units "%E6%95") = None.
Proof. repeat split; vm_compute; reflexivity. Qed.

Example isValidUTF8_examples :
  isValidUTF8 (units "base.zip") = true
  /\ isValidUTF8 [0xD83D; 0xDE00]%Z = true
  /\ isValidUTF8 [0xD83D]%Z = false
  /\ isValidUTF8 [0xDE00; 0x41]%Z = false.
Proof. repeat split; vm_compute; reflexivity. Qed.

Example extname_examples :
  extname (units "base.zip") = units ".zip"
  /\ extname (units "base") = []
  /\ extname (units ".hidden") = []
  /\ extname (units "a.tar.gz") = units ".gz"
  /\ extname (units "dir.d/file") = []
  /\ extname (units "name.") = units ".".
Proof. repeat split; vm_compute; reflexivity. Qed.

End NormalizerFacts.

(* ================================================================= *)
(** * Further properties of the code *)

(** ** Retention: what [pruneOldFilesIfExceed] does in every environment *)

Section RetentionMore.
Import Text Storage.

(** Whatever the file system refuses, the loop removes exactly the entries
    named after a file whose deletion went through. *)
Lemma fold_tryUnlink_any (env : Env) (toRemove entries : list DirEntry) :
  fold_left (tryUnlink env) toRemove entries
  = filter (fun e => negb (removedBy (filter (deletable env) toRemove) e)) entries.
Proof.
  revert entries.
  induction toRemove as [|f toRemove IH]; intros entries; simpl.
  - symmetry. apply filter_all. reflexivity.
  - rewrite IH. unfold tryUnlink, deletable at 2.
    destruct (unlinkFails env (d_name f)); cbn [negb]; [reflexivity|].
    rewrite filter_filter. apply filter_ext. intros e. simpl.
    now rewrite negb_orb.
Qed.

Lemma prune_unfold (env : Env) (maxCount : Z) (disk : Disk) :
  (maxCount < Z.of_nat (List.length (storedFiles disk)))%Z ->
  pruneOldFilesIfExceed env maxCount disk
  = Some (filter
            (fun e => negb (removedBy (filter (deletable env)
                                         (oldestSurplus maxCount disk)) e))
            (ensureUploadDirExists disk)).
Proof.
  intros Hgt. unfold pruneOldFilesIfExceed, oldestSurplus, storedFiles in *.
  destruct (Z.leb_spec
              (Z.of_nat (List.length (filter d_isFile (ensureUploadDirExists disk))))
              maxCount) as [Hle|_]; [lia|].
  now rewrite fold_tryUnlink_any.
Qed.

Lemma prune_noop (env : Env) (maxCount : Z) (disk : Disk) :
  (Z.of_nat (List.length (storedFiles disk)) <= maxCount)%Z ->
  pruneOldFilesIfExceed env maxCount disk = Some (ensureUploadDirExists disk).
Proof.
  intros Hle. unfold pruneOldFilesIfExceed, storedFiles in *.
  destruct (Z.leb_spec
              (Z.of_nat (List.length (filter d_isFile (ensureUploadDirExists disk))))
              maxCount) as [_|Hgt]; [reflexivity | lia].
Qed.

Lemma In_firstn {A : Type} (n : nat) (l : list A) (x : A) :
  In x (firstn n l) -> In x l.
Proof.
  intros H. rewrite <- (firstn_skipn n l). apply in_or_app. now left.
Qed.

Lemma oldestSurplus_incl (maxCount : Z) (disk : Disk) (f : DirEntry) :
  In f (oldestSurplus maxCount disk) -> In f (storedFiles disk).
Proof.
  unfold oldestSurplus, sliceTo. intros H.
  apply (Permutation_in _ (sortByMtime_perm (storedFiles disk))).
  eapply In_firstn. exact H.
Qed.

Lemma removedBy_self (toRemove : list DirEntry) (f : DirEntry) :
  In f toRemove -> removedBy toRemove f = true.
Proof. intros H. apply removedBy_iff. now exists f. Qed.

(** With distinct names, an entry bears the name of a listed file only if it
    is that file. *)
Lemma removedBy_NoDup (entries toRemove : list DirEntry) (e : DirEntry) :
  NoDup (List.map d_name entries) ->
  incl toRemove entries -> In e entries ->
  removedBy toRemove e = true <-> In e toRemove.
Proof.
  intros Hnd Hincl He. split; [|apply removedBy_self].
  intros H. apply removedBy_iff in H. destruct H as (f & Hf & Hn).
  assert (e = f) by (eapply NoDup_map_same; eauto). now subst.
Qed.

(** X1. Best-effort cleanup: when the listing exceeds the cap, a stored file
    survives exactly when it is not among the oldest surplus files or its
    deletion was refused; a refused deletion never stops the others. *)
Theorem prune_best_effort (env : Env) (maxCount : Z) (disk : Disk) (f : DirEntry) :
  NoDup (List.map d_name (ensureUploadDirExists disk)) ->
  (maxCount < Z.of_nat (List.length (storedFiles disk)))%Z ->
  In f (storedFiles (pruneOldFilesIfExceed env maxCount disk))
  <-> In f (storedFiles disk)
      /\ (~ In f (oldestSurplus maxCount disk)
          \/ unlinkFails env (d_name f) = true).
Proof.
  intros Hnd Hgt. rewrite prune_unfold by exact Hgt.
  unfold storedFiles at 1. cbn [ensureUploadDirExists].
  set (entries := ensureUploadDirExists disk) in *.
  set (gone := filter (deletable env) (oldestSurplus maxCount disk)).
  assert (Hgone : incl gone entries).
  { intros g Hg. apply filter_In in Hg. destruct Hg as [Hg _].
    apply oldestSurplus_incl in Hg. unfold storedFiles in Hg.
    apply filter_In in Hg. tauto. }
  rewrite !filter_In. unfold storedFiles. rewrite filter_In. fold entries.
  split.
  - intros [[He Hkeep] Hfile]. split; [tauto|].
    apply negb_true_iff in Hkeep.
    destruct (unlinkFails env (d_name f)) eqn:Hr; [now right|left].
    intros Hin.
    assert (In f gone) by (apply filter_In; unfold deletable; now rewrite Hr).
    rewrite <- (removedBy_NoDup entries gone f Hnd Hgone He) in H. congruence.
  - intros [[He Hfile] Hwhy]. repeat split; try assumption.
    apply negb_true_iff.
    destruct (removedBy gone f) eqn:Hr; [|reflexivity].
    apply (removedBy_NoDup entries gone f Hnd Hgone He) in Hr.
    apply filter_In in Hr. destruct Hr as [Hin Hdel]. unfold deletable in Hdel.
    destruct Hwhy as [Hnot | Href]; [contradiction|].
    rewrite Href in Hdel. discriminate.
Qed.

Lemma prune_best_effort_witness :
  NoDup (List.map d_name (ensureUploadDirExists threeFiles))
  /\ (1 < Z.of_nat (List.length (storedFiles threeFiles)))%Z
  /\ In (mkDirEntry (units "a.zip") true 10 [])
        (storedFiles (pruneOldFilesIfExceed stubbornEnv 1 threeFiles))
  /\ ~ In (mkDirEntry (units "b.zip") true 20 [])
        (storedFiles (pruneOldFilesIfExceed stubbornEnv 1 threeFiles)).
Proof.
  assert (Hnd : NoDup (List.map d_name (ensureUploadDirExists threeFiles))).
  { repeat constructor; simpl; intuition discriminate. }
  assert (Hgt : (1 < Z.of_nat (List.length (storedFiles threeFiles)))%Z)
    by (vm_compute; reflexivity).
  split; [exact Hnd|]. split; [exact Hgt|]. split.
  - apply (proj2 (prune_best_effort stubbornEnv 1 threeFiles _ Hnd Hgt)).
    split; [simpl; tauto | right; reflexivity].
  - intros H.
    apply (proj1 (prune_best_effort stubbornEnv 1 threeFiles _ Hnd Hgt)) in H.
    destruct H as [_ [Hnot | Href]]; [|discriminate Href].
    apply Hnot. vm_compute. tauto.
Defined.

(** X2. [pruneOldFilesIfExceed] only ever removes regular files: in every
    environment and for every cap, each entry left was there before,
    unaltered, and the entries that are not regular files are all kept. *)
Theorem prune_only_removes_files (env : Env) (maxCount : Z) (disk : Disk) :
  NoDup (List.map d_name (ensureUploadDirExists disk)) ->
  incl (ensureUploadDirExists (pruneOldFilesIfExceed env maxCount disk))
       (ensureUploadDirExists disk)
  /\ filter (fun e => negb (d_isFile e))
       (ensureUploadDirExists (pruneOldFilesIfExceed env maxCount disk))
     = filter (fun e => negb (d_isFile e)) (ensureUploadDirExists disk).
Proof.
  intros Hnd.
  destruct (Z.leb_spec (Z.of_nat (List.length (storedFiles disk))) maxCount)
    as [Hle|Hgt].
  - rewrite prune_noop by exact Hle. split; [apply incl_refl | reflexivity].
  - rewrite prune_unfold by exact Hgt. cbn [ensureUploadDirExists].
    set (entries := ensureUploadDirExists disk) in *.
    set (gone := filter (deletable env) (oldestSurplus maxCount disk)).
    split; [intros e He; apply filter_In in He; tauto|].
    rewrite filter_filter. apply filter_ext_in. intros e He.
    destruct (d_isFile e) eqn:Hfile; cbn [negb];
      [now rewrite andb_false_r|].
    rewrite andb_true_r. apply negb_true_iff.
    destruct (removedBy gone e) eqn:Hr; [|reflexivity].
    assert (Hgone : incl gone entries).
    { intros g Hg. apply filter_In in Hg. destruct Hg as [Hg _].
      apply oldestSurplus_incl in Hg. unfold storedFiles in Hg.
      apply filter_In in Hg. tauto. }
    apply (removedBy_NoDup entries gone e Hnd Hgone He) in Hr.
    apply filter_In in Hr. destruct Hr as [Hin _].
    apply oldestSurplus_incl in Hin. unfold storedFiles in Hin.
    apply filter_In in Hin. destruct Hin as [_ Hf]. congruence.
Qed.

Lemma prune_only_removes_files_witness :
  NoDup (List.map d_name (ensureUploadDirExists threeFiles))
  /\ List.map d_name
       (filter (fun e => negb (d_isFile e))
          (ensureUploadDirExists (pruneOldFilesIfExceed obligingEnv 0 threeFiles)))
     = [units "notes"].
Proof.
  assert (Hnd : NoDup (List.map d_name (ensureUploadDirExists threeFiles))).
  { repeat constructor; simpl; intuition discriminate. }
  split; [exact Hnd|].
  rewrite (proj2 (prune_only_removes_files obligingEnv 0 threeFiles Hnd)).
  reflexivity.
Defined.

(** X3. A cap of zero or below empties the store: when no deletion is
    refused, no regular file is left. *)
Theorem prune_nonpositive_cap_removes_all (env : Env) (maxCount : Z) (disk : Disk) :
  (maxCount <= 0)%Z ->
  (forall n, unlinkFails env n = false) ->
  storedFiles (pruneOldFilesIfExceed env maxCount disk) = [].
Proof.
  intros Hmax Hno.
  destruct (Z.leb_spec (Z.of_nat (List.length (storedFiles disk))) maxCount)
    as [Hle|Hgt].
  - rewrite prune_noop by exact Hle. unfold storedFiles in *.
    cbn [ensureUploadDirExists].
    destruct (filter d_isFile (ensureUploadDirExists disk));
      [reflexivity | simpl in Hle; lia].
  - rewrite prune_unfold by exact Hgt.
    unfold storedFiles at 1. cbn [ensureUploadDirExists].
    rewrite filter_filter. apply filter_none. intros e He.
    destruct (d_isFile e) eqn:Hfile; [|now rewrite andb_false_r].
    rewrite andb_true_r. apply negb_false_iff. apply removedBy_self.
    apply filter_In. split; [|unfold deletable; now rewrite Hno].
    unfold oldestSurplus, sliceTo.
    set (sorted := sortByMtime (storedFiles disk)).
    assert (Hin : In e sorted).
    { apply (Permutation_in _ (Permutation_sym (sortByMtime_perm _))).
      unfold storedFiles. apply filter_In. tauto. }
    assert (Hstop : Z.to_nat
                      (if (Z.of_nat (List.length sorted) - maxCount <? 0)%Z
                       then Z.max (Z.of_nat (List.length sorted)
                                   + (Z.of_nat (List.length sorted) - maxCount)) 0
                       else Z.min (Z.of_nat (List.length sorted) - maxCount)
                              (Z.of_nat (List.length sorted)))
                    = List.length sorted).
    { destruct (Z.ltb_spec (Z.of_nat (List.length sorted) - maxCount) 0); lia. }
    rewrite Hstop, firstn_all. exact Hin.
Qed.

Lemma prune_nonpositive_cap_removes_all_witness :
  (-3 <= 0)%Z
  /\ (forall n, unlinkFails obligingEnv n = false)
  /\ storedFiles (pruneOldFilesIfExceed obligingEnv (-3) threeFiles) = [].
Proof.
  assert (Hmax : (-3 <= 0)%Z) by lia.
  assert (Hno : forall n, unlinkFails obligingEnv n = false) by reflexivity.
  split; [exact Hmax|]. split; [exact Hno|].
  exact (prune_nonpositive_cap_removes_all obligingEnv (-3) threeFiles Hmax Hno).
Defined.

(** What is left after a run with no refused deletion fits the cap. *)
Lemma prune_fits_cap (env : Env) (maxCount : Z) (disk : Disk) :
  (0 <= maxCount)%Z ->
  (forall n, unlinkFails env n = false) ->
  (Z.of_nat (List.length (storedFiles (pruneOldFilesIfExceed env maxCount disk)))
   <= maxCount)%Z.
Proof.
  intros Hmax Hno.
  destruct (Z.leb_spec (Z.of_nat (List.length (storedFiles disk))) maxCount)
    as [Hle|Hgt].
  - rewrite prune_noop by exact Hle. exact Hle.
  - rewrite prune_unfold by exact Hgt.
    unfold storedFiles at 1. cbn [ensureUploadDirExists].
    rewrite filter_filter.
    rewrite (filter_ext _ (fun x => d_isFile x
                                    && negb (removedBy (oldestSurplus maxCount disk) x))).
    2:{ intros x. rewrite andb_comm. f_equal. f_equal. f_equal.
        apply filter_all. intros g _. unfold deletable. now rewrite Hno. }
    rewrite <- filter_filter. fold (storedFiles disk).
    set (files := storedFiles disk) in *.
    unfold oldestSurplus, sliceTo. fold files.
    pose proof (sortByMtime_perm files) as Hperm.
    pose proof (Permutation_length Hperm) as Hlen.
    set (sorted := sortByMtime files) in *.
    destruct (Z.ltb_spec (Z.of_nat (List.length sorted) - maxCount) 0); [lia|].
    set (k := Z.to_nat (Z.min (Z.of_nat (List.length sorted) - maxCount)
                          (Z.of_nat (List.length sorted)))).
    rewrite (Permutation_length
               (Permutation_filter _ _ _ (Permutation_sym Hperm))).
    set (kept := fun e => negb (removedBy (firstn k sorted) e)).
    replace (filter kept sorted)
      with (filter kept (firstn k sorted ++ skipn k sorted)%list)
      by (now rewrite firstn_skipn).
    rewrite filter_app, filter_none, app_nil_l.
    + pose proof (filter_length_le kept (skipn k sorted)) as Hf.
      rewrite length_skipn in Hf. lia.
    + intros e He. apply negb_false_iff. now apply removedBy_self.
Qed.

(** X4. Pruning twice with the same cap is pruning once, when no deletion
    is refused. *)
Theorem prune_idempotent (env : Env) (maxCount : Z) (disk : Disk) :
  (0 <= maxCount)%Z ->
  (forall n, unlinkFails env n = false) ->
  pruneOldFilesIfExceed env maxCount (pruneOldFilesIfExceed env maxCount disk)
  = pruneOldFilesIfExceed env maxCount disk.
Proof.
  intros Hmax Hno.
  pose proof (prune_fits_cap env maxCount disk Hmax Hno) as Hfit.
  rewrite (prune_noop env maxCount (pruneOldFilesIfExceed env maxCount disk))
    by exact Hfit.
  unfold pruneOldFilesIfExceed.
  destruct (Z.of_nat _ <=? maxCount)%Z; reflexivity.
Qed.

Lemma prune_idempotent_witness :
  (0 <= 1)%Z
  /\ (forall n, unlinkFails obligingEnv n = false)
  /\ pruneOldFilesIfExceed obligingEnv 1
       (pruneOldFilesIfExceed obligingEnv 1 threeFiles)
     = pruneOldFilesIfExceed obligingEnv 1 threeFiles.
Proof.
  assert (Hmax : (0 <= 1)%Z) by lia.
  assert (Hno : forall n, unlinkFails obligingEnv n = false) by reflexivity.
  split; [exact Hmax|]. split; [exact Hno|].
  exact (prune_idempotent obligingEnv 1 threeFiles Hmax Hno).
Defined.

End RetentionMore.

(** ** Upload: what an accepted upload stores, and what a failed one leaves *)

Section UploadMore.
Import Text Storage Service.

Lemma allowed_iff (file : UploadedFile) :
  existsb (String.eqb (mimetype file)) allowedMimeTypes = true
  <-> In (mimetype file) allowedMimeTypes.
Proof.
  rewrite existsb_exists. split.
  - intros (m & Hin & Heq). apply String.eqb_eq in Heq. now subst.
  - intros Hin. exists (mimetype file). split; [exact Hin | apply String.eqb_refl].
Qed.

Lemma writeFile_In (env : Env) (n : jsstring) (data : list Z)
    (entries : list DirEntry) (e : DirEntry) :
  In e (writeFile env n data entries)
  <-> (In e entries /\ d_name e <> n) \/ e = mkDirEntry n true (now env) data.
Proof.
  unfold writeFile. rewrite in_app_iff, filter_In. simpl.
  rewrite negb_true_iff.
  assert (Hname : nameIs n e = false <-> d_name e <> n).
  { rewrite <- nameIs_eq. destruct (nameIs n e); split; congruence. }
  rewrite Hname. intuition congruence.
Qed.

Lemma failedWrite_In (env : Env) (n : jsstring) (data : list Z)
    (entries : list DirEntry) (e : DirEntry) :
  d_name e <> n ->
  In e (failedWrite env n data entries) <-> In e entries.
Proof.
  intros Hname. unfold failedWrite.
  destruct (writtenBeforeFailure env n) as [k|]; [|tauto].
  rewrite writeFile_In. split; [intros [[H _]|H]|intros H].
  - exact H.
  - subst e. now contradiction Hname.
  - left. now split.
Qed.

Lemma saveFileAsync_eq (env : Env) (file : UploadedFile) (disk : Disk) :
  saveFileAsync env file disk
  = if writeFails env (generatedName env file)
    then (None, Some (failedWrite env (generatedName env file) (buffer file)
                        (ensureUploadDirExists disk)))
    else
      (Some (mkSavedFile (generatedName env file)
               (joinPath uploadDir (generatedName env file))
               (decodeFileName (originalname file))),
       Some (writeFile env (generatedName env file) (buffer file)
               (ensureUploadDirExists disk))).
Proof. reflexivity. Qed.

(** X5. An accepted upload whose write goes through is answered with success
    and stored once, as a regular file holding the uploaded bytes, under
    the generated name (the identifier followed by the extension of the
    normalized original name, [.zip] when it has none); every entry with
    another name is left as it was. *)
Theorem upload_accepted_stores
    (env : Env) (file : UploadedFile) (disk : Disk) :
  In (mimetype file) allowedMimeTypes ->
  (size file <= 200 * 1024 * 1024)%Z ->
  writeFails env (generatedName env file) = false ->
  let name := generatedName env file in
  let stored := mkDirEntry name true (now env) (buffer file) in
  fst (uploadFile env file disk)
  = succeed "File uploaded successfully"
      (mkUploadResponse name (decodeFileName (originalname file))
         (mimetype file) (size file) (joinPath uploadDir name) (now env))
  /\ (forall e,
        In e (ensureUploadDirExists (snd (uploadFile env file disk)))
        <-> (In e (ensureUploadDirExists disk) /\ d_name e <> name)
            \/ e = stored)
  /\ In stored (storedFiles (snd (uploadFile env file disk))).
Proof.
  intros Hmime Hsize Hwrite name stored.
  unfold uploadFile. apply allowed_iff in Hmime. rewrite Hmime. cbn [negb].
  fold maxSize in Hsize.
  destruct (Z.ltb_spec maxSize (size file)) as [Hbig|_]; [lia|].
  rewrite saveFileAsync_eq, Hwrite. cbn [fst snd saved_filename
    saved_originalName saved_path ensureUploadDirExists].
  split; [reflexivity|]. split.
  - intros e. apply writeFile_In.
  - unfold storedFiles. cbn [ensureUploadDirExists]. apply filter_In.
    split; [|reflexivity]. apply writeFile_In. now right.
Qed.

Lemma upload_accepted_stores_witness :
  In (mimetype zipUpload) allowedMimeTypes
  /\ (size zipUpload <= 200 * 1024 * 1024)%Z
  /\ writeFails obligingEnv (generatedName obligingEnv zipUpload) = false
  /\ In (mkDirEntry (units "id.zip") true 0 [80; 75; 3]%Z)
        (storedFiles (snd (uploadFile obligingEnv zipUpload oneFile))).
Proof.
  assert (Hmime : In (mimetype zipUpload) allowedMimeTypes) by (simpl; tauto).
  assert (Hsize : (size zipUpload <= 200 * 1024 * 1024)%Z)
    by (vm_compute; discriminate).
  assert (Hwrite : writeFails obligingEnv (generatedName obligingEnv zipUpload)
                   = false) by reflexivity.
  split; [exact Hmime|]. split; [exact Hsize|]. split; [exact Hwrite|].
  exact (proj2 (proj2 (upload_accepted_stores obligingEnv zipUpload oneFile
                         Hmime Hsize Hwrite))).
Defined.

(** X6. The upload endpoint answers 200, 400 or 500, the status of the body
    it sends; it answers 200, with a successful body, exactly when a file was
    sent, its type is allowed, its size is at most 200 MiB and the write did
    not fail; with 400 the storage root is exactly as it was; with 500 the
    write failed, and either the file could not be opened and the directory
    holds what it held, or it holds, under the generated name, a file with
    the bytes written before the failure, which nothing removes; whatever
    the answer, every entry with another name is as it was. *)
Theorem upload_endpoint_outcomes
    (env : Env) (file : option UploadedFile) (disk : Disk) :
  let out := uploadFileHandler env file disk in
  let status := fst (fst out) in
  let body := snd (fst out) in
  status = httpStatus (statusCode body)
  /\ (status = 200 \/ status = 400 \/ status = 500)%Z
  /\ (status = 200%Z <-> success body = true)
  /\ (status = 200%Z
      <-> exists f, file = Some f
                    /\ In (mimetype f) allowedMimeTypes
                    /\ (size f <= 200 * 1024 * 1024)%Z
                    /\ writeFails env (generatedName env f) = false)
  /\ (status = 400%Z -> snd out = disk)
  /\ (forall f, file = Some f -> status = 500%Z ->
        let name := generatedName env f in
        match writtenBeforeFailure env name with
        | None => ensureUploadDirExists (snd out) = ensureUploadDirExists disk
        | Some k =>
            forall e,
              In e (ensureUploadDirExists (snd out))
              <-> (In e (ensureUploadDirExists disk) /\ d_name e <> name)
                  \/ e = mkDirEntry name true (now env) (firstn k (buffer f))
        end)
  /\ (forall f e, file = Some f -> d_name e <> generatedName env f ->
        In e (ensureUploadDirExists (snd out))
        <-> In e (ensureUploadDirExists disk)).
Proof.
  destruct file as [f|]; cbn zeta.
  2:{ cbn. repeat split; try tauto; try discriminate.
      intros (f & Hf & _). discriminate. }
  unfold uploadFileHandler, uploadFile.
  destruct (existsb (String.eqb (mimetype f)) allowedMimeTypes) eqn:Hmime;
    cbn [negb].
  2:{ cbn. repeat split; try tauto; try discriminate.
      intros (f' & [= <-] & Hin & _). apply allowed_iff in Hin. congruence. }
  apply allowed_iff in Hmime.
  destruct (Z.ltb_spec maxSize (size f)) as [Hbig|Hsmall].
  { unfold maxSize in Hbig. cbn. repeat split; try tauto; try discriminate.
    intros (f' & [= <-] & _ & Hle & _). lia. }
  rewrite saveFileAsync_eq.
  destruct (writeFails env (generatedName env f)) eqn:Hwrite.
  - cbn [fst snd httpStatus statusCode success failure].
    split; [reflexivity|]. split; [tauto|].
    split; [split; discriminate|].
    split; [split; [discriminate|]|].
    { intros (f' & [= <-] & _ & _ & Hw). congruence. }
    split; [discriminate|]. split.
    + intros f' [= <-] _. cbn [ensureUploadDirExists]. unfold failedWrite.
      destruct (writtenBeforeFailure env (generatedName env f)) as [k|];
        [|reflexivity].
      intros e. apply writeFile_In.
    + intros f' e [= <-] Hname. cbn [ensureUploadDirExists].
      now apply failedWrite_In.
  - cbn [fst snd httpStatus statusCode success succeed].
    split; [reflexivity|]. split; [tauto|].
    split; [split; reflexivity|].
    split; [split; [intros _; exists f; repeat split; auto | reflexivity]|].
    split; [discriminate|]. split; [discriminate|].
    intros f' e [= <-] Hname. cbn [ensureUploadDirExists].
    rewrite writeFile_In. split; [intros [[H _]|H]|intros H].
    + exact H.
    + subst e. now contradiction Hname.
    + left. now split.
Qed.

(** A write that fails midway is answered with 500 and leaves the file it
    had begun. *)
Example upload_failed_write_leaves_file :
  let out := uploadFileHandler fullDiskEnv (Some zipUpload) None in
  fst (fst out) = 500%Z
  /\ storedFiles (snd out)
     = [mkDirEntry (units "id.zip") true 0 [80]%Z].
Proof. split; vm_compute; reflexivity. Qed.

End UploadMore.

(** ** File-name normalization: what [decodeFileName] never returns *)

Section NormalizerMore.
Import Text Storage.

Lemma utf16OfCodePoint_nonempty (cp : Z) : utf16OfCodePoint cp <> [].
Proof. unfold utf16OfCodePoint. destruct (cp <? 65536)%Z; discriminate. Qed.

(** A URL decoding that succeeds after reading something returns something. *)
Lemma decodeURIFrom_nonempty (s : jsstring) :
  forall esc octets need d,
    decodeURIFrom esc octets need s = Some d ->
    s <> [] \/ esc <> Outside \/ need <> 0%Z ->
    d <> [].
Proof.
  induction s as [|c r IH]; intros esc octets need d Hd Hwhy.
  - simpl in Hd. destruct esc; try discriminate.
    destruct (Z.eqb_spec need 0); [|discriminate]. intuition congruence.
  - simpl in Hd. destruct esc as [| |hi].
    + destruct (c =? percent)%Z.
      * eapply IH; [exact Hd|]. right; left; discriminate.
      * destruct (need =? 0)%Z; [|discriminate].
        destruct (decodeURIFrom Outside [] 0 r); [|discriminate].
        injection Hd as <-. discriminate.
    + destruct (hexValue c); [|discriminate].
      eapply IH; [exact Hd|]. right; left; discriminate.
    + destruct (hexValue c) as [lo|]; [|discriminate].
      destruct (Z.eqb_spec need 0) as [Hn0|Hn0].
      * destruct (leadingOnes (hi * 16 + lo) =? 0)%Z.
        -- destruct (decodeURIFrom Outside [] 0 r); [|discriminate].
           injection Hd as <-. discriminate.
        -- destruct (Z.eqb_spec (leadingOnes (hi * 16 + lo)) 1) as [H1|H1];
             cbn [orb] in Hd; [discriminate|].
           destruct (4 <? leadingOnes (hi * 16 + lo))%Z; [discriminate|].
           eapply IH; [exact Hd|]. right; right. lia.
      * destruct (Z.eqb_spec need 1) as [H1|H1].
        -- destruct (codePointOfOctets (octets ++ [(hi * 16 + lo)%Z])%list);
             [|discriminate].
           destruct (decodeURIFrom Outside [] 0 r); [|discriminate].
           injection Hd as <-. intros Hnil. apply app_eq_nil in Hnil.
           destruct Hnil as [Hnil _]. now apply utf16OfCodePoint_nonempty in Hnil.
        -- eapply IH; [exact Hd|]. right; right. lia.
Qed.

Lemma utf8Lead_progress (b : Z) :
  fst (utf8Lead b) <> [] \/ bytesNeeded (snd (utf8Lead b)) <> 0%Z.
Proof.
  unfold utf8Lead.
  destruct (inRange 0 127 b); [left; discriminate|].
  destruct (inRange 194 223 b); [right; discriminate|].
  destruct (inRange 224 239 b); [right; discriminate|].
  destruct (inRange 240 244 b); [right; discriminate | left; discriminate].
Qed.

Lemma utf8Step_progress (st : Utf8State) (b : Z) :
  fst (utf8Step st b) <> [] \/ bytesNeeded (snd (utf8Step st b)) <> 0%Z.
Proof.
  unfold utf8Step.
  destruct (Z.eqb_spec (bytesNeeded st) 0) as [H0|H0]; [apply utf8Lead_progress|].
  destruct (inRange (lowerBoundary st) (upperBoundary st) b); cbn [negb].
  - destruct (Z.eqb_spec (bytesNeeded st) 1) as [H1|H1].
    + left. apply utf16OfCodePoint_nonempty.
    + right. simpl. lia.
  - destruct (utf8Lead b). left. discriminate.
Qed.

(** Decoding bytes, or ending a pending sequence, yields code units. *)
Lemma utf8DecodeFrom_nonempty (bytes : list Z) :
  forall st, bytes <> [] \/ bytesNeeded st <> 0%Z -> utf8DecodeFrom st bytes <> [].
Proof.
  induction bytes as [|b r IH]; intros st Hwhy; simpl.
  - destruct (Z.eqb_spec (bytesNeeded st) 0); [intuition congruence | discriminate].
  - pose proof (utf8Step_progress st b) as Hp.
    destruct (utf8Step st b) as [out st']. cbn [fst snd] in Hp.
    intros Hnil. apply app_eq_nil in Hnil. destruct Hnil as [Hout Hrest].
    destruct Hp as [Hp | Hp]; [contradiction|].
    apply (IH st'); [now right | exact Hrest].
Qed.

(** X7. The normalized name is never empty: an empty name becomes
    ["unnamed"], and no repair of a non-empty name erases it. *)
Theorem decodeFileName_never_empty (fileName : jsstring) :
  decodeFileName fileName <> [].
Proof.
  unfold decodeFileName. destruct fileName as [|c s]; [discriminate|].
  assert (Hre : reinterpretLatin1 (c :: s) <> []).
  { unfold reinterpretLatin1, utf8Decode. apply utf8DecodeFrom_nonempty.
    left. discriminate. }
  unfold tryUrlDecode, tryLatin1.
  destruct (includesUnit percent (c :: s)).
  - destruct (decodeURIComponent (c :: s)) as [d|] eqn:Hd.
    + destruct (isValidUTF8 d).
      * eapply decodeURIFrom_nonempty; [exact Hd|]. left. discriminate.
      * destruct (negb (isValidUTF8 (c :: s)));
          [destruct (containsChinese (reinterpretLatin1 (c :: s)))|];
          try exact Hre;
          destruct (looksLikeGarbled (c :: s)); try exact Hre; discriminate.
    + destruct (negb (isValidUTF8 (c :: s)));
        [destruct (containsChinese (reinterpretLatin1 (c :: s)))|];
        try exact Hre;
        destruct (looksLikeGarbled (c :: s)); try exact Hre; discriminate.
  - destruct (negb (isValidUTF8 (c :: s)));
      [destruct (containsChinese (reinterpretLatin1 (c :: s)))|];
      try exact Hre;
      destruct (looksLikeGarbled (c :: s)); try exact Hre; discriminate.
Qed.

Lemma utf8_round_trip_ascii (s : jsstring) :
  isAscii s -> utf8Decode (utf8Encode s) = s.
Proof.
  unfold utf8Decode. induction 1 as [|c s Hc Hs IH]; [reflexivity|].
  simpl. unfold isHighSurrogate, isLowSurrogate, inRange.
  destruct (Z.leb_spec 55296 c); [lia|]. cbn [andb].
  destruct (Z.leb_spec 56320 c); [lia|]. cbn [andb].
  unfold utf8OfCodePoint. destruct (Z.ltb_spec c 128); [|lia].
  simpl. unfold utf8Step, utf8Lead, inRange. simpl.
  destruct (Z.leb_spec 0 c); [|lia]. destruct (Z.leb_spec c 127); [|lia].
  simpl. now rewrite IH.
Qed.

Lemma ascii_not_garbled (s : jsstring) : isAscii s -> looksLikeGarbled s = false.
Proof.
  intros Hs. unfold looksLikeGarbled.
  assert (H : existsb garbledUnit s = false).
  { induction Hs as [|c s Hc Hs IH]; [reflexivity|]. simpl. rewrite IH.
    unfold garbledUnit, inRange.
    destruct (Z.leb_spec 229 c); [lia|]. destruct (Z.leb_spec 232 c); [lia|].
    destruct (Z.leb_spec 248 c); [lia|]. reflexivity. }
  now rewrite H.
Qed.

(** X8. A non-empty ASCII name that URL decoding does not apply to (no
    percent sign, or escapes that are malformed) is returned as it is. *)
Theorem decodeFileName_ascii_unchanged (fileName : jsstring) :
  fileName <> [] ->
  isAscii fileName ->
  includesUnit percent fileName = false \/ decodeURIComponent fileName = None ->
  decodeFileName fileName = fileName.
Proof.
  intros Hne Hascii Hpct. apply decodeFileName_plain; auto.
  - unfold isValidUTF8. rewrite utf8_round_trip_ascii by exact Hascii.
    apply jsEqb_eq. reflexivity.
  - now apply ascii_not_garbled.
Qed.

Lemma decodeFileName_ascii_unchanged_witness :
  units "save 100%.zip" <> []
  /\ isAscii (units "save 100%.zip")
  /\ (includesUnit percent (units "save 100%.zip") = false
      \/ decodeURIComponent (units "save 100%.zip") = None)
  /\ decodeFileName (units "save 100%.zip") = units "save 100%.zip".
Proof.
  assert (Hne : units "save 100%.zip" <> []) by discriminate.
  assert (Hascii : isAscii (units "save 100%.zip"))
    by (repeat constructor; vm_compute; discriminate).
  assert (Hpct : includesUnit percent (units "save 100%.zip") = false
                 \/ decodeURIComponent (units "save 100%.zip") = None)
    by (right; reflexivity).
  split; [exact Hne|]. split; [exact Hascii|]. split; [exact Hpct|].
  exact (decodeFileName_ascii_unchanged _ Hne Hascii Hpct).
Defined.

End NormalizerMore.

(** ** Analysis: edge cases of full mode *)

Section AnalysisMore.
Import Js Analysis.

(** Unfolds a successful run of [fullAnalysis]. *)
Ltac open_full H :=
  unfold fullAnalysis in H;
  repeat
    match type of H with
    | bind (deref ?o) _ = Ok _ =>
        let E := fresh "E" in
        destruct o eqn:E; cbn [deref bind] in H; [|discriminate H]
    end;
  injection H as <-.

(** A full report, and the structures of the save it was computed from. *)
Lemma analyze_full_parts (saveData : option SaveData)
    (r : FactorioAnalysisResult) :
  analyzeFactorioSave saveData = Ok r ->
  fullAnalysisAvailable r = true ->
  exists sd g m s,
    fullAnalysis sd g m s = Ok r
    /\ gameOf saveData = Some g
    /\ firstSurfaceOf saveData = Some s.
Proof.
  intros H Hfull.
  destruct (analyze_full_inv _ _ H Hfull) as (sd & g & m & s & Hs & Hr).
  apply snapshot_Some in Hs. destruct Hs as (_ & Hg & _ & Hsurf).
  now exists sd, g, m, s.
Qed.

(** X9. The technology ratio is not guarded: with no technology at all the
    rate is printed as ["NaN%"] and the score is [NaN]. *)
Theorem no_technology_gives_NaN
    (saveData : option SaveData) (r : FactorioAnalysisResult) :
  analyzeFactorioSave saveData = Ok r ->
  fullAnalysisAvailable r = true ->
  technologiesOf saveData = Some [] ->
  totalTechCount (techStatus (develop r)) = 0%nat
  /\ techRate (techStatus (develop r)) = "NaN%"
  /\ score (develop r) = NaN.
Proof.
  intros H Hfull Htech.
  destruct (analyze_full_parts _ _ H Hfull) as (sd & g & m & s & Hr & Hg & _).
  unfold technologiesOf, playerOf in Htech. rewrite Hg in Htech.
  open_full Hr.
  injection Htech as ->.
  cbn [develop techStatus totalTechCount techRate score List.map filter
       List.length].
  repeat split.
Qed.

Lemma no_technology_gives_NaN_witness :
  technologiesOf (Some emptySnapshot) = Some []
  /\ exists r,
       analyzeFactorioSave (Some emptySnapshot) = Ok r
       /\ fullAnalysisAvailable r = true
       /\ techRate (techStatus (develop r)) = "NaN%"
       /\ score (develop r) = NaN.
Proof.
  split; [reflexivity|].
  eexists. split; [vm_compute; reflexivity|]. split; [reflexivity|].
  match goal with
  | |- techRate (techStatus (develop ?r)) = _ /\ _ =>
      destruct (no_technology_gives_NaN (Some emptySnapshot) r
                  ltac:(vm_compute; reflexivity) eq_refl eq_refl)
        as (_ & Hrate & Hscore)
  end.
  split; [exact Hrate | exact Hscore].
Defined.

(** *** Counting technologies *)

Lemma lookup_NoDup {A : Type} (l : list (string * A)) (k : string) (v : A) :
  NoDup (List.map fst l) -> In (k, v) l -> lookup k l = Some v.
Proof.
  induction l as [|[k' v'] l IH]; simpl; intros Hnd Hin; [contradiction|].
  inversion Hnd as [|? ? Hnotin Hnd']; subst.
  destruct Hin as [[= -> ->] | Hin]; [now rewrite String.eqb_refl|].
  destruct (String.eqb_spec k' k) as [->|Hne]; [|now apply IH].
  exfalso. apply Hnotin. apply in_map_iff. now exists (k, v).
Qed.

Lemma filter_map_fst {A : Type} (p : string -> bool) (l : list (string * A)) :
  filter p (List.map fst l) = List.map fst (filter (fun kv => p (fst kv)) l).
Proof.
  induction l as [|kv l IH]; simpl; [reflexivity|].
  destruct (p (fst kv)); simpl; now rewrite IH.
Qed.

(** X10. The technology counts of a full report: the total is the number of
    technologies of the player force and, their names being distinct, the
    researched count is the number of those flagged as researched; it never
    exceeds the total. *)
Theorem technology_counts
    (saveData : option SaveData) (r : FactorioAnalysisResult)
    (techs : list (string * Technology)) :
  analyzeFactorioSave saveData = Ok r ->
  fullAnalysisAvailable r = true ->
  technologiesOf saveData = Some techs ->
  NoDup (List.map fst techs) ->
  totalTechCount (techStatus (develop r)) = List.length techs
  /\ researchedCount (techStatus (develop r))
     = List.length (filter (fun kv => researched (snd kv)) techs)
  /\ (researchedCount (techStatus (develop r))
      <= totalTechCount (techStatus (develop r)))%nat.
Proof.
  intros H Hfull Htech Hnd.
  destruct (analyze_full_parts _ _ H Hfull) as (sd & g & m & s & Hr & Hg & _).
  unfold technologiesOf, playerOf in Htech. rewrite Hg in Htech.
  open_full Hr. injection Htech as ->.
  cbn [develop techStatus totalTechCount researchedCount].
  rewrite length_map, filter_map_fst, length_map.
  rewrite (filter_ext_in _ (fun kv => researched (snd kv))).
  - repeat split. apply filter_length_le.
  - intros [k v] Hin. simpl. now rewrite (lookup_NoDup techs k v Hnd Hin).
Qed.

Lemma technology_counts_witness :
  technologiesOf (Some demoSave) = Some demoTechnologies
  /\ NoDup (List.map fst demoTechnologies)
  /\ exists r,
       analyzeFactorioSave (Some demoSave) = Ok r
       /\ fullAnalysisAvailable r = true
       /\ totalTechCount (techStatus (develop r)) = 80%nat
       /\ researchedCount (techStatus (develop r)) = 40%nat.
Proof.
  assert (Hnd : NoDup (List.map fst demoTechnologies)).
  { apply (NoDup_map_inv (fun k => Z.of_uint (match NilEmpty.uint_of_string k with
                                              | Some d => d
                                              | None => Decimal.Nil
                                              end))).
    vm_compute. repeat (constructor; [simpl; intuition discriminate|]).
    constructor. }
  split; [reflexivity|]. split; [exact Hnd|].
  eexists. split; [vm_compute; reflexivity|]. split; [reflexivity|].
  match goal with
  | |- totalTechCount (techStatus (develop ?r)) = _ /\ _ =>
      destruct (technology_counts (Some demoSave) r demoTechnologies
                  ltac:(vm_compute; reflexivity) eq_refl eq_refl Hnd)
        as (Htotal & Hres & _)
  end.
  split; [rewrite Htotal | rewrite Hres]; reflexivity.
Defined.

(** *** The elapsed hours and the score *)

Lemma min_Fin (a b : Q) :
  (min (Fin a) (Fin b) = Fin a /\ a <= b)%Q
  \/ (min (Fin a) (Fin b) = Fin b /\ b <= a)%Q.
Proof.
  unfold min, compare. destruct (Qcompare_spec a b) as [H|H|H].
  - left. split; [reflexivity | rewrite H; apply Qle_refl].
  - left. split; [reflexivity | now apply Qlt_le_weak].
  - right. split; [reflexivity | now apply Qlt_le_weak].
Qed.

Lemma inject_nat_pos_nonzero (n : nat) :
  (0 < n)%nat -> Qeq_bool (inject_Z (Z.of_nat n)) 0 = false.
Proof.
  intros Hn. destruct (Qeq_bool (inject_Z (Z.of_nat n)) 0) eqn:Hq; [|reflexivity].
  apply Qeq_bool_eq in Hq. unfold Qeq in Hq. simpl in Hq. lia.
Qed.

Lemma techScoreOf_range (rn tn : nat) :
  (0 < tn)%nat -> (rn <= tn)%nat ->
  exists v, techScoreOf rn tn = Fin v /\ (0 <= v <= 50)%Q.
Proof.
  intros Htn Hle. unfold techScoreOf, div, mul, ofNat, ofZ.
  rewrite inject_nat_pos_nonzero by exact Htn.
  set (x := (inject_Z (Z.of_nat rn) / inject_Z (Z.of_nat tn) * inject_Z 50)%Q).
  assert (Hx : (0 <= x <= 50)%Q).
  { assert (Ht : (0 < inject_Z (Z.of_nat tn))%Q)
      by (unfold Qlt; simpl; lia).
    assert (Hr0 : (0 <= inject_Z (Z.of_nat rn))%Q)
      by (unfold Qle; simpl; lia).
    assert (Hrt : (inject_Z (Z.of_nat rn) <= inject_Z (Z.of_nat tn))%Q)
      by (unfold Qle; simpl; lia).
    assert (H0 : (0 <= inject_Z (Z.of_nat rn) / inject_Z (Z.of_nat tn))%Q).
    { apply Qle_shift_div_l; [exact Ht | lra]. }
    assert (H1 : (inject_Z (Z.of_nat rn) / inject_Z (Z.of_nat tn) <= 1)%Q).
    { apply Qle_shift_div_r; [exact Ht | lra]. }
    unfold x. change (inject_Z 50) with 50%Q. split; nra. }
  change (inject_Z 50) with 50%Q in *.
  destruct (min_Fin 50 x) as [[-> _] | [-> _]].
  - exists 50%Q. split; [reflexivity | lra].
  - exists x. split; [reflexivity | exact Hx].
Qed.

Lemma stageScoreOf_range (h : num) :
  h = NaN \/ (exists hv, h = Fin hv /\ (0 <= hv)%Q) ->
  exists v, stageScoreOf h = Fin v /\ (0 <= v <= 50)%Q.
Proof.
  intros [-> | (hv & -> & Hhv)].
  - exists 50%Q. split; [reflexivity | lra].
  - unfold stageScoreOf, lt, compare, ofZ. change (inject_Z 10) with 10%Q.
    destruct (Qcompare_spec hv 10) as [H|H|H].
    + exists 50%Q. split; [reflexivity | lra].
    + unfold div, mul. change (inject_Z 10) with 10%Q.
      change (Qeq_bool 10 0) with false. cbv iota.
      exists (hv / 10 * inject_Z 50)%Q. split; [reflexivity|].
      change (inject_Z 50) with 50%Q.
      assert (Hmul : (hv / 10 * 50 == hv * 5)%Q) by field.
      rewrite Hmul. lra.
    + exists 50%Q. split; [reflexivity | lra].
Qed.

Lemma fixedValue_nonneg (q : Q) : (0 <= q)%Q -> (0 <= fixedValue q)%Q.
Proof.
  intros Hq. unfold fixedValue. apply Qle_bool_iff in Hq. rewrite Hq.
  rewrite fixedMagnitude_eq. pose proof (hundredths_nonneg q) as Hn.
  assert (H0 : (0 <= inject_Z (hundredths q))%Q) by (unfold Qle; simpl; lia).
  apply Qle_shift_div_l; lra.
Qed.

(** The hours compared with the thresholds, from the tick of the save. *)
Lemma elapsedHours_of_tick (o : option Q) :
  Number (toFixed2 (div (div (ofOption o) (ofZ 60)) (ofZ 60)))
  = match o with
    | Some t => Fin (fixedValue (t / inject_Z 60 / inject_Z 60))
    | None => NaN
    end.
Proof.
  destruct o as [t|]; [|reflexivity].
  unfold ofOption, div, ofZ. change (Qeq_bool (inject_Z 60) 0) with false.
  cbv iota. apply Number_toFixed2.
Qed.

(** X11. With at least one technology and a tick that is absent or not
    negative, the development score is a whole number between 0 and 100. *)
Theorem score_between_0_and_100
    (saveData : option SaveData) (r : FactorioAnalysisResult)
    (techs : list (string * Technology)) :
  analyzeFactorioSave saveData = Ok r ->
  fullAnalysisAvailable r = true ->
  technologiesOf saveData = Some techs ->
  techs <> [] ->
  match tickOf saveData with
  | Some t => (0 <= t)%Q
  | None => True
  end ->
  exists z, score (develop r) = ofZ z /\ (0 <= z <= 100)%Z.
Proof.
  intros H Hfull Htech Hne Htick.
  destruct (analyze_full_parts _ _ H Hfull) as (sd & g & m & s & Hr & Hg & _).
  unfold technologiesOf, playerOf in Htech. unfold tickOf in Htick.
  rewrite Hg in Htech, Htick.
  open_full Hr. injection Htech as ->.
  cbn [develop score]. rewrite elapsedHours_of_tick.
  set (rn := List.length (filter _ _)). set (tn := List.length _).
  assert (Htn : (0 < tn)%nat).
  { unfold tn. rewrite length_map. destruct techs; [contradiction | simpl; lia]. }
  assert (Hrn : (rn <= tn)%nat) by apply filter_length_le.
  destruct (techScoreOf_range rn tn Htn Hrn) as (a & Ha & Ha').
  set (h := match tick g with Some t => _ | None => NaN end).
  assert (Hh : h = NaN \/ exists hv, h = Fin hv /\ (0 <= hv)%Q).
  { unfold h. destruct (tick g) as [t|]; [right | now left].
    eexists. split; [reflexivity|]. apply fixedValue_nonneg.
    change (inject_Z 60) with 60%Q.
    assert (Hdiv : (t / 60 / 60 == t / 3600)%Q) by field.
    rewrite Hdiv. apply Qle_shift_div_l; lra. }
  destruct (stageScoreOf_range h Hh) as (b & Hb & Hb').
  unfold scoreOf. rewrite Ha, Hb. cbn [add round]. unfold ofZ.
  assert (Hz : (0 <= roundQ (a + b) <= 100)%Z).
  { unfold roundQ. split.
    - assert (Hf : (Qfloor 0 <= Qfloor (a + b + (1 # 2)))%Z)
        by (apply Qfloor_resp_le; lra).
      exact Hf.
    - assert (Hf : (Qfloor (a + b + (1 # 2)) <= Qfloor (100 + (1 # 2)))%Z)
        by (apply Qfloor_resp_le; lra).
      exact Hf. }
  destruct (min_Fin (inject_Z 100) (inject_Z (roundQ (a + b))))
    as [[-> _] | [-> _]].
  - exists 100%Z. split; [reflexivity | lia].
  - exists (roundQ (a + b)). split; [reflexivity | exact Hz].
Qed.

Lemma score_between_0_and_100_witness :
  technologiesOf (Some demoSave) = Some demoTechnologies
  /\ demoTechnologies <> []
  /\ exists r,
       analyzeFactorioSave (Some demoSave) = Ok r
       /\ fullAnalysisAvailable r = true
       /\ exists z, score (develop r) = ofZ z /\ (0 <= z <= 100)%Z.
Proof.
  assert (Hne : demoTechnologies <> []) by discriminate.
  split; [reflexivity|]. split; [exact Hne|].
  eexists. split; [vm_compute; reflexivity|]. split; [reflexivity|].
  match goal with
  | |- exists z, score (develop ?r) = _ /\ _ =>
      exact (score_between_0_and_100 (Some demoSave) r demoTechnologies
               ltac:(vm_compute; reflexivity) eq_refl eq_refl Hne
               ltac:(vm_compute; discriminate))
  end.
Defined.

(** *** The tick and the elapsed hours *)

(** X12. A save whose game state has no tick is reported with the elapsed
    time ["NaN"] and, every comparison with it failing, in the last stage. *)
Theorem missing_tick_reads_as_endgame
    (saveData : option SaveData) (r : FactorioAnalysisResult) :
  analyzeFactorioSave saveData = Ok r ->
  fullAnalysisAvailable r = true ->
  tickOf saveData = None ->
  gameTimeHour (basic r) = "NaN" /\ stage (develop r) = EndGame.
Proof.
  intros H Hfull Htick.
  destruct (analyze_full_parts _ _ H Hfull) as (sd & g & m & s & Hr & Hg & _).
  unfold tickOf in Htick. rewrite Hg in Htick.
  open_full Hr. cbn [basic develop gameTimeHour stage].
  rewrite Htick. split; reflexivity.
Qed.

Lemma missing_tick_reads_as_endgame_witness :
  tickOf (Some (saveWith None demoForce [])) = None
  /\ exists r,
       analyzeFactorioSave (Some (saveWith None demoForce [])) = Ok r
       /\ fullAnalysisAvailable r = true
       /\ gameTimeHour (basic r) = "NaN" /\ stage (develop r) = EndGame.
Proof.
  split; [reflexivity|].
  eexists. split; [vm_compute; reflexivity|]. split; [reflexivity|].
  match goal with
  | |- gameTimeHour (basic ?r) = _ /\ _ =>
      exact (missing_tick_reads_as_endgame
               (Some (saveWith None demoForce [])) r
               ltac:(vm_compute; reflexivity) eq_refl eq_refl)
  end.
Defined.

(** X13. The elapsed hours are the tick divided by 3600 and rounded to two
    decimals: read back as a number, the printed value is within half a
    hundredth of the quotient. *)
Theorem elapsed_hours_rounded
    (saveData : option SaveData) (r : FactorioAnalysisResult) (t : Q) :
  analyzeFactorioSave saveData = Ok r ->
  fullAnalysisAvailable r = true ->
  tickOf saveData = Some t ->
  exists h,
    elapsedHoursOf r = Fin h /\ (Qabs (h - t / 3600) <= 1 # 200)%Q.
Proof.
  intros H Hfull Htick.
  destruct (analyze_full_parts _ _ H Hfull) as (sd & g & m & s & Hr & Hg & _).
  unfold tickOf in Htick. rewrite Hg in Htick.
  open_full Hr. unfold elapsedHoursOf. cbn [basic gameTimeHour].
  rewrite elapsedHours_of_tick, Htick.
  eexists. split; [reflexivity|].
  change (inject_Z 60) with 60%Q.
  assert (Hdiv : (t / 3600 == t / 60 / 60)%Q) by field.
  rewrite Hdiv. apply fixedValue_close.
Qed.

Lemma elapsed_hours_rounded_witness :
  tickOf (Some demoSave) = Some 18000%Q
  /\ exists r,
       analyzeFactorioSave (Some demoSave) = Ok r
       /\ fullAnalysisAvailable r = true
       /\ exists h,
            elapsedHoursOf r = Fin h
            /\ (Qabs (h - 18000 / 3600) <= 1 # 200)%Q.
Proof.
  split; [reflexivity|].
  eexists. split; [vm_compute; reflexivity|]. split; [reflexivity|].
  match goal with
  | |- exists h, elapsedHoursOf ?r = _ /\ _ =>
      exact (elapsed_hours_rounded (Some demoSave) r 18000%Q
               ltac:(vm_compute; reflexivity) eq_refl eq_refl)
  end.
Defined.

(** *** Suggestions *)

Lemma concat3_nil {A : Type} (a b c : list A) :
  (a ++ b ++ c ++ [])%list = [] <-> a = [] /\ b = [] /\ c = [].
Proof.
  rewrite app_nil_r. split.
  - intros H. apply app_eq_nil in H. destruct H as [Ha H].
    apply app_eq_nil in H. tauto.
  - intros (-> & -> & ->). reflexivity.
Qed.

Lemma incl_concat3 {A : Type} (a b c : list A) :
  incl a (a ++ b ++ c ++ [])%list
  /\ incl b (a ++ b ++ c ++ [])%list
  /\ incl c (a ++ b ++ c ++ [])%list.
Proof.
  rewrite app_nil_r.
  repeat split; intros x Hx; rewrite !in_app_iff; tauto.
Qed.

(** X14. Every alert of a dimension reaches the suggestions: resource alerts
    are urgent, efficiency alerts are important, the threat alert is urgent
    at the highest level and important at the level below it. No urgent
    suggestion is made exactly when power is not insufficient, no resource
    alert is raised and the threat is not at the highest level; likewise for
    the important ones. *)
Theorem alerts_reach_suggestions
    (saveData : option SaveData) (r : FactorioAnalysisResult) :
  analyzeFactorioSave saveData = Ok r ->
  fullAnalysisAvailable r = true ->
  let sug := optimizeSuggestions r in
  incl (coreResAlert (resource r)) (urgent sug)
  /\ incl (efficiencyAlert (production r)) (important sug)
  /\ (threatLevel (enemy r) = Critical ->
      threatAlert (enemy r) <> [] /\ incl (threatAlert (enemy r)) (urgent sug))
  /\ (threatLevel (enemy r) = High ->
      threatAlert (enemy r) <> [] /\ incl (threatAlert (enemy r)) (important sug))
  /\ (urgent sug = []
      <-> powerStatus (power r) <> Insufficient
          /\ coreResAlert (resource r) = []
          /\ threatLevel (enemy r) <> Critical)
  /\ (important sug = []
      <-> powerStatus (power r) <> Tight
          /\ efficiencyAlert (production r) = []
          /\ threatLevel (enemy r) <> High).
Proof.
  intros H Hfull.
  destruct (analyze_full_parts _ _ H Hfull) as (sd & g & m & s & Hr & _).
  open_full Hr. clear H Hfull.
  match goal with
  | |- context [mkResource _ _ _ ?x] => set (resAlerts := x)
  end.
  match goal with
  | |- context [mkProduction _ _ ?x] => set (effAlerts := x)
  end.
  cbv zeta.
  cbn [optimizeSuggestions urgent important resource coreResAlert production
       efficiencyAlert enemy threatLevel threatAlert power powerStatus].
  set (status := powerStatusOf _). set (level := threatLevelOf _).
  match goal with
  | |- context [(?a ++ resAlerts ++ ?c ++ [])%list] =>
      pose proof (incl_concat3 a resAlerts c) as (_ & Hres & Hc);
      pose proof (concat3_nil a resAlerts c) as Hu
  end.
  match goal with
  | |- context [(?a ++ effAlerts ++ ?c ++ [])%list] =>
      pose proof (incl_concat3 a effAlerts c) as (_ & Heff & Hc');
      pose proof (concat3_nil a effAlerts c) as Hi
  end.
  split; [exact Hres|]. split; [exact Heff|].
  destruct level; destruct status; cbn [firstAlert] in *;
    (split; [intros Hl; first [discriminate Hl | split; [discriminate | assumption]]|]);
    (split; [intros Hl; first [discriminate Hl | split; [discriminate | assumption]]|]);
    rewrite Hu, Hi; clear; intuition congruence.
Qed.

Lemma alerts_reach_suggestions_witness :
  exists r,
    analyzeFactorioSave (Some demoSave) = Ok r
    /\ fullAnalysisAvailable r = true
    /\ threatLevel (enemy r) = High
    /\ efficiencyAlert (production r) <> []
    /\ incl (efficiencyAlert (production r)) (important (optimizeSuggestions r))
    /\ incl (threatAlert (enemy r)) (important (optimizeSuggestions r)).
Proof.
  eexists. split; [vm_compute; reflexivity|]. split; [reflexivity|].
  split; [reflexivity|]. split; [discriminate|].
  match goal with
  | |- incl (efficiencyAlert (production ?r)) _ /\ _ =>
      pose proof (alerts_reach_suggestions (Some demoSave) r
                    ltac:(vm_compute; reflexivity) eq_refl) as Hw
  end.
  cbv zeta in Hw. destruct Hw as (_ & Heff & _ & Hhigh & _).
  split; [exact Heff | exact (proj2 (Hhigh eq_refl))].
Defined.

(** *** Power: the guard against a zero divisor *)

Lemma roundQ_small (t : Q) : (0 < t)%Q -> (t < 1 # 2)%Q -> roundQ t = 0%Z.
Proof.
  intros H0 H1. unfold roundQ.
  assert (Hlo : (Qfloor 0 <= Qfloor (t + (1 # 2)))%Z)
    by (apply Qfloor_resp_le; lra).
  assert (Hhi : (inject_Z (Qfloor (t + (1 # 2))) < inject_Z 1)%Q).
  { apply Qle_lt_trans with (t + (1 # 2))%Q; [apply Qfloor_le|].
    change (inject_Z 1) with 1%Q. lra. }
  rewrite <- Zlt_Qlt in Hhi. change (Qfloor 0) with 0%Z in Hlo. lia.
Qed.

(** X15. The fallback [|| 1] of the consumption counter does not keep the
    divisor away from zero: a counter strictly between 0 and one half is
    truthy and rounds to 0. The ratio is then printed as ["Infinity"] and
    the status is sufficient when the rounded production is positive, and
    printed as ["NaN"] with the status insufficient when it is zero. *)
Theorem small_consumption_divides_by_zero
    (saveData : option SaveData) (r : FactorioAnalysisResult)
    (cons : PowerConsumption) (t : Q) :
  analyzeFactorioSave saveData = Ok r ->
  fullAnalysisAvailable r = true ->
  consumptionOf saveData = Some cons ->
  consumption_total cons = Some t ->
  (0 < t)%Q -> (t < 1 # 2)%Q ->
  totalConsumption (power r) = 0%Z
  /\ ((0 < totalProduction (power r))%Z ->
      powerRatio (power r) = "Infinity"
      /\ powerStatus (power r) = Sufficient)
  /\ (totalProduction (power r) = 0%Z ->
      powerRatio (power r) = "NaN"
      /\ powerStatus (power r) = Insufficient).
Proof.
  intros H Hfull Hcons Ht H0 H1.
  destruct (analyze_full_parts _ _ H Hfull) as (sd & g & m & s & Hr & Hg & _).
  unfold consumptionOf, statsOf, playerOf in Hcons. rewrite Hg in Hcons.
  open_full Hr. injection Hcons as ->.
  cbn [power totalConsumption totalProduction powerRatio powerStatus].
  rewrite Ht.
  assert (Hc : roundQ (orElse (Some t) 1) = 0%Z).
  { unfold orElse.
    destruct (Qeq_bool t 0) eqn:Hz.
    - apply Qeq_bool_eq in Hz. lra.
    - now apply roundQ_small. }
  rewrite Hc. split; [reflexivity|].
  set (P := roundQ _).
  split; intros HP.
  - assert (Hd : div (ofZ P) (ofZ 0) = PInf).
    { unfold div, ofZ. change (Qeq_bool (inject_Z 0) 0) with true. cbv iota.
      unfold signedInf.
      assert (Hpos : (0 < inject_Z P)%Q) by (unfold Qlt; simpl; lia).
      destruct (Qcompare_spec (inject_Z P) 0) as [Hq|Hq|Hq];
        [rewrite Hq in Hpos; lra | lra | reflexivity]. }
    unfold div, ofZ in Hd. rewrite Hd. split; reflexivity.
  - rewrite HP. split; reflexivity.
Qed.

Lemma small_consumption_divides_by_zero_witness :
  exists r,
    analyzeFactorioSave (Some (saveWith (Some 0%Q) idleForce [])) = Ok r
    /\ fullAnalysisAvailable r = true
    /\ totalConsumption (power r) = 0%Z
    /\ powerRatio (power r) = "Infinity"
    /\ powerStatus (power r) = Sufficient.
Proof.
  eexists. split; [vm_compute; reflexivity|]. split; [reflexivity|].
  match goal with
  | |- totalConsumption (power ?r) = _ /\ _ =>
      destruct (small_consumption_divides_by_zero
                  (Some (saveWith (Some 0%Q) idleForce [])) r
                  (mkPowerConsumption (Some (1 # 4)%Q)) (1 # 4)%Q
                  ltac:(vm_compute; reflexivity) eq_refl eq_refl eq_refl
                  ltac:(reflexivity) ltac:(reflexivity))
        as (Hzero & Hpos & _)
  end.
  split; [exact Hzero|]. apply Hpos. reflexivity.
Defined.

(** *** Resource alerts *)

Lemma Qltb_lt (a b : Q) : Qltb a b = true <-> (a < b)%Q.
Proof.
  unfold Qltb. rewrite negb_true_iff. split.
  - intros H. apply Qnot_le_lt. intros Hle.
    apply Qle_bool_iff in Hle. congruence.
  - intros H. destruct (Qle_bool b a) eqn:Hb; [|reflexivity].
    apply Qle_bool_iff in Hb. lra.
Qed.

Lemma depletion_test (m rem : Q) :
  Qltb 0 m && Qltb (rem / m) (1 # 10) = true
  <-> (0 < m)%Q /\ (rem * 10 < m)%Q.
Proof.
  rewrite andb_true_iff, !Qltb_lt.
  split; intros [Hm Hr]; (split; [exact Hm|]).
  - assert (Hx : (rem / m * m == rem)%Q) by (field; lra).
    assert (H : (rem / m * m < (1 # 10) * m)%Q)
      by (apply Qmult_lt_r; assumption).
    rewrite Hx in H. lra.
  - apply Qlt_shift_div_r; [exact Hm | lra].
Qed.

(** X16. A depletion alert is raised for a core resource exactly when some
    of it has been mined and ten times what remains on the map is less than
    what has been mined; a resource that was never mined raises none. *)
Theorem depletion_alert_iff
    (saveData : option SaveData) (r : FactorioAnalysisResult)
    (counts : list (string * Q)) (ents : list Entity) (res : string) :
  analyzeFactorioSave saveData = Ok r ->
  fullAnalysisAvailable r = true ->
  outputCountsOf saveData = Some counts ->
  entitiesOf saveData = Some ents ->
  In res coreResources ->
  let minedAmount := orElse (lookup res counts) 0 in
  In (depletionAlert res) (coreResAlert (resource r))
  <-> (0 < minedAmount)%Q /\ (remainingOf res ents * 10 < minedAmount)%Q.
Proof.
  intros H Hfull Hcounts Hents Hres.
  destruct (analyze_full_parts _ _ H Hfull) as (sd & g & m & s & Hr & Hg & Hs).
  unfold outputCountsOf, playerOf in Hcounts. rewrite Hg in Hcounts.
  unfold entitiesOf in Hents. rewrite Hs in Hents.
  open_full Hr. injection Hcounts as ->. injection Hents as ->.
  cbv zeta. cbn [resource coreResAlert].
  clear H Hfull.
  rewrite <- depletion_test.
  unfold coreResources in Hres. simpl in Hres.
  destruct Hres as [<-|[<-|[<-|[<-|[]]]]];
    match goal with
    | |- In (depletionAlert ?x) _ <-> _ =>
        let v := eval vm_compute in (depletionAlert x) in
        change (depletionAlert x) with v
    end;
    repeat match goal with
           | |- context [if ?c then _ else _] => destruct c
           end;
    simpl; intuition congruence.
Qed.

Lemma depletion_alert_iff_witness :
  outputCountsOf (Some demoSave) = Some [("iron-ore", 100%Q)]
  /\ entitiesOf (Some demoSave) = Some demoEntities
  /\ In "iron-ore" coreResources
  /\ exists r,
       analyzeFactorioSave (Some demoSave) = Ok r
       /\ fullAnalysisAvailable r = true
       /\ In (depletionAlert "iron-ore") (coreResAlert (resource r)).
Proof.
  assert (Hin : In "iron-ore" coreResources) by (left; reflexivity).
  split; [reflexivity|]. split; [reflexivity|]. split; [exact Hin|].
  eexists. split; [vm_compute; reflexivity|]. split; [reflexivity|].
  match goal with
  | |- In _ (coreResAlert (resource ?r)) =>
      apply (proj2 (depletion_alert_iff (Some demoSave) r
                      [("iron-ore", 100%Q)] demoEntities "iron-ore"
                      ltac:(vm_compute; reflexivity) eq_refl eq_refl eq_refl Hin))
  end.
  split; vm_compute; reflexivity.
Defined.

(** *** Efficiency alerts *)

Lemma includes_early (st : Stage) :
  includes (stageLabel st) "前期" = true <-> st = Early.
Proof. destruct st; vm_compute; split; congruence. Qed.

(** X17. No efficiency alert is raised exactly when the map holds no stone
    furnace and no burner mining drill and the alert on laboratories does
    not apply, which it does with fewer than five laboratories in the first
    stage; at most three alerts are raised. *)
Theorem efficiency_alerts_iff
    (saveData : option SaveData) (r : FactorioAnalysisResult)
    (ents : list Entity) :
  analyzeFactorioSave saveData = Ok r ->
  fullAnalysisAvailable r = true ->
  entitiesOf saveData = Some ents ->
  (efficiencyAlert (production r) = []
   <-> countNamed "stone-furnace" ents = 0%nat
       /\ countNamed "burner-mining-drill" ents = 0%nat
       /\ ~ ((countNamed "lab" ents < 5)%nat /\ stage (develop r) = Early))
  /\ (List.length (efficiencyAlert (production r)) <= 3)%nat.
Proof.
  intros H Hfull Hents.
  destruct (analyze_full_parts _ _ H Hfull) as (sd & g & m & s & Hr & Hg & Hs).
  unfold entitiesOf in Hents. rewrite Hs in Hents.
  open_full Hr. injection Hents as ->.
  cbn [production efficiencyAlert develop stage]. clear H Hfull.
  set (st := stageOf _ _).
  pose proof (includes_early st) as Hearly.
  destruct (includes (stageLabel st) "前期");
    destruct (Nat.ltb_spec 0 (countNamed "stone-furnace" ents));
    destruct (Nat.ltb_spec 0 (countNamed "burner-mining-drill" ents));
    destruct (Nat.ltb_spec (countNamed "lab" ents) 5);
    cbn [andb List.concat app List.length];
    (split; [|lia]);
    (split; [intros Hnil; try discriminate Hnil | intros (Ha & Hb & Hc)]);
    try lia;
    try (repeat split; try lia; intros [Hl He]; try lia;
         apply Hearly in He; discriminate He);
    try reflexivity;
    try (exfalso; apply Hc; split; [assumption | now apply Hearly]).
Qed.

Lemma efficiency_alerts_iff_witness :
  entitiesOf (Some demoSave) = Some demoEntities
  /\ exists r,
       analyzeFactorioSave (Some demoSave) = Ok r
       /\ fullAnalysisAvailable r = true
       /\ countNamed "stone-furnace" demoEntities = 3%nat
       /\ efficiencyAlert (production r) <> []
       /\ (List.length (efficiencyAlert (production r)) <= 3)%nat.
Proof.
  split; [reflexivity|].
  eexists. split; [vm_compute; reflexivity|]. split; [reflexivity|].
  split; [reflexivity|]. split; [discriminate|].
  match goal with
  | |- (List.length (efficiencyAlert (production ?r)) <= 3)%nat =>
      exact (proj2 (efficiency_alerts_iff (Some demoSave) r demoEntities
                      ltac:(vm_compute; reflexivity) eq_refl eq_refl))
  end.
Defined.

(** *** The suggestion on the technology rate *)

Lemma removeFirstPercent_digits (d : Decimal.uint) (rest : string) :
  removeFirstPercent (NilEmpty.string_of_uint d ++ rest)
  = NilEmpty.string_of_uint d ++ removeFirstPercent rest.
Proof. induction d; simpl; try rewrite IHd; reflexivity. Qed.

Lemma removeFirstPercent_twoDigits (k : Z) :
  (0 <= k < 100)%Z ->
  removeFirstPercent (String "." (twoDigits k) ++ "%") = String "." (twoDigits k).
Proof.
  intros Hk.
  assert (Hall : forallb
            (fun n => String.eqb
                        (removeFirstPercent
                           (String "." (twoDigits (Z.of_nat n)) ++ "%"))
                        (String "." (twoDigits (Z.of_nat n))))
            (seq 0 100) = true) by (vm_compute; reflexivity).
  rewrite forallb_forall in Hall.
  specialize (Hall (Z.to_nat k)). rewrite Z2Nat.id in Hall by lia.
  apply String.eqb_eq. apply Hall. apply in_seq. lia.
Qed.

Lemma append_assoc3 (a b c : string) : (a ++ b) ++ c = a ++ b ++ c.
Proof. induction a as [|x a IH]; simpl; [reflexivity | now rewrite IH]. Qed.

(** Removing the percent sign of a printed rate gives the numeral back. *)
Lemma removeFirstPercent_rate (a : num) :
  removeFirstPercent (toFixed2 a ++ "%") = toFixed2 a.
Proof.
  destruct a as [| | |q]; try reflexivity.
  destruct (toFixed2_unsigned q) as (d & _ & _ & ->).
  pose proof (hundredths_nonneg q) as Hn.
  assert (Hk : (0 <= hundredths q mod 100 < 100)%Z)
    by (apply Z.mod_pos_bound; lia).
  destruct (negb (Qle_bool 0 q)).
  - change ("-" ++ ?s) with (String "-" s). cbn [append removeFirstPercent].
    change (Ascii.eqb "-" "%") with false. cbv iota. f_equal.
    rewrite append_assoc3, removeFirstPercent_digits.
    now rewrite removeFirstPercent_twoDigits.
  - change ("" ++ ?s) with s.
    rewrite append_assoc3, removeFirstPercent_digits.
    now rewrite removeFirstPercent_twoDigits.
Qed.

(** A rate that is not negative prints below 50 exactly when it is below
    49.995. *)
Lemma fixedValue_below_50 (q : Q) :
  (0 <= q)%Q -> ((fixedValue q < 50)%Q <-> (q < 9999 # 200)%Q).
Proof.
  intros Hq. unfold fixedValue.
  rewrite (proj2 (Qle_bool_iff 0 q) Hq), fixedMagnitude_eq.
  unfold hundredths. rewrite (Qabs_pos q Hq).
  set (y := (q * 100 + (1 # 2))%Q).
  pose proof (Qfloor_le y) as Hlo. pose proof (Qlt_floor y) as Hhi.
  rewrite inject_Z_plus in Hhi. change (inject_Z 1) with 1%Q in Hhi.
  assert (Hdiv : (inject_Z (Qfloor y) / 100 == inject_Z (Qfloor y) * (1 # 100))%Q)
    by field.
  rewrite Hdiv. clear Hdiv.
  split; intros H.
  - assert (Hf : (inject_Z (Qfloor y) < 5000)%Q) by lra.
    change 5000%Q with (inject_Z 5000) in Hf. rewrite <- Zlt_Qlt in Hf.
    assert (Hf' : (inject_Z (Qfloor y + 1) <= inject_Z 5000)%Q)
      by (rewrite <- Zle_Qle; lia).
    rewrite inject_Z_plus in Hf'. change (inject_Z 1) with 1%Q in Hf'.
    change (inject_Z 5000) with 5000%Q in Hf'. unfold y in *. lra.
  - assert (Hy : (y < 5000)%Q) by (unfold y; lra).
    assert (Hf : (inject_Z (Qfloor y) < 5000)%Q) by lra.
    lra.
Qed.

Lemma lt_Fin (a b : Q) : lt (Fin a) (Fin b) = true <-> (a < b)%Q.
Proof.
  unfold lt, compare. destruct (Qcompare_spec a b) as [H|H|H];
    split; intros H'; try discriminate; try reflexivity; try lra.
Qed.

Lemma rate_below (rn tn : nat) :
  (0 < tn)%nat ->
  (inject_Z (Z.of_nat rn) / inject_Z (Z.of_nat tn) * inject_Z 100 < 9999 # 200)%Q
  <-> (20000 * Z.of_nat rn < 9999 * Z.of_nat tn)%Z.
Proof.
  intros Htn.
  assert (Hb : (0 < inject_Z (Z.of_nat tn))%Q) by (unfold Qlt; simpl; lia).
  set (a := inject_Z (Z.of_nat rn)) in *. set (b := inject_Z (Z.of_nat tn)) in *.
  change (inject_Z 100) with 100%Q.
  assert (Hmid : (a / b * 100 < 9999 # 200)%Q <-> (a * 20000 < 9999 * b)%Q).
  { assert (Hab : (a / b * b == a)%Q) by (field; lra).
    split; intros H.
    - assert (H' : (a / b * b < (9999 # 20000) * b)%Q)
        by (apply Qmult_lt_r; [exact Hb | lra]).
      rewrite Hab in H'. lra.
    - assert (H' : (a / b < 9999 # 20000)%Q)
        by (apply Qlt_shift_div_r; [exact Hb | lra]).
      lra. }
  rewrite Hmid. unfold a, b.
  change 20000%Q with (inject_Z 20000). change 9999%Q with (inject_Z 9999).
  rewrite <- !inject_Z_mult, <- Zlt_Qlt. lia.
Qed.

(** X18. The suggestion on the technology rate is made exactly when the rate
    as printed, with two decimals, is below 50: with at least one
    technology and fewer than 49.995 percent of them researched. With no
    technology at all, the rate being ["NaN%"], it is not made. *)
Theorem low_rate_suggestion_iff
    (saveData : option SaveData) (r : FactorioAnalysisResult) :
  analyzeFactorioSave saveData = Ok r ->
  fullAnalysisAvailable r = true ->
  let researchedN := researchedCount (techStatus (develop r)) in
  let totalN := totalTechCount (techStatus (develop r)) in
  In (lowRateSuggestion (techRate (techStatus (develop r))))
     (suggest (optimizeSuggestions r))
  <-> (0 < totalN)%nat
      /\ (20000 * Z.of_nat researchedN < 9999 * Z.of_nat totalN)%Z.
Proof.
  intros H Hfull.
  destruct (analyze_full_parts _ _ H Hfull) as (sd & g & m & s & Hr & _).
  open_full Hr. clear H Hfull. cbv zeta.
  cbn [develop techStatus researchedCount totalTechCount techRate
       optimizeSuggestions suggest].
  set (rn := List.length (filter _ _)). set (tn := List.length (List.map _ _)).
  assert (Hle : (rn <= tn)%nat) by apply filter_length_le.
  rewrite removeFirstPercent_rate.
  assert (Hother : forall (rate : string) (other : bool),
            In (lowRateSuggestion rate)
               ((if other
                 then ["核心基础材料（铁板+铜板）储备不足1000，建议提升冶炼产能"]
                 else []) ++ [])%list -> False).
  { intros rate other Hin. destruct other; simpl in Hin; [|exact Hin].
    destruct Hin as [Hin|[]]. unfold lowRateSuggestion in Hin.
    simpl in Hin. discriminate Hin. }
  destruct (Nat.eq_dec tn 0) as [Hz|Hnz].
  - assert (Hrn : rn = 0%nat) by lia. rewrite Hz, Hrn.
    change (Qeq_bool (inject_Z (Z.of_nat 0)) 0) with true. cbv iota.
    change (mul (signedInf (inject_Z (Z.of_nat 0))) (ofZ 100)) with NaN.
    cbn [toFixed2]. change (lt (Number "NaN") (ofZ 50)) with false.
    cbv iota. cbn [List.concat app].
    split; [intros Hin; exfalso; eapply Hother; exact Hin | lia].
  - rewrite inject_nat_pos_nonzero by lia. cbn [mul ofZ].
    rewrite Number_toFixed2.
    set (q := (inject_Z (Z.of_nat rn) / inject_Z (Z.of_nat tn) * inject_Z 100)%Q).
    assert (Hq : (0 <= q)%Q).
    { unfold q. change (inject_Z 100) with 100%Q.
      assert (Ht : (0 < inject_Z (Z.of_nat tn))%Q) by (unfold Qlt; simpl; lia).
      assert (Hr0 : (0 <= inject_Z (Z.of_nat rn))%Q) by (unfold Qle; simpl; lia).
      assert (H0 : (0 <= inject_Z (Z.of_nat rn) / inject_Z (Z.of_nat tn))%Q)
        by (apply Qle_shift_div_l; [exact Ht | lra]).
      lra. }
    assert (Hiff : lt (Fin (fixedValue q)) (ofZ 50) = true
                   <-> (0 < tn)%nat
                       /\ (20000 * Z.of_nat rn < 9999 * Z.of_nat tn)%Z).
    { unfold ofZ. change (inject_Z 50) with 50%Q.
      rewrite lt_Fin, (fixedValue_below_50 q Hq). unfold q.
      rewrite rate_below by lia. intuition lia. }
    destruct (lt (Fin (fixedValue q)) (ofZ 50)).
    + cbn [List.concat app]. split; [intros _; now apply Hiff|].
      intros _. left. reflexivity.
    + cbn [List.concat app]. split.
      * intros Hin. exfalso. eapply Hother. exact Hin.
      * intros Hc. apply Hiff in Hc. discriminate Hc.
Qed.

Lemma low_rate_suggestion_iff_witness :
  exists r,
    analyzeFactorioSave (Some demoSave) = Ok r
    /\ fullAnalysisAvailable r = true
    /\ techRate (techStatus (develop r)) = "50.00%"
    /\ ~ In (lowRateSuggestion "50.00%") (suggest (optimizeSuggestions r)).
Proof.
  eexists. split; [vm_compute; reflexivity|]. split; [reflexivity|].
  split; [reflexivity|].
  match goal with
  | |- ~ In _ (suggest (optimizeSuggestions ?r)) =>
      pose proof (low_rate_suggestion_iff (Some demoSave) r
                    ltac:(vm_compute; reflexivity) eq_refl) as Hw
  end.
  cbv zeta in Hw. intros Hin. apply Hw in Hin.
  destruct Hin as [_ Hin]. vm_compute in Hin. discriminate Hin.
Defined.

End AnalysisMore.

(** ** The locator: a native save is always located *)

Section LocatorMore.
Import Locator.

(** X19. An archive that holds the header where the game puts it, at the
    top or in a folder, with either separator, is never reported as lacking
    it: [findLevelInitInZip] returns an entry of the listing whose
    normalized path ends with the basename, the first one in listing
    order. *)
Theorem native_header_is_found (files : list ZipEntry) (f : ZipEntry) :
  In f files ->
  specMatches LEVEL_INIT_NAME f ->
  exists before g after,
    findLevelInitInZip files = Some g
    /\ files = (before ++ g :: after)%list
    /\ (exists pre, normalizedPath g = pre ++ LEVEL_INIT_NAME)
    /\ Forall (fun x => forall pre, normalizedPath x <> pre ++ LEVEL_INIT_NAME)
         before.
Proof.
  intros Hin Hspec. apply specMatches_isLevelInit in Hspec.
  destruct (findLevelInitInZip files) as [g|] eqn:Hfind.
  - apply findLevelInitInZip_first in Hfind.
    destruct Hfind as (b & a & Hfiles & Hg & Hb).
    exists b, g, a. split; [reflexivity|]. split; [exact Hfiles|].
    split; [now apply isLevelInit_iff|].
    apply Forall_forall. intros x Hx pre Hpre.
    rewrite Forall_forall in Hb. specialize (Hb x Hx).
    assert (Hx' : isLevelInit x = true) by (apply isLevelInit_iff; eauto).
    congruence.
  - apply findLevelInitInZip_none in Hfind. rewrite Forall_forall in Hfind.
    specialize (Hfind f Hin). congruence.
Qed.

Lemma native_header_is_found_witness :
  In (mkEntry (Some "base/level-init.dat") "other") nativeListing
  /\ specMatches LEVEL_INIT_NAME (mkEntry (Some "base/level-init.dat") "other")
  /\ exists g, findLevelInitInZip nativeListing = Some g /\ buffer g = "header".
Proof.
  assert (Hin : In (mkEntry (Some "base/level-init.dat") "other") nativeListing)
    by (simpl; tauto).
  assert (Hspec : specMatches LEVEL_INIT_NAME
                    (mkEntry (Some "base/level-init.dat") "other"))
    by (right; exists "base"; reflexivity).
  split; [exact Hin|]. split; [exact Hspec|].
  destruct (native_header_is_found nativeListing _ Hin Hspec)
    as (b & g & a & Hfind & _).
  exists g. split; [exact Hfind|].
  vm_compute in Hfind. injection Hfind as <-. reflexivity.
Defined.

End LocatorMore.

(** ** The stored name and the analyze pipeline *)

Section ExtensionFacts.
Import Text Storage Service.

(** *** [path.extname] stays inside the last path component *)

Lemma scanInv_step (w : jsstring) (k code : Z) (st : ExtScan) :
  (0 < k)%Z ->
  nth (Z.to_nat (k - 1)) w 0%Z = code ->
  scanInv w k st ->
  scanInv w (k - 1) (extScanStep st (k - 1, code)%Z).
Proof.
  intros Hk Hcode (Hm & He & Hr & Hd & Hlo & Hle & Hdot).
  destruct st as [sd sp ei ms pds stp].
  unfold extScanStep, scanInv, scanLow in *.
  cbn [startDot startPart endIndex matchedSlash preDotState stopped] in *.
  destruct stp.
  { cbn [stopped startPart endIndex startDot matchedSlash].
    repeat split; auto; try lia. }
  destruct (Z.eqb_spec code 47) as [H47|H47].
  { destruct ms; cbn [negb stopped startPart endIndex startDot matchedSlash].
    - specialize (Hm eq_refl). specialize (He Hm). subst ei sd.
      repeat split; auto; try lia; try (intros; lia).
    - replace (k - 1 + 1)%Z with k by lia.
      repeat split; auto; try lia; try discriminate. }
  assert (Hj : forall (e : Z) j,
            (forall j, k <= j < e -> nth (Z.to_nat j) w 0 <> 47)%Z ->
            (k - 1 <= j < e)%Z -> nth (Z.to_nat j) w 0%Z <> 47%Z).
  { intros e j Hall Hin. destruct (Z.eq_dec j (k - 1)) as [->|Hne].
    - now rewrite Hcode.
    - apply Hall. lia. }
  assert (Hnew : forall j, (k - 1 <= j < k - 1 + 1)%Z ->
                           nth (Z.to_nat j) w 0%Z <> 47%Z).
  { intros j Hin. apply (Hj (k - 1 + 1)%Z); [intros; lia | exact Hin]. }
  assert (Hold : forall j, (k - 1 <= j < ei)%Z -> nth (Z.to_nat j) w 0%Z <> 47%Z).
  { intros j Hin. now apply (Hj ei). }
  destruct (Z.eqb_spec ei (-1)) as [Hei|Hei];
    cbn [startDot startPart endIndex matchedSlash preDotState stopped].
  - specialize (He Hei). subst sd ei.
    destruct (Z.eqb_spec code 46);
      cbn [Z.eqb Pos.eqb negb startDot startPart endIndex matchedSlash
           preDotState stopped];
      repeat split; try discriminate; try lia; try exact Hnew;
      try (subst code; exact Hcode); try (intros; lia).
  - assert (Hms : ms = true -> ei = (-1)%Z) by exact Hm.
    destruct (Z.eqb_spec code 46);
      destruct (Z.eqb_spec sd (-1));
      try destruct (Z.eqb_spec pds 1);
      cbn [negb startDot startPart endIndex matchedSlash preDotState stopped];
      repeat split; auto; try lia; try exact Hold;
      try (intros Hsd; specialize (Hd Hsd); lia);
      try (intros Hsd; specialize (Hdot Hsd); tauto || lia);
      try (subst code; exact Hcode);
      try (specialize (Hle Hei); lia).
Qed.

Lemma scanFrom_inv (w p pre : jsstring) :
  w = (pre ++ p)%list ->
  scanInv w (Z.of_nat (List.length pre)) (scanFrom (List.length pre) p).
Proof.
  revert pre. induction p as [|c p IH]; intros pre Hw.
  - unfold scanFrom, scanInv, scanLow. simpl.
    repeat split; auto; try lia; try discriminate; try (intros; lia).
  - assert (Hw' : w = ((pre ++ [c]) ++ p)%list)
      by (now rewrite <- app_assoc).
    specialize (IH (pre ++ [c])%list Hw').
    rewrite length_app in IH. simpl in IH.
    replace (List.length pre + 1)%nat with (S (List.length pre)) in IH by lia.
    unfold scanFrom. simpl. fold (scanFrom (S (List.length pre)) p).
    replace (Z.of_nat (List.length pre))
      with (Z.of_nat (S (List.length pre)) - 1)%Z by lia.
    apply scanInv_step; [lia | | exact IH].
    replace (Z.to_nat (Z.of_nat (S (List.length pre)) - 1))
      with (List.length pre) by lia.
    rewrite Hw. now rewrite nth_middle.
Qed.

Lemma extname_scan (p : jsstring) :
  fold_left extScanStep
    (rev (combine (List.map Z.of_nat (seq 0 (List.length p))) p)) extScanStart
  = scanFrom 0 p.
Proof.
  unfold scanFrom.
  rewrite <- (rev_involutive (combine _ p)) at 2.
  now rewrite fold_left_rev_right.
Qed.

Lemma In_slice {A : Type} (d x : A) (from len : nat) (l : list A) :
  In x (firstn len (skipn from l)) ->
  exists j, (from <= j < from + len)%nat /\ nth j l d = x.
Proof.
  intros Hin. apply (In_nth _ _ d) in Hin. destruct Hin as (i & Hi & Hnth).
  rewrite length_firstn in Hi.
  exists (from + i)%nat. split; [lia|].
  rewrite <- Hnth. rewrite nth_firstn.
  destruct (Nat.ltb_spec i len); [|lia]. now rewrite nth_skipn.
Qed.

(** The extension [path.extname] returns holds no separator. *)
Lemma extname_no_separator (p : jsstring) : includesUnit 47 (extname p) = false.
Proof.
  unfold extname. cbv zeta. rewrite extname_scan.
  pose proof (scanFrom_inv p p [] eq_refl) as (Hm & He & Hr & Hd & Hlo & _).
  simpl in *. set (st := scanFrom 0 p) in *.
  destruct (_ || _ || _ || _)%bool eqn:Hc; [reflexivity|].
  rewrite !orb_false_iff in Hc. destruct Hc as [[[Hsd Hei] _] _].
  apply Z.eqb_neq in Hsd, Hei. specialize (Hd Hsd).
  unfold includesUnit. destruct (existsb _ _) eqn:Hex; [|reflexivity].
  apply existsb_exists in Hex. destruct Hex as (x & Hin & Hx).
  apply Z.eqb_eq in Hx. subst x. unfold sliceUnits in Hin.
  apply (In_slice 0%Z) in Hin. destruct Hin as (j & Hj & Hnth).
  exfalso. apply (Hr (Z.of_nat j)); [lia|]. now rewrite Nat2Z.id.
Qed.

End ExtensionFacts.

Section PipelineMore.
Import Text Storage Service.

(** *** The name an upload is stored under *)

Lemma skipn_nth {A : Type} (d : A) (n : nat) (l : list A) :
  (n < List.length l)%nat -> skipn n l = nth n l d :: skipn (S n) l.
Proof.
  revert l. induction n as [|n IH]; intros [|x l] Hn; simpl in *; try lia.
  - reflexivity.
  - apply IH. lia.
Qed.

(** A non-empty extension starts with a dot. *)
Lemma extname_dot (p : jsstring) :
  extname p = [] \/ exists rest, extname p = 46%Z :: rest.
Proof.
  unfold extname. cbv zeta. rewrite extname_scan.
  pose proof (scanFrom_inv p p [] eq_refl) as (_ & _ & _ & Hd & Hlo & _ & Hdot).
  simpl in *. set (st := scanFrom 0 p) in *.
  destruct (_ || _ || _ || _)%bool eqn:Hc; [now left | right].
  rewrite !orb_false_iff in Hc. destruct Hc as [[[Hsd _] _] _].
  apply Z.eqb_neq in Hsd. specialize (Hd Hsd). specialize (Hdot Hsd).
  destruct Hdot as [H46 Hlt]. unfold scanLow in *.
  assert (Hlen : (Z.to_nat (startDot st) < List.length p)%nat).
  { destruct (Nat.ltb_spec (Z.to_nat (startDot st)) (List.length p)) as [H|H];
      [exact H|].
    rewrite nth_overflow in H46 by exact H. discriminate. }
  unfold sliceUnits. rewrite (skipn_nth 0%Z) by exact Hlen. rewrite H46.
  destruct (Z.to_nat (endIndex st - startDot st)) eqn:Hn; [lia|].
  simpl. eauto.
Qed.

Lemma includesUnit_app (c : Z) (a b : jsstring) :
  includesUnit c (a ++ b)%list = includesUnit c a || includesUnit c b.
Proof. apply existsb_app. Qed.

(** The stored name: the identifier, a dot and the rest of the extension,
    which holds no separator. *)
Lemma generatedName_shape (env : Env) (file : UploadedFile) :
  exists rest,
    generatedName env file = (randomUUID env ++ 46%Z :: rest)%list
    /\ includesUnit 47 rest = false.
Proof.
  unfold generatedName.
  pose proof (extname_no_separator (decodeFileName (originalname file))) as Hsep.
  destruct (extname_dot (decodeFileName (originalname file))) as [He | (rest & He)];
    rewrite He in *.
  - exists (units "zip"). split; reflexivity.
  - exists rest. split; [reflexivity|]. exact Hsep.
Qed.

(** X20. When the identifier drawn is one path component (not empty, no
    separator, not a dot name), so is the name an upload is stored under:
    the identifier followed by an extension that starts with a dot. *)
Theorem stored_name_is_component (env : Env) (file : UploadedFile) :
  isComponent (randomUUID env) = true ->
  isComponent (generatedName env file) = true
  /\ exists rest, generatedName env file = (randomUUID env ++ 46%Z :: rest)%list.
Proof.
  intros Hid.
  destruct (generatedName_shape env file) as (rest & Hname & Hsep).
  split; [|now exists rest].
  rewrite Hname. unfold isComponent in *.
  rewrite !andb_true_iff, !negb_true_iff in *.
  destruct Hid as [[[Hne Hslash] Hdot] Hdots].
  assert (Hneq : forall a b : jsstring, a <> b -> jsEqb a b = false).
  { intros a b Hab. destruct (jsEqb a b) eqn:Heq; [|reflexivity].
    apply jsEqb_eq in Heq. contradiction. }
  destruct (randomUUID env) as [|c id] eqn:Hrid; [discriminate Hne|].
  split; [split; [split|]|].
  - apply Hneq. discriminate.
  - rewrite includesUnit_app, Hslash. simpl. exact Hsep.
  - apply Hneq. simpl. destruct id; discriminate.
  - apply Hneq. simpl. intros Heq. injection Heq as -> Hid.
    destruct id as [|c' id]; [discriminate Hdot|].
    destruct id; discriminate.
Qed.

Lemma stored_name_is_component_witness :
  isComponent (randomUUID obligingEnv) = true
  /\ isComponent (generatedName obligingEnv zipUpload) = true.
Proof.
  split; [reflexivity|].
  exact (proj1 (stored_name_is_component obligingEnv zipUpload eq_refl)).
Defined.


(** *** Reading a stored file back *)

Lemma joinPath_inj (a b : jsstring) :
  joinPath uploadDir a = joinPath uploadDir b -> a = b.
Proof.
  unfold joinPath. intros H.
  apply app_inv_head in H. now apply app_inv_head in H.
Qed.

(** The test [readStored] runs on an entry, for the path of a name. *)
Lemma stored_at_iff (n : jsstring) (e : DirEntry) :
  d_isFile e && jsEqb (joinPath uploadDir (d_name e)) (joinPath uploadDir n) = true
  <-> d_isFile e = true /\ d_name e = n.
Proof.
  rewrite andb_true_iff, jsEqb_eq. split; intros [Hf Hn]; split; auto.
  - now apply joinPath_inj.
  - now rewrite Hn.
Qed.

Lemma find_app_none {A : Type} (p : A -> bool) (l1 l2 : list A) :
  (forall x, In x l1 -> p x = false) ->
  find p (l1 ++ l2)%list = find p l2.
Proof.
  induction l1 as [|x l1 IH]; intros H; simpl; [reflexivity|].
  rewrite (H x) by (now left). apply IH. intros y Hy. apply H. now right.
Qed.

Lemma find_filter_same {A : Type} (p q : A -> bool) (l : list A) :
  (forall x, In x l -> p x = true -> q x = true) ->
  find p (filter q l) = find p l.
Proof.
  induction l as [|x l IH]; intros H; simpl; [reflexivity|].
  assert (IH' : find p (filter q l) = find p l)
    by (apply IH; intros y Hy; apply H; now right).
  destruct (p x) eqn:Hp.
  - rewrite (H x) by (auto; now left). simpl. now rewrite Hp.
  - destruct (q x); simpl; rewrite ?Hp; exact IH'.
Qed.

Lemma existsb_filter_same {A : Type} (p q : A -> bool) (l : list A) :
  (forall x, In x l -> p x = true -> q x = true) ->
  existsb p (filter q l) = existsb p l.
Proof.
  induction l as [|x l IH]; intros H; simpl; [reflexivity|].
  assert (IH' : existsb p (filter q l) = existsb p l)
    by (apply IH; intros y Hy; apply H; now right).
  destruct (p x) eqn:Hp.
  - rewrite (H x) by (auto; now left). simpl. now rewrite Hp.
  - destruct (q x); simpl; rewrite ?Hp; exact IH'.
Qed.

Lemma readStored_written (env : Env) (n : jsstring) (data : list Z)
    (entries : list DirEntry) :
  readStored (Some (writeFile env n data entries)) (joinPath uploadDir n)
  = Some data.
Proof.
  unfold readStored, writeFile. rewrite find_app_none.
  - cbn [find d_isFile d_name andb].
    now rewrite (proj2 (jsEqb_eq _ _) eq_refl).
  - intros x Hx. apply filter_In in Hx. destruct Hx as [_ Hx].
    apply negb_true_iff in Hx.
    destruct (d_isFile x && _) eqn:Hs; [|reflexivity].
    apply stored_at_iff in Hs. destruct Hs as [_ Hn].
    apply nameIs_eq in Hn. congruence.
Qed.

Section Pipeline.

Variable unzip : list Z -> string + list Locator.ZipEntry.
Variable parseLevelInitData : string -> string + Analysis.SaveData.
Variable openError : jsstring -> string.
Variable typeErrorMessage : Analysis.error -> string.
Variable accessOutside : jsstring -> option jsstring.

Local Abbreviation resolve := (findFileByFilename accessOutside).
Local Abbreviation parse := (parseFactorioSave unzip parseLevelInitData openError).
Local Abbreviation analyze :=
  (analyzeGameSave unzip parseLevelInitData openError typeErrorMessage
     accessOutside).
Local Abbreviation handler :=
  (analyzeGameSaveHandler unzip parseLevelInitData openError typeErrorMessage
     accessOutside).

(** X21. An uploaded archive can be analyzed under the name the upload
    answered: after an accepted upload, with an identifier that is one path
    component, the name resolves to the stored path, parsing that path is
    parsing the uploaded bytes, whatever else the directory holds, and the
    analysis is never answered with "not found". *)
Theorem upload_then_analyze
    (env : Env) (file : UploadedFile) (disk : Disk) :
  In (mimetype file) allowedMimeTypes ->
  (size file <= 200 * 1024 * 1024)%Z ->
  writeFails env (generatedName env file) = false ->
  isComponent (randomUUID env) = true ->
  let name := generatedName env file in
  let disk' := snd (uploadFile env file disk) in
  resolve disk' name = Some (joinPath uploadDir name)
  /\ parse disk' (FromPath (joinPath uploadDir name))
     = parse disk' (FromBuffer (buffer file))
  /\ statusCode (analyze disk' name) <> NOT_FOUND.
Proof.
  intros Hmime Hsize Hwrite Hid name disk'.
  assert (Hdisk : disk' = Some (writeFile env name (buffer file)
                                  (ensureUploadDirExists disk))).
  { unfold disk', uploadFile. apply allowed_iff in Hmime. rewrite Hmime.
    cbn [negb]. fold maxSize in Hsize.
    destruct (Z.ltb_spec maxSize (size file)) as [Hbig|_]; [lia|].
    rewrite saveFileAsync_eq, Hwrite. reflexivity. }
  assert (Hcomp : isComponent name = true).
  { destruct (generatedName_shape env file) as (rest & Hname & Hsep).
    unfold name. rewrite Hname. unfold isComponent in *.
    rewrite !andb_true_iff, !negb_true_iff in *.
    destruct Hid as [[[Hne Hslash] Hdot] Hdots].
    assert (Hneq : forall a b : jsstring, a <> b -> jsEqb a b = false).
    { intros a b Hab. destruct (jsEqb a b) eqn:Heq; [|reflexivity].
      apply jsEqb_eq in Heq. contradiction. }
    destruct (randomUUID env) as [|c id] eqn:Hrid; [discriminate Hne|].
    split; [split; [split|]|].
    - apply Hneq. discriminate.
    - rewrite includesUnit_app, Hslash. simpl. exact Hsep.
    - apply Hneq. simpl. destruct id; discriminate.
    - apply Hneq. simpl. intros Heq. injection Heq as -> Hid.
      destruct id as [|c' id]; [discriminate Hdot|].
      destruct id; discriminate. }
  assert (Hres : resolve disk' name = Some (joinPath uploadDir name)).
  { unfold findFileByFilename. rewrite Hcomp, Hdisk.
    assert (Hex : existsb (nameIs name)
                    (writeFile env name (buffer file) (ensureUploadDirExists disk))
                  = true).
    { apply existsb_exists. eexists. split.
      - apply writeFile_In. right. reflexivity.
      - now apply nameIs_eq. }
    now rewrite Hex. }
  assert (Hparse : parse disk' (FromPath (joinPath uploadDir name))
                   = parse disk' (FromBuffer (buffer file))).
  { unfold parseFactorioSave, openDirectory.
    now rewrite Hdisk, readStored_written. }
  split; [exact Hres|]. split; [exact Hparse|].
  unfold analyzeGameSave. rewrite Hres.
  destruct (parse disk' (FromPath (joinPath uploadDir name))) as [sd|msg];
    [destruct (Analysis.analyzeFactorioSave (Some sd))|]; discriminate.
Qed.

(** The four ways [analyzeGameSave] ends. *)
Lemma analyze_cases (disk : Disk) (filename : jsstring) :
  (resolve disk filename = None
   /\ exists msg, analyze disk filename = failure msg NOT_FOUND)
  \/ (exists p err,
        resolve disk filename = Some p
        /\ parse disk (FromPath p) = Raised err
        /\ exists msg, analyze disk filename = failure msg BAD_REQUEST)
  \/ (exists p saveData e,
        resolve disk filename = Some p
        /\ parse disk (FromPath p) = Returned saveData
        /\ Analysis.analyzeFactorioSave (Some saveData) = Analysis.Throw e
        /\ exists msg, analyze disk filename = failure msg INTERNAL_SERVER_ERROR)
  \/ (exists p saveData r,
        resolve disk filename = Some p
        /\ parse disk (FromPath p) = Returned saveData
        /\ Analysis.analyzeFactorioSave (Some saveData) = Analysis.Ok r
        /\ exists msg, analyze disk filename = succeed msg r).
Proof.
  unfold analyzeGameSave.
  destruct (resolve disk filename) as [p|] eqn:Hres; [|left; eauto].
  destruct (parse disk (FromPath p)) as [sd|err] eqn:Hparse.
  2:{ right; left. exists p, err. eauto. }
  destruct (Analysis.analyzeFactorioSave (Some sd)) as [r|e] eqn:Hrun.
  - right; right; right. exists p, sd, r. eauto 6.
  - right; right; left. exists p, sd, e. eauto 6.
Qed.

(** X22. The analyze endpoint answers 200, 400, 404 or 500, the status of
    the body it sends: 404 exactly when the name does not resolve, 400
    exactly when the archive cannot be parsed, 500 exactly when the engine
    raises, and 200, with the report the engine returned on the parsed
    save, otherwise. *)
Theorem analyze_endpoint_outcomes (disk : Disk) (filename : jsstring) :
  let status := fst (handler disk filename) in
  let body := snd (handler disk filename) in
  status = httpStatus (statusCode body)
  /\ (status = 200 \/ status = 400 \/ status = 404 \/ status = 500)%Z
  /\ (status = 404%Z <-> resolve disk filename = None)
  /\ (status = 400%Z
      <-> exists p msg,
            resolve disk filename = Some p
            /\ parse disk (FromPath p) = Raised msg)
  /\ (status = 500%Z
      <-> exists p saveData e,
            resolve disk filename = Some p
            /\ parse disk (FromPath p) = Returned saveData
            /\ Analysis.analyzeFactorioSave (Some saveData) = Analysis.Throw e)
  /\ (forall r,
        responseObject body = Some r
        <-> status = 200%Z
            /\ exists p saveData,
                 resolve disk filename = Some p
                 /\ parse disk (FromPath p) = Returned saveData
                 /\ Analysis.analyzeFactorioSave (Some saveData) = Analysis.Ok r).
Proof.
  unfold analyzeGameSaveHandler. cbv zeta. cbn [fst snd].
  destruct (analyze_cases disk filename)
    as [(Hres & msg & ->)
       | [(p & err & Hres & Hparse & msg & ->)
         | [(p & sd & e & Hres & Hparse & Hrun & msg & ->)
           | (p & sd & r0 & Hres & Hparse & Hrun & msg & ->)]]];
    unfold failure, succeed; cbn [statusCode responseObject httpStatus];
    rewrite Hres;
    (split; [reflexivity|]); (split; [lia|]);
    (split; [split; intros H; (discriminate H || reflexivity)|]).
  - split; [split; [intros H; discriminate H | intros (? & ? & H & _); discriminate H]|].
    split; [split; [intros H; discriminate H | intros (? & ? & ? & H & _); discriminate H]|].
    intros r. split; [intros H; discriminate H | intros (H & _); discriminate H].
  - split; [split; [intros _; now exists p, err | reflexivity]|].
    split; [split; [intros H; discriminate H
                   | intros (? & ? & ? & [= <-] & H & _); congruence]|].
    intros r. split; [intros H; discriminate H | intros (H & _); discriminate H].
  - split; [split; [intros H; discriminate H
                   | intros (? & ? & [= <-] & H); congruence]|].
    split; [split; [intros _; now exists p, sd, e | reflexivity]|].
    intros r. split; [intros H; discriminate H | intros (H & _); discriminate H].
  - split; [split; [intros H; discriminate H
                   | intros (? & ? & [= <-] & H); congruence]|].
    split; [split; [intros H; discriminate H
                   | intros (? & ? & ? & [= <-] & H1 & H2); congruence]|].
    intros r. split.
    + intros [= <-]. split; [reflexivity|]. now exists p, sd.
    + intros (_ & ? & ? & [= <-] & H1 & H2). congruence.
Qed.

(** X23. [parseFactorioSave] returns a save exactly when the archive opens,
    some entry is accepted as the header, the first such entry is not empty
    and the codec reads it; the entries after the first accepted one play
    no part. Whatever goes wrong, the error raised carries the wrapped
    message. *)
Theorem parse_returns_iff (disk : Disk) (source : Source) :
  (forall saveData,
     parse disk source = Returned saveData
     <-> exists before f after,
           openDirectory unzip openError disk source
           = inr (before ++ f :: after)%list
           /\ Forall (fun x => Locator.isLevelInit x = false) before
           /\ Locator.isLevelInit f = true
           /\ Locator.buffer f <> ""
           /\ parseLevelInitData (Locator.buffer f) = inr saveData)
  /\ (forall msg,
        parse disk source = Raised msg ->
        exists inner, msg = wrapParseError inner).
Proof.
  unfold parseFactorioSave.
  destruct (openDirectory unzip openError disk source) as [err|files] eqn:Hopen.
  { split.
    - intros sd. split; [discriminate|].
      intros (b & f & a & Hfiles & _). discriminate Hfiles.
    - intros msg [= <-]. eauto. }
  destruct (Locator.findLevelInitInZip files) as [f|] eqn:Hfind.
  2:{ split.
      - intros sd. split; [discriminate|].
        intros (b & f & a & [= ->] & Hb & Hf & _).
        assert (Hsome : Locator.findLevelInitInZip (b ++ f :: a)%list = Some f)
          by (apply findLevelInitInZip_first; eauto).
        congruence.
      - intros msg [= <-]. eauto. }
  assert (Hfirst : forall b g a,
            files = (b ++ g :: a)%list ->
            Forall (fun x => Locator.isLevelInit x = false) b ->
            Locator.isLevelInit g = true -> g = f).
  { intros b g a -> Hb Hg.
    assert (Hsome : Locator.findLevelInitInZip (b ++ g :: a)%list = Some g)
      by (apply findLevelInitInZip_first; eauto).
    congruence. }
  apply findLevelInitInZip_first in Hfind.
  destruct Hfind as (b0 & a0 & Hfiles & Hf & Hb0).
  cbv zeta.
  destruct (Nat.eqb_spec (String.length (Locator.buffer f)) 0) as [Hlen|Hlen].
  { split.
    - intros sd. split; [discriminate|].
      intros (b & g & a & [= Hg] & Hb & Hgm & Hne & _).
      apply (Hfirst b g a Hg Hb) in Hgm. subst g.
      destruct (Locator.buffer f); [contradiction | discriminate Hlen].
    - intros msg [= <-]. eauto. }
  destruct (parseLevelInitData (Locator.buffer f)) as [err|sd0] eqn:Hcodec.
  { split.
    - intros sd. split; [discriminate|].
      intros (b & g & a & [= Hg] & Hb & Hgm & _ & Hc).
      apply (Hfirst b g a Hg Hb) in Hgm. subst g. congruence.
    - intros msg [= <-]. eauto. }
  split.
  - intros sd. split.
    + intros [= <-]. exists b0, f, a0. repeat split; auto; try congruence.
      intros Hempty. rewrite Hempty in Hlen. contradiction.
    + intros (b & g & a & [= Hg] & Hb & Hgm & _ & Hc).
      apply (Hfirst b g a Hg Hb) in Hgm. subst g. congruence.
  - discriminate.
Qed.

(** X24. A pruned save is gone for the analyze endpoint, and pruning changes
    nothing for the others: when the listing exceeds the cap, a name that is
    one path component is answered "not found" after the cleanup if it is
    the name of a deleted file, and as before the cleanup if it is not. *)
Theorem prune_then_analyze
    (env : Env) (maxCount : Z) (disk : Disk) (n : jsstring) :
  (maxCount < Z.of_nat (List.length (storedFiles disk)))%Z ->
  isComponent n = true ->
  let deleted := filter (deletable env) (oldestSurplus maxCount disk) in
  let disk' := pruneOldFilesIfExceed env maxCount disk in
  (existsb (nameIs n) deleted = true ->
   statusCode (analyze disk' n) = NOT_FOUND)
  /\ (existsb (nameIs n) deleted = false ->
      analyze disk' n = analyze disk n).
Proof.
  intros Hgt Hcomp deleted disk'.
  assert (Hdisk : disk' = Some (filter (fun e => negb (removedBy deleted e))
                                  (ensureUploadDirExists disk)))
    by (now apply prune_unfold).
  assert (Hnamed : forall e, d_name e = n ->
            removedBy deleted e = existsb (nameIs n) deleted).
  { intros e He. apply eq_iff_eq_true.
    rewrite removedBy_iff, existsb_exists.
    split; intros (f & Hf & Hn); exists f; (split; [exact Hf|]).
    - apply nameIs_eq. congruence.
    - apply nameIs_eq in Hn. congruence. }
  set (entries := ensureUploadDirExists disk) in *.
  split; intros Hdel.
  - unfold analyzeGameSave, findFileByFilename. rewrite Hcomp, Hdisk.
    assert (Hex : existsb (nameIs n)
                    (filter (fun e => negb (removedBy deleted e)) entries)
                  = false).
    { apply not_true_is_false. intros Hex.
      apply existsb_exists in Hex. destruct Hex as (e & He & Hn).
      apply filter_In in He. destruct He as [_ Hkeep].
      apply nameIs_eq in Hn. rewrite (Hnamed e Hn), Hdel in Hkeep.
      discriminate. }
    now rewrite Hex.
  - assert (Hsame : existsb (nameIs n)
                      (filter (fun e => negb (removedBy deleted e)) entries)
                    = existsb (nameIs n) entries).
    { apply existsb_filter_same. intros e _ Hn. apply nameIs_eq in Hn.
      now rewrite (Hnamed e Hn), Hdel. }
    assert (Hread : readStored disk' (joinPath uploadDir n)
                    = readStored (Some entries) (joinPath uploadDir n)).
    { rewrite Hdisk. unfold readStored. f_equal.
      apply find_filter_same. intros e _ Hs.
      apply stored_at_iff in Hs. destruct Hs as [_ Hn].
      now rewrite (Hnamed e Hn), Hdel. }
    assert (Hres : resolve disk' n = resolve (Some entries) n).
    { unfold findFileByFilename. now rewrite Hcomp, Hdisk, Hsame. }
    assert (Hgoal : analyze disk' n = analyze (Some entries) n).
    { unfold analyzeGameSave. rewrite Hres.
      assert (Hshape : resolve (Some entries) n = None
                       \/ resolve (Some entries) n = Some (joinPath uploadDir n)).
      { unfold findFileByFilename. rewrite Hcomp.
        destruct (existsb (nameIs n) entries); auto. }
      destruct Hshape as [-> | ->]; [reflexivity|].
      unfold parseFactorioSave, openDirectory. now rewrite Hread. }
    rewrite Hgoal. destruct disk as [es|]; [reflexivity|].
    unfold analyzeGameSave, findFileByFilename. rewrite Hcomp. reflexivity.
Qed.

End Pipeline.

Lemma upload_then_analyze_witness :
  In (mimetype zipUpload) allowedMimeTypes
  /\ (size zipUpload <= 200 * 1024 * 1024)%Z
  /\ writeFails obligingEnv (generatedName obligingEnv zipUpload) = false
  /\ isComponent (randomUUID obligingEnv) = true
  /\ statusCode
       (analyzeGameSave demoUnzip demoCodec demoOpenError demoTypeError
          demoAccess (snd (uploadFile obligingEnv zipUpload oneFile))
          (generatedName obligingEnv zipUpload))
     <> NOT_FOUND.
Proof.
  assert (Hmime : In (mimetype zipUpload) allowedMimeTypes) by (simpl; tauto).
  assert (Hsize : (size zipUpload <= 200 * 1024 * 1024)%Z)
    by (vm_compute; discriminate).
  split; [exact Hmime|]. split; [exact Hsize|].
  split; [reflexivity|]. split; [reflexivity|].
  exact (proj2 (proj2 (upload_then_analyze demoUnzip demoCodec demoOpenError
                         demoTypeError demoAccess obligingEnv zipUpload oneFile
                         Hmime Hsize eq_refl eq_refl))).
Defined.

Lemma prune_then_analyze_witness :
  (1 < Z.of_nat (List.length (storedFiles threeFiles)))%Z
  /\ isComponent (units "a.zip") = true
  /\ statusCode
       (analyzeGameSave demoUnzip demoCodec demoOpenError demoTypeError
          demoAccess (pruneOldFilesIfExceed obligingEnv 1 threeFiles)
          (units "a.zip"))
     = NOT_FOUND.
Proof.
  assert (Hgt : (1 < Z.of_nat (List.length (storedFiles threeFiles)))%Z)
    by (vm_compute; reflexivity).
  split; [exact Hgt|]. split; [reflexivity|].
  apply (proj1 (prune_then_analyze demoUnzip demoCodec demoOpenError
                  demoTypeError demoAccess obligingEnv 1 threeFiles
                  (units "a.zip") Hgt eq_refl)).
  vm_compute. reflexivity.
Defined.

End PipelineMore.

(** ** File-name normalization: valid UTF-8, and which names are repaired *)

Section NormalizerRepairs.
Import Text Storage.
Local Open Scope Z_scope.

(** *** Bit operations of the codecs, as arithmetic *)

Lemma lor_low (a y n : Z) :
  0 <= n -> 0 <= y < 2 ^ n -> a mod 2 ^ n = 0 -> Z.lor a y = a + y.
Proof.
  intros Hn Hy Ha.
  assert (Hland : Z.land a y = 0).
  { apply Z.bits_inj'. intros i Hi. rewrite Z.land_spec, Z.bits_0.
    destruct (Z.lt_ge_cases i n) as [Hlt|Hge].
    - assert (Hdiv : a = a / 2 ^ n * 2 ^ n).
      { pose proof (Z.div_mod a (2 ^ n)) as H.
        assert (2 ^ n <> 0) by lia. specialize (H H0). lia. }
      rewrite Hdiv, Z.mul_pow2_bits_low by lia. reflexivity.
    - rewrite <- (Z.mod_small y (2 ^ n)) by lia.
      rewrite Z.mod_pow2_bits_high by lia. apply andb_false_r. }
  rewrite <- Z.lxor_lor by exact Hland. symmetry.
  now apply Z.add_nocarry_lxor.
Qed.

Lemma land_low (x n : Z) : 0 <= n -> Z.land x (2 ^ n - 1) = x mod 2 ^ n.
Proof.
  intros Hn. rewrite <- Z.land_ones by exact Hn. f_equal.
  rewrite Z.ones_equiv. lia.
Qed.

(** A continuation byte and what the decoder reads from it. *)
Lemma continuation_byte (x : Z) :
  0 <= x < 64 ->
  Z.lor 0x80 x = 0x80 + x /\ Z.land (Z.lor 0x80 x) 0x3F = x.
Proof.
  intros Hx.
  assert (Hb : Z.lor 0x80 x = 0x80 + x)
    by (apply (lor_low 0x80 x 6); [lia | exact Hx | reflexivity]).
  split; [exact Hb|]. rewrite Hb.
  change 0x3F with (2 ^ 6 - 1). rewrite land_low by lia.
  change (2 ^ 6) with 64. rewrite <- Z.add_mod_idemp_l by lia.
  change (128 mod 64) with 0. cbn [Z.add]. apply Z.mod_small. exact Hx.
Qed.

(** The lead byte of a sequence of [k + 1] bytes, [mark] being its fixed
    high bits and [2 ^ n] the room left for the payload. *)
Lemma lead_byte (mark t n : Z) :
  0 <= n -> 0 <= t < 2 ^ n -> mark mod 2 ^ n = 0 ->
  Z.lor mark t = mark + t /\ Z.land (Z.lor mark t) (2 ^ n - 1) = t.
Proof.
  intros Hn Ht Hm.
  assert (Hb : Z.lor mark t = mark + t) by (now apply (lor_low mark t n)).
  split; [exact Hb|]. rewrite Hb, land_low by exact Hn.
  rewrite <- Z.add_mod_idemp_l, Hm by lia. cbn [Z.add].
  apply Z.mod_small. exact Ht.
Qed.

(** The code point rebuilt from what was read and six more bits. *)
Lemma accumulate (a y : Z) :
  0 <= y < 64 -> Z.lor (Z.shiftl a 6) y = a * 64 + y.
Proof.
  intros Hy. rewrite Z.shiftl_mul_pow2 by lia. change (2 ^ 6) with 64.
  apply (lor_low (a * 64) y 6); [lia | exact Hy |].
  change (2 ^ 6) with 64. apply Z.mod_mul. lia.
Qed.

Ltac divmod := Z.div_mod_to_equations; lia.

Lemma inRange_true (lo hi x : Z) : lo <= x <= hi -> inRange lo hi x = true.
Proof. intros H. unfold inRange. apply andb_true_iff. split; apply Z.leb_le; lia. Qed.

Lemma inRange_false (lo hi x : Z) : x < lo \/ hi < x -> inRange lo hi x = false.
Proof.
  intros H. unfold inRange. apply andb_false_iff.
  destruct H; [left | right]; apply Z.leb_gt; lia.
Qed.

(** *** The decoder on the bytes of one code point *)

Lemma step_ascii (b : Z) :
  0 <= b < 0x80 -> utf8Step utf8Start b = ([b], utf8Start).
Proof.
  intros Hb. unfold utf8Step, utf8Lead. cbn [bytesNeeded utf8Start Z.eqb].
  now rewrite inRange_true by lia.
Qed.

Lemma step_lead2 (t : Z) :
  2 <= t < 32 ->
  utf8Step utf8Start (Z.lor 0xC0 t) = ([], mkUtf8State 1 t 0x80 0xBF).
Proof.
  intros Ht.
  destruct (lead_byte 0xC0 t 5) as [Hb Hl]; [lia | lia | reflexivity |].
  change (2 ^ 5 - 1) with 0x1F in Hl.
  unfold utf8Step, utf8Lead. cbn [bytesNeeded utf8Start Z.eqb].
  rewrite Hl, Hb.
  rewrite (inRange_false 0x00 0x7F) by lia.
  now rewrite (inRange_true 0xC2 0xDF) by lia.
Qed.

Lemma step_lead3 (t : Z) :
  0 <= t < 16 ->
  utf8Step utf8Start (Z.lor 0xE0 t)
  = ([], mkUtf8State 2 t (if t =? 0 then 0xA0 else 0x80)
           (if t =? 13 then 0x9F else 0xBF)).
Proof.
  intros Ht.
  destruct (lead_byte 0xE0 t 4) as [Hb Hl]; [lia | lia | reflexivity |].
  change (2 ^ 4 - 1) with 0xF in Hl.
  unfold utf8Step, utf8Lead. cbn [bytesNeeded utf8Start Z.eqb].
  rewrite Hl, Hb.
  rewrite (inRange_false 0x00 0x7F) by lia.
  rewrite (inRange_false 0xC2 0xDF) by lia.
  rewrite (inRange_true 0xE0 0xEF) by lia.
  destruct (Z.eqb_spec t 0), (Z.eqb_spec (0xE0 + t) 0xE0); try lia;
    destruct (Z.eqb_spec t 13), (Z.eqb_spec (0xE0 + t) 0xED); try lia;
    reflexivity.
Qed.

Lemma step_lead4 (t : Z) :
  0 <= t <= 4 ->
  utf8Step utf8Start (Z.lor 0xF0 t)
  = ([], mkUtf8State 3 t (if t =? 0 then 0x90 else 0x80)
           (if t =? 4 then 0x8F else 0xBF)).
Proof.
  intros Ht.
  destruct (lead_byte 0xF0 t 3) as [Hb Hl]; [lia | lia | reflexivity |].
  change (2 ^ 3 - 1) with 0x7 in Hl.
  unfold utf8Step, utf8Lead. cbn [bytesNeeded utf8Start Z.eqb].
  rewrite Hl, Hb.
  rewrite (inRange_false 0x00 0x7F) by lia.
  rewrite (inRange_false 0xC2 0xDF) by lia.
  rewrite (inRange_false 0xE0 0xEF) by lia.
  rewrite (inRange_true 0xF0 0xF4) by lia.
  destruct (Z.eqb_spec t 0), (Z.eqb_spec (0xF0 + t) 0xF0); try lia;
    destruct (Z.eqb_spec t 4), (Z.eqb_spec (0xF0 + t) 0xF4); try lia;
    reflexivity.
Qed.

Lemma step_continuation (n acc lo hi x : Z) :
  0 < n -> 0 <= x < 64 -> lo <= 0x80 + x <= hi ->
  utf8Step (mkUtf8State n acc lo hi) (Z.lor 0x80 x)
  = if n =? 1 then (utf16OfCodePoint (acc * 64 + x), utf8Start)
    else ([], mkUtf8State (n - 1) (acc * 64 + x) 0x80 0xBF).
Proof.
  intros Hn Hx Hr.
  destruct (continuation_byte x Hx) as [Hb Hl].
  unfold utf8Step. cbn [bytesNeeded lowerBoundary upperBoundary codePoint].
  destruct (Z.eqb_spec n 0) as [|_]; [lia|].
  rewrite Hl, accumulate by exact Hx. rewrite Hb.
  now rewrite inRange_true by lia.
Qed.

(** Decoding the bytes of a scalar value gives its code units back and
    leaves the decoder between two sequences. *)
Lemma decode_scalar (cp : Z) (rest : list Z) :
  isScalar cp ->
  utf8DecodeFrom utf8Start (utf8OfCodePoint cp ++ rest)%list
  = (utf16OfCodePoint cp ++ utf8DecodeFrom utf8Start rest)%list.
Proof.
  intros [Hcp Hsur]. unfold utf8OfCodePoint.
  destruct (Z.ltb_spec cp 0x80) as [H1|H1].
  { cbn [app utf8DecodeFrom]. rewrite step_ascii by lia.
    unfold utf16OfCodePoint. destruct (Z.ltb_spec cp 0x10000); [reflexivity | lia]. }
  destruct (Z.ltb_spec cp 0x800) as [H2|H2].
  { cbn [app utf8DecodeFrom].
    rewrite Z.shiftr_div_pow2 by lia. change 0x3F with (2 ^ 6 - 1).
    rewrite land_low by lia. change (2 ^ 6) with 64.
    rewrite step_lead2 by divmod.
    rewrite step_continuation by divmod. cbn [Z.eqb Pos.eqb app].
    replace (cp / 64 * 64 + cp mod 64) with cp by divmod.
    reflexivity. }
  destruct (Z.ltb_spec cp 0x10000) as [H3|H3].
  { cbn [app utf8DecodeFrom].
    rewrite !Z.shiftr_div_pow2 by lia. change 0x3F with (2 ^ 6 - 1).
    rewrite !land_low by lia. change (2 ^ 6) with 64. change (2 ^ 12) with 4096.
    rewrite step_lead3 by divmod.
    rewrite step_continuation.
    2: lia. 2: divmod.
    2:{ destruct (Z.eqb_spec (cp / 4096) 0), (Z.eqb_spec (cp / 4096) 13);
          divmod. }
    cbn [Z.eqb Pos.eqb app Z.sub Z.add Z.opp Z.pos_sub Pos.pred_double].
    rewrite step_continuation by divmod. cbn [Z.eqb Pos.eqb app].
    replace ((cp / 4096 * 64 + cp / 64 mod 64) * 64 + cp mod 64) with cp
      by divmod.
    reflexivity. }
  cbn [app utf8DecodeFrom].
  rewrite !Z.shiftr_div_pow2 by lia. change 0x3F with (2 ^ 6 - 1).
  rewrite !land_low by lia.
  change (2 ^ 6) with 64. change (2 ^ 12) with 4096. change (2 ^ 18) with 262144.
  rewrite step_lead4 by divmod.
  rewrite step_continuation.
  2: lia. 2: divmod.
  2:{ destruct (Z.eqb_spec (cp / 262144) 0), (Z.eqb_spec (cp / 262144) 4);
        divmod. }
  cbn [Z.eqb Pos.eqb app Z.sub Z.add Z.opp Z.pos_sub Pos.pred_double].
  rewrite step_continuation by divmod.
  cbn [Z.eqb Pos.eqb app Z.sub Z.add Z.opp Z.pos_sub Pos.pred_double].
  rewrite step_continuation by divmod. cbn [Z.eqb Pos.eqb app].
  replace (((cp / 262144 * 64 + cp / 4096 mod 64) * 64 + cp / 64 mod 64) * 64
           + cp mod 64) with cp by divmod.
  reflexivity.
Qed.

(** *** Well-formed strings *)

Lemma inRange_iff (lo hi x : Z) : inRange lo hi x = true <-> lo <= x <= hi.
Proof.
  unfold inRange. rewrite andb_true_iff, !Z.leb_le. tauto.
Qed.

Lemma decode_pair (c d : Z) (rest : list Z) :
  isHighSurrogate c = true -> isLowSurrogate d = true ->
  utf8DecodeFrom utf8Start
    (utf8OfCodePoint (0x10000 + Z.shiftl (c - 0xD800) 10 + (d - 0xDC00))
     ++ rest)%list
  = c :: d :: utf8DecodeFrom utf8Start rest.
Proof.
  intros Hc Hd. apply inRange_iff in Hc, Hd.
  rewrite Z.shiftl_mul_pow2 by lia. change (2 ^ 10) with 1024.
  set (cp := 0x10000 + (c - 0xD800) * 1024 + (d - 0xDC00)).
  assert (Hs : isScalar cp) by (unfold isScalar, cp; lia).
  rewrite decode_scalar by exact Hs. unfold utf16OfCodePoint.
  destruct (Z.ltb_spec cp 0x10000) as [Hlt|_]; [unfold cp in Hlt; lia|].
  cbv zeta. rewrite Z.shiftr_div_pow2 by lia.
  change 0x3FF with (2 ^ 10 - 1). rewrite land_low by lia.
  change (2 ^ 10) with 1024.
  replace (0xD800 + (cp - 0x10000) / 1024) with c by (unfold cp; divmod).
  replace (0xDC00 + (cp - 0x10000) mod 1024) with d by (unfold cp; divmod).
  reflexivity.
Qed.

Lemma decode_replacement (rest : list Z) :
  utf8DecodeFrom utf8Start (utf8OfCodePoint 0xFFFD ++ rest)%list
  = 0xFFFD :: utf8DecodeFrom utf8Start rest.
Proof. rewrite decode_scalar by (unfold isScalar; lia). reflexivity. Qed.

Lemma decode_unit (c : Z) (rest : list Z) :
  0 <= c <= 0xFFFF -> isHighSurrogate c = false -> isLowSurrogate c = false ->
  utf8DecodeFrom utf8Start (utf8OfCodePoint c ++ rest)%list
  = c :: utf8DecodeFrom utf8Start rest.
Proof.
  intros Hc Hh Hl.
  assert (Hs : isScalar c).
  { unfold isScalar. split; [lia|]. intros Hsur.
    destruct (Z.le_gt_cases c 0xDBFF).
    - unfold isHighSurrogate in Hh. rewrite inRange_true in Hh by lia.
      discriminate.
    - unfold isLowSurrogate in Hl. rewrite inRange_true in Hl by lia.
      discriminate. }
  rewrite decode_scalar by exact Hs. unfold utf16OfCodePoint.
  destruct (Z.ltb_spec c 0x10000); [reflexivity | lia].
Qed.

(** Encoding and decoding gives the string back exactly when it is
    well-formed. *)
Lemma round_trip_iff (n : nat) (s : jsstring) :
  (List.length s <= n)%nat -> codeUnits s ->
  utf8Decode (utf8Encode s) = s <-> wellFormed s = true.
Proof.
  unfold utf8Decode. revert s.
  induction n as [|n IH]; intros s Hlen Hunits.
  { destruct s; [split; reflexivity | simpl in Hlen; lia]. }
  destruct s as [|c r]; [split; reflexivity|].
  inversion Hunits as [|? ? Hc Hr]; subst. simpl in Hlen.
  cbn [utf8Encode wellFormed].
  destruct (isHighSurrogate c) eqn:Hh.
  - assert (Hc' : c <> 0xFFFD) by (apply inRange_iff in Hh; lia).
    destruct r as [|d r'].
    + rewrite <- (app_nil_r (utf8OfCodePoint 0xFFFD)), decode_replacement.
      split; [intros Heq; apply (f_equal (hd 0)) in Heq; cbn [hd] in Heq; lia
             | intros Hf; discriminate Hf].
    + inversion Hr as [|? ? Hd Hr']; subst. simpl in Hlen.
      destruct (isLowSurrogate d) eqn:Hl; cbn [andb].
      * rewrite decode_pair by assumption.
        rewrite <- (IH r') by (assumption || lia).
        split; [intros [= Heq]; exact Heq | intros ->; reflexivity].
      * rewrite decode_replacement.
        split; [intros Heq; apply (f_equal (hd 0)) in Heq; cbn [hd] in Heq; lia
             | intros Hf; discriminate Hf].
  - destruct (isLowSurrogate c) eqn:Hl; cbn [negb andb].
    + assert (Hc' : c <> 0xFFFD) by (apply inRange_iff in Hl; lia).
      rewrite decode_replacement.
      split; [intros Heq; apply (f_equal (hd 0)) in Heq; cbn [hd] in Heq; lia
             | intros Hf; discriminate Hf].
    + rewrite decode_unit by assumption.
      rewrite <- (IH r) by (assumption || lia).
      split; [intros [= Heq]; exact Heq | intros ->; reflexivity].
Qed.

Lemma isValidUTF8_wellFormed (s : jsstring) :
  codeUnits s -> isValidUTF8 s = wellFormed s.
Proof.
  intros Hunits. apply eq_iff_eq_true. unfold isValidUTF8.
  rewrite jsEqb_eq. apply (round_trip_iff (List.length s)); [lia | exact Hunits].
Qed.

(** X25. [isValidUTF8] is the test for lone surrogates: on 16-bit code
    units, a string is equal to its UTF-8 encoding decoded again exactly
    when every surrogate in it is half of a pair. *)
Theorem isValidUTF8_iff_wellFormed (s : jsstring) :
  codeUnits s ->
  isValidUTF8 s = wellFormed s
  /\ (utf8Decode (utf8Encode s) = s <-> wellFormed s = true).
Proof.
  intros Hunits. split; [now apply isValidUTF8_wellFormed|].
  apply (round_trip_iff (List.length s)); [lia | exact Hunits].
Qed.

Lemma isValidUTF8_iff_wellFormed_witness :
  codeUnits [0x6559; 0xD83D; 0xDE00; 0x2E]
  /\ isValidUTF8 [0x6559; 0xD83D; 0xDE00; 0x2E] = true.
Proof.
  assert (Hunits : codeUnits [0x6559; 0xD83D; 0xDE00; 0x2E])
    by (repeat constructor; lia).
  split; [exact Hunits|].
  rewrite (proj1 (isValidUTF8_iff_wellFormed _ Hunits)). reflexivity.
Defined.

(** *** What the repairs of [decodeFileName] apply to *)

(** X26. A name that is already right is kept: a well-formed name that
    holds a Chinese character and no percent sign is returned unchanged. *)
Theorem decodeFileName_keeps_chinese_names (s : jsstring) :
  codeUnits s ->
  wellFormed s = true ->
  containsChinese s = true ->
  includesUnit percent s = false ->
  decodeFileName s = s.
Proof.
  intros Hunits Hwf Hcn Hpct.
  apply decodeFileName_plain.
  - intros ->. discriminate Hcn.
  - now rewrite isValidUTF8_wellFormed.
  - now left.
  - unfold looksLikeGarbled. rewrite Hcn. apply andb_false_r.
Qed.

Lemma decodeFileName_keeps_chinese_names_witness :
  codeUnits (0x6559 :: 0x5B66 :: units ".zip")
  /\ decodeFileName (0x6559 :: 0x5B66 :: units ".zip")
     = 0x6559 :: 0x5B66 :: units ".zip".
Proof.
  assert (Hunits : codeUnits (0x6559 :: 0x5B66 :: units ".zip"))
    by (repeat constructor; simpl; lia).
  split; [exact Hunits|].
  exact (decodeFileName_keeps_chinese_names _ Hunits eq_refl eq_refl eq_refl).
Defined.

(** X27. The second attempt of [decodeFileName], the one guarded by
    [!isValidUTF8(fileName)], applies to no well-formed name, so to no name
    made of Latin-1 characters: on a well-formed name the result is that of
    URL decoding when it applies and, when it does not, the Latin-1
    reinterpretation if the garbled heuristic matches and the name itself
    otherwise. *)
Theorem second_attempt_needs_lone_surrogate (s : jsstring) :
  codeUnits s ->
  wellFormed s = true ->
  s <> [] ->
  tryLatin1 s = None
  /\ decodeFileName s
     = match tryUrlDecode s with
       | Some decoded => decoded
       | None => if looksLikeGarbled s then reinterpretLatin1 s else s
       end.
Proof.
  intros Hunits Hwf Hne.
  assert (Hnone : tryLatin1 s = None).
  { unfold tryLatin1. now rewrite isValidUTF8_wellFormed, Hwf. }
  split; [exact Hnone|].
  unfold decodeFileName. destruct s as [|c r]; [contradiction|].
  now rewrite Hnone.
Qed.

Lemma second_attempt_needs_lone_surrogate_witness :
  codeUnits [0xE6; 0x95; 0x99]
  /\ wellFormed [0xE6; 0x95; 0x99] = true
  /\ tryLatin1 [0xE6; 0x95; 0x99] = None.
Proof.
  assert (Hunits : codeUnits [0xE6; 0x95; 0x99]) by (repeat constructor; lia).
  split; [exact Hunits|]. split; [reflexivity|].
  exact (proj1 (second_attempt_needs_lone_surrogate _ Hunits eq_refl
                  ltac:(discriminate))).
Defined.

(** *** A UTF-8 name read as Latin-1 *)

(** The bytes of a code point: each is a byte, and one below 0x80 is the
    code point itself. *)
Lemma utf8OfCodePoint_bytes (cp : Z) :
  0 <= cp <= 0x10FFFF ->
  Forall (fun b => 0 <= b <= 0xFF /\ (b < 0x80 -> b = cp))
    (utf8OfCodePoint cp).
Proof.
  intros Hcp. unfold utf8OfCodePoint.
  assert (Hcont : forall x, 0 <= x < 64 ->
            0 <= Z.lor 0x80 x <= 0xFF /\ (Z.lor 0x80 x < 0x80 -> Z.lor 0x80 x = cp)).
  { intros x Hx. destruct (continuation_byte x Hx) as [-> _]. lia. }
  assert (Hlead : forall mark t n,
            0 <= n -> 0 <= t < 2 ^ n -> mark mod 2 ^ n = 0 ->
            0x80 <= mark -> mark + 2 ^ n <= 0x100 ->
            0 <= Z.lor mark t <= 0xFF /\ (Z.lor mark t < 0x80 -> Z.lor mark t = cp)).
  { intros mark t n Hn Ht Hm Hlo Hhi.
    destruct (lead_byte mark t n Hn Ht Hm) as [-> _]. lia. }
  rewrite !Z.shiftr_div_pow2 by lia. change 0x3F with (2 ^ 6 - 1).
  rewrite !land_low by lia.
  change (2 ^ 6) with 64. change (2 ^ 12) with 4096. change (2 ^ 18) with 262144.
  destruct (Z.ltb_spec cp 0x80).
  { apply Forall_cons; [lia | apply Forall_nil]. }
  destruct (Z.ltb_spec cp 0x800).
  { repeat (apply Forall_cons || apply Forall_nil);
      try (apply Hcont; divmod).
    apply (Hlead 0xC0 _ 5); try lia; try reflexivity.
    change (2 ^ 5) with 32. divmod. }
  destruct (Z.ltb_spec cp 0x10000).
  { repeat (apply Forall_cons || apply Forall_nil);
      try (apply Hcont; divmod).
    apply (Hlead 0xE0 _ 4); try lia; try reflexivity.
    change (2 ^ 4) with 16. divmod. }
  repeat (apply Forall_cons || apply Forall_nil);
    try (apply Hcont; divmod).
  apply (Hlead 0xF0 _ 3); try lia; try reflexivity.
  change (2 ^ 3) with 8. divmod.
Qed.

Lemma utf8Encode_bytes (n : nat) (t : jsstring) :
  (List.length t <= n)%nat -> codeUnits t ->
  Forall (fun b => 0 <= b <= 0xFF /\ (b < 0x80 -> In b t)) (utf8Encode t).
Proof.
  revert t. induction n as [|n IH]; intros t Hlen Hunits.
  { destruct t; [constructor | simpl in Hlen; lia]. }
  destruct t as [|c r]; [constructor|].
  inversion Hunits as [|? ? Hc Hr]; subst. simpl in Hlen.
  assert (Hrepl : Forall (fun b => 0 <= b <= 0xFF /\ (b < 0x80 -> In b (c :: r)))
                    (utf8OfCodePoint 0xFFFD)).
  { repeat (apply Forall_cons || apply Forall_nil);
      (split; [vm_compute; split; discriminate | intros Hlt; vm_compute in Hlt; discriminate Hlt]). }
  assert (Htail : forall r', (List.length r' <= n)%nat -> codeUnits r' ->
            (forall b, In b r' -> In b (c :: r)) ->
            Forall (fun b => 0 <= b <= 0xFF /\ (b < 0x80 -> In b (c :: r)))
              (utf8Encode r')).
  { intros r' Hl Hu Hincl. eapply Forall_impl; [|apply (IH r' Hl Hu)].
    intros b [Hb Hin]. split; [exact Hb | auto]. }
  cbn [utf8Encode].
  destruct (isHighSurrogate c) eqn:Hh.
  - destruct r as [|d r']; [exact Hrepl|].
    inversion Hr as [|? ? Hd Hr']; subst. simpl in Hlen.
    destruct (isLowSurrogate d) eqn:Hl.
    + apply inRange_iff in Hh, Hl. apply Forall_app. split.
      * eapply Forall_impl; [|apply utf8OfCodePoint_bytes].
        -- intros b [Hb Hsmall]. split; [exact Hb|]. intros Hlt.
           specialize (Hsmall Hlt). rewrite Z.shiftl_mul_pow2 in Hsmall by lia.
           lia.
        -- rewrite Z.shiftl_mul_pow2 by lia. lia.
      * apply Htail; [lia | exact Hr' | intros b Hb; simpl; tauto].
    + apply Forall_app. split; [exact Hrepl|].
      apply Htail; [simpl; lia | exact Hr | intros b Hb; now right].
  - destruct (isLowSurrogate c); apply Forall_app; split.
    + exact Hrepl.
    + apply Htail; [lia | exact Hr | intros b Hb; now right].
    + eapply Forall_impl; [|apply (utf8OfCodePoint_bytes c); lia].
      intros b [Hb Hsmall]. split; [exact Hb|]. intros Hlt. left.
      symmetry. auto.
    + apply Htail; [lia | exact Hr | intros b Hb; now right].
Qed.

Lemma utf8Encode_nonempty (t : jsstring) : t <> [] -> utf8Encode t <> [].
Proof.
  assert (Hcp : forall cp rest, (utf8OfCodePoint cp ++ rest)%list <> []).
  { intros cp rest. unfold utf8OfCodePoint.
    destruct (cp <? 0x80); [discriminate|].
    destruct (cp <? 0x800); [discriminate|].
    destruct (cp <? 0x10000); discriminate. }
  destruct t as [|c r]; [contradiction|]. intros _. cbn [utf8Encode].
  destruct (isHighSurrogate c).
  - destruct r as [|d r']; [vm_compute; discriminate|].
    destruct (isLowSurrogate d); apply Hcp.
  - destruct (isLowSurrogate c); apply Hcp.
Qed.

Lemma wellFormed_bytes (s : jsstring) :
  Forall (fun b => 0 <= b <= 0xFF) s -> wellFormed s = true.
Proof.
  induction 1 as [|b s Hb Hs IH]; [reflexivity|]. cbn [wellFormed].
  unfold isHighSurrogate, isLowSurrogate.
  rewrite !inRange_false by lia. exact IH.
Qed.

Lemma latin1Encode_bytes (s : jsstring) :
  Forall (fun b => 0 <= b <= 0xFF) s -> latin1Encode s = s.
Proof.
  unfold latin1Encode. induction 1 as [|b s Hb Hs IH]; [reflexivity|].
  cbn [List.map]. rewrite IH. f_equal.
  change 0xFF with (2 ^ 8 - 1). rewrite land_low by lia.
  apply Z.mod_small. change (2 ^ 8) with 256. lia.
Qed.

Lemma decodeFileName_chain (s : jsstring) :
  s <> [] ->
  decodeFileName s
  = match tryUrlDecode s with
    | Some decoded => decoded
    | None =>
        match tryLatin1 s with
        | Some decoded => decoded
        | None => if looksLikeGarbled s then reinterpretLatin1 s else s
        end
    end.
Proof. destruct s; [contradiction | reflexivity]. Qed.

(** X28. A name whose UTF-8 bytes were read as Latin-1, one character per
    byte, is repaired exactly when one of those bytes is in the class of the
    garbled pattern; otherwise it is returned as it came. The original
    name is any well-formed name without percent sign. *)
Theorem misread_name_repaired_iff (t : jsstring) :
  codeUnits t ->
  wellFormed t = true ->
  t <> [] ->
  includesUnit percent t = false ->
  decodeFileName (utf8Encode t)
  = if existsb garbledUnit (utf8Encode t) then t else utf8Encode t.
Proof.
  intros Hunits Hwf Hne Hpct.
  pose proof (utf8Encode_bytes (List.length t) t (Nat.le_refl _) Hunits) as Hall.
  pose proof (utf8Encode_nonempty t Hne) as Hne'.
  set (misread := utf8Encode t) in *.
  assert (Hbytes : Forall (fun b => 0 <= b <= 0xFF) misread).
  { eapply Forall_impl; [|exact Hall]. intros b [Hb _]. exact Hb. }
  assert (Hunits' : codeUnits misread).
  { eapply Forall_impl; [|exact Hbytes]. intros b Hb. simpl in Hb. lia. }
  assert (Hpct' : includesUnit percent misread = false).
  { apply not_true_is_false. intros Hin. unfold includesUnit in Hin.
    apply existsb_exists in Hin. destruct Hin as (b & Hb & Heq).
    apply Z.eqb_eq in Heq. subst b.
    rewrite Forall_forall in Hall. destruct (Hall _ Hb) as [_ Hsmall].
    assert (Hin : In percent t) by (apply Hsmall; unfold percent; lia).
    assert (Htrue : includesUnit percent t = true).
    { unfold includesUnit. apply existsb_exists. exists percent.
      split; [exact Hin | apply Z.eqb_refl]. }
    congruence. }
  assert (Hcn : containsChinese misread = false).
  { apply not_true_is_false. intros Hin. unfold containsChinese in Hin.
    apply existsb_exists in Hin. destruct Hin as (b & Hb & Hr).
    apply inRange_iff in Hr. rewrite Forall_forall in Hbytes.
    specialize (Hbytes b Hb). simpl in Hbytes. lia. }
  rewrite decodeFileName_chain by exact Hne'.
  unfold tryUrlDecode, tryLatin1. rewrite Hpct'.
  rewrite isValidUTF8_wellFormed by exact Hunits'.
  rewrite wellFormed_bytes by exact Hbytes. cbn [negb].
  unfold looksLikeGarbled. rewrite Hcn. cbn [negb]. rewrite andb_true_r.
  destruct (existsb garbledUnit misread); [|reflexivity].
  unfold reinterpretLatin1. rewrite latin1Encode_bytes by exact Hbytes.
  apply (round_trip_iff (List.length t)); [lia | exact Hunits | exact Hwf].
Qed.

Lemma misread_name_repaired_iff_witness :
  codeUnits [0x4E2D; 0x2E; 0x7A]
  /\ utf8Encode [0x4E2D; 0x2E; 0x7A] = [0xE4; 0xB8; 0xAD; 0x2E; 0x7A]
  /\ decodeFileName [0xE4; 0xB8; 0xAD; 0x2E; 0x7A]
     = [0xE4; 0xB8; 0xAD; 0x2E; 0x7A].
Proof.
  assert (Hunits : codeUnits [0x4E2D; 0x2E; 0x7A]) by (repeat constructor; lia).
  split; [exact Hunits|]. split; [reflexivity|].
  exact (misread_name_repaired_iff [0x4E2D; 0x2E; 0x7A] Hunits eq_refl
           ltac:(discriminate) eq_refl).
Defined.

(** *** URL decoding shortens *)

Lemma utf16OfCodePoint_length (cp : Z) :
  (List.length (utf16OfCodePoint cp) <= 2)%nat.
Proof. unfold utf16OfCodePoint. destruct (cp <? 65536); simpl; lia. Qed.

Lemma decodeURIFrom_length (s : jsstring) :
  forall esc octets need d,
    decodeURIFrom esc octets need s = Some d ->
    match esc with
    | Outside =>
        (List.length d <= List.length s)%nat
        /\ (includesUnit percent s = true -> (List.length d < List.length s)%nat)
    | AfterPercent => (List.length d <= List.length s)%nat
    | AfterHex _ => (List.length d <= List.length s + 1)%nat
    end.
Proof.
  induction s as [|c r IH]; intros esc octets need d Hd.
  - simpl in Hd. destruct esc; try discriminate.
    destruct (need =? 0); [|discriminate]. injection Hd as <-.
    split; [simpl; lia | discriminate].
  - cbn [decodeURIFrom] in Hd. destruct esc as [| |hi].
    + destruct (Z.eqb_spec c percent) as [Hc|Hc].
      * apply IH in Hd. cbn [List.length]. split; [lia | intros _; lia].
      * destruct (need =? 0); [|discriminate].
        destruct (decodeURIFrom Outside [] 0 r) as [d'|] eqn:Hd'; [|discriminate].
        injection Hd as <-. apply IH in Hd'. destruct Hd' as [Hle Hlt].
        cbn [List.length]. split; [lia|].
        unfold includesUnit. cbn [existsb].
        destruct (Z.eqb_spec percent c) as [E|_]; [congruence|].
        cbn [orb]. intros Hin. apply Hlt in Hin. lia.
    + destruct (hexValue c) as [hi|]; [|discriminate].
      apply IH in Hd. cbn [List.length]. lia.
    + destruct (hexValue c) as [lo|]; [|discriminate].
      cbv zeta in Hd. cbn [List.length].
      destruct (need =? 0).
      * destruct (leadingOnes (hi * 16 + lo) =? 0).
        -- destruct (decodeURIFrom Outside [] 0 r) as [d'|] eqn:Hd';
             [|discriminate].
           injection Hd as <-. apply IH in Hd'. cbn [List.length]. lia.
        -- destruct ((leadingOnes (hi * 16 + lo) =? 1)
                     || (4 <? leadingOnes (hi * 16 + lo))); [discriminate|].
           apply IH in Hd. lia.
      * destruct (need =? 1).
        -- destruct (codePointOfOctets (octets ++ [hi * 16 + lo])) as [cp|];
             [|discriminate].
           destruct (decodeURIFrom Outside [] 0 r) as [d'|] eqn:Hd';
             [|discriminate].
           injection Hd as <-. apply IH in Hd'. rewrite length_app.
           pose proof (utf16OfCodePoint_length cp). lia.
        -- apply IH in Hd. lia.
Qed.

(** A URL decoding that applies changes the name. *)
Lemma tryUrlDecode_changes (s d : jsstring) : tryUrlDecode s = Some d -> d <> s.
Proof.
  unfold tryUrlDecode. destruct (includesUnit percent s) eqn:Hin; [|discriminate].
  destruct (decodeURIComponent s) as [d'|] eqn:Hd; [|discriminate].
  destruct (isValidUTF8 d'); [|discriminate]. intros [= <-] ->.
  apply decodeURIFrom_length in Hd. destruct Hd as [_ Hlt].
  apply Hlt in Hin. lia.
Qed.

(** *** Reading a name as Latin-1 changes a garbled one *)

Lemma land_mod (x n : Z) : 0 <= n -> 0 <= Z.land x (2 ^ n - 1) < 2 ^ n.
Proof.
  intros Hn. rewrite land_low by exact Hn. apply Z.mod_pos_bound. lia.
Qed.

Lemma utf8Lead_unit (b : Z) :
  (List.length (fst (utf8Lead b)) + pendingUnit (snd (utf8Lead b)) = 1)%nat
  /\ flat (fst (utf8Lead b))
  /\ shortPending (snd (utf8Lead b)).
Proof.
  unfold utf8Lead.
  destruct (inRange 0 127 b) eqn:H1.
  { apply inRange_iff in H1. cbn. split; [reflexivity|].
    split; [repeat constructor; lia | discriminate]. }
  destruct (inRange 194 223 b).
  { cbn. split; [reflexivity|]. split; [constructor|].
    intros _. cbn [codePoint].
    assert (H : 0 <= Z.land b 31 < 32) by (apply (land_mod b 5); lia). lia. }
  destruct (inRange 224 239 b).
  { cbn. split; [reflexivity|]. split; [constructor | discriminate]. }
  destruct (inRange 240 244 b).
  { cbn. split; [reflexivity|]. split; [constructor | discriminate]. }
  cbn. split; [reflexivity|]. split; [repeat constructor; lia | discriminate].
Qed.

Lemma utf8Step_unit (st : Utf8State) (b : Z) :
  (List.length (fst (utf8Step st b)) + pendingUnit (snd (utf8Step st b))
   <= 1 + pendingUnit st)%nat
  /\ (shortPending st ->
      (List.length (fst (utf8Step st b)) + pendingUnit (snd (utf8Step st b))
       = 1 + pendingUnit st)%nat ->
      flat (fst (utf8Step st b)) /\ shortPending (snd (utf8Step st b))).
Proof.
  unfold utf8Step. pose proof (utf8Lead_unit b) as (Hlen & Hflat & Hshort).
  unfold pendingUnit at 2 4.
  destruct (Z.eqb_spec (bytesNeeded st) 0) as [H0|H0].
  { split; [lia|]. intros _ _. now split. }
  destruct (inRange (lowerBoundary st) (upperBoundary st) b); cbn [negb].
  - destruct (Z.eqb_spec (bytesNeeded st) 1) as [H1|H1].
    + cbn [fst snd]. unfold pendingUnit. cbn [bytesNeeded utf8Start Z.eqb].
      pose proof (utf16OfCodePoint_length
                    (Z.lor (Z.shiftl (codePoint st) 6) (Z.land b 63))) as Hl.
      split; [lia|]. intros Hs Heq. exfalso.
      specialize (Hs H1).
      assert (Hx : 0 <= Z.land b 63 < 64) by (apply (land_mod b 6); lia).
      rewrite accumulate in Heq by exact Hx.
      unfold utf16OfCodePoint in Heq.
      destruct (Z.ltb_spec (codePoint st * 64 + Z.land b 63) 65536) as [_|Hbig];
        [simpl in Heq; lia | lia].
    + cbn [fst snd List.length]. unfold pendingUnit. cbn [bytesNeeded].
      destruct (Z.eqb_spec (bytesNeeded st - 1) 0) as [E|_]; [lia|].
      split; [lia|]. intros _ Heq. lia.
  - destruct (utf8Lead b) as [out st'] eqn:El. cbn [fst snd] in *.
    cbn [List.length]. split; [lia|]. intros _ _.
    split; [constructor; [now right | exact Hflat] | exact Hshort].
Qed.

Lemma utf8DecodeFrom_length (bytes : list Z) :
  forall st,
    (List.length (utf8DecodeFrom st bytes) <= List.length bytes + pendingUnit st)%nat
    /\ (shortPending st ->
        (List.length (utf8DecodeFrom st bytes)
         = List.length bytes + pendingUnit st)%nat ->
        flat (utf8DecodeFrom st bytes)).
Proof.
  induction bytes as [|b r IH]; intros st.
  - cbn [utf8DecodeFrom List.length]. unfold pendingUnit.
    destruct (bytesNeeded st =? 0).
    + split; [simpl; lia | intros _ _; constructor].
    + split; [simpl; lia | intros _ _; repeat constructor; now right].
  - cbn [utf8DecodeFrom List.length].
    pose proof (utf8Step_unit st b) as [Hle Heq].
    destruct (utf8Step st b) as [out st']. cbn [fst snd] in Hle, Heq.
    destruct (IH st') as [Hle' Heq']. rewrite length_app.
    split; [lia|]. intros Hs Hlen.
    destruct (Heq Hs ltac:(lia)) as [Hflat Hs'].
    apply Forall_app. split; [exact Hflat|]. apply Heq'; [exact Hs' | lia].
Qed.

Lemma flat_not_garbled (o : jsstring) : flat o -> existsb garbledUnit o = false.
Proof.
  induction 1 as [|u o Hu _ IH]; [reflexivity|].
  cbn [existsb]. rewrite IH, orb_false_r.
  unfold garbledUnit, inRange.
  destruct Hu as [Hu | ->]; [|reflexivity].
  destruct (Z.leb_spec 229 u); [lia|]. destruct (Z.leb_spec 232 u); [lia|].
  destruct (Z.leb_spec 248 u); [lia|]. reflexivity.
Qed.

(** Reading as Latin-1 a name that matches the garbled heuristic never
    gives the name back. *)
Lemma reinterpretLatin1_changes (s : jsstring) :
  looksLikeGarbled s = true -> reinterpretLatin1 s <> s.
Proof.
  unfold looksLikeGarbled. intros Hg Heq.
  apply andb_true_iff in Hg. destruct Hg as [Hg _].
  destruct (utf8DecodeFrom_length (latin1Encode s) utf8Start) as [_ Hflat].
  unfold reinterpretLatin1, utf8Decode in Heq. rewrite Heq in Hflat.
  assert (Hf : flat s).
  { apply Hflat; [discriminate|]. unfold latin1Encode. rewrite length_map.
    unfold pendingUnit. simpl. lia. }
  apply flat_not_garbled in Hf. congruence.
Qed.

(** *** What the UTF-8 decoder emits is well-formed *)

Lemma wellFormed_app (n : nat) :
  forall a b : jsstring,
    (List.length a <= n)%nat ->
    wellFormed a = true -> wellFormed (a ++ b)%list = wellFormed b.
Proof.
  induction n as [|n IH]; intros a b Hlen Ha.
  { destruct a; [reflexivity | simpl in Hlen; lia]. }
  destruct a as [|c r]; [reflexivity|].
  simpl in Hlen. cbn [wellFormed app] in *.
  destruct (isHighSurrogate c).
  - destruct r as [|d r']; [discriminate|]. simpl in Hlen. cbn [app].
    apply andb_true_iff in Ha. destruct Ha as [-> Ha]. cbn [andb].
    apply IH; [lia | exact Ha].
  - apply andb_true_iff in Ha. destruct Ha as [-> Ha]. cbn [andb].
    apply IH; [lia | exact Ha].
Qed.

Lemma goodUnits_app (a b : jsstring) :
  goodUnits a -> goodUnits b -> goodUnits (a ++ b)%list.
Proof.
  intros [Ha Ha'] [Hb Hb']. split.
  - rewrite (wellFormed_app (List.length a)) by (lia || assumption). exact Hb.
  - apply Forall_app. now split.
Qed.

Lemma goodUnits_nil : goodUnits [].
Proof. split; [reflexivity | constructor]. Qed.

Lemma goodUnits_unit (c : Z) :
  0 <= c <= 0xFFFF -> ~ (0xD800 <= c <= 0xDFFF) -> goodUnits [c].
Proof.
  intros Hc Hs. split; [|repeat constructor; lia].
  cbn [wellFormed]. unfold isHighSurrogate, isLowSurrogate.
  rewrite (inRange_false 0xD800 0xDBFF c) by lia.
  rewrite (inRange_false 0xDC00 0xDFFF c) by lia. reflexivity.
Qed.

Lemma goodUnits_scalar (cp : Z) : isScalar cp -> goodUnits (utf16OfCodePoint cp).
Proof.
  intros [Hcp Hs]. unfold utf16OfCodePoint.
  destruct (Z.ltb_spec cp 65536) as [Hlt|Hge].
  - apply goodUnits_unit; lia.
  - cbv zeta.
    assert (Hhi : 0 <= Z.shiftr (cp - 65536) 10 < 1024).
    { rewrite Z.shiftr_div_pow2 by lia. change (2 ^ 10) with 1024. divmod. }
    assert (Hlo : 0 <= Z.land (cp - 65536) 1023 < 1024)
      by (apply (land_mod (cp - 65536) 10); lia).
    split; [|repeat constructor; lia].
    cbn [wellFormed]. unfold isHighSurrogate, isLowSurrogate.
    rewrite (inRange_true 0xD800 0xDBFF) by lia.
    rewrite (inRange_true 0xDC00 0xDFFF) by lia. reflexivity.
Qed.

Lemma utf8Lead_good (b : Z) :
  goodUnits (fst (utf8Lead b)) /\ pendingScalar (snd (utf8Lead b)).
Proof.
  unfold utf8Lead.
  destruct (inRange 0 127 b) eqn:H1.
  { apply inRange_iff in H1. cbn [fst snd].
    split; [apply goodUnits_unit; lia | now left]. }
  destruct (inRange 194 223 b) eqn:H2.
  { cbn [fst snd]. split; [apply goodUnits_nil|]. right; left.
    cbn [bytesNeeded codePoint].
    assert (H : 0 <= Z.land b 31 < 32) by (apply (land_mod b 5); lia).
    repeat split; lia. }
  destruct (inRange 224 239 b) eqn:H3.
  { apply inRange_iff in H3. cbn [fst snd]. split; [apply goodUnits_nil|].
    right; right; left.
    cbn [bytesNeeded codePoint lowerBoundary upperBoundary].
    assert (H : Z.land b 15 = b mod 16) by (apply (land_low b 4); lia).
    rewrite H. split; [reflexivity|].
    split; [destruct (b =? 224); lia|]. split; [destruct (b =? 237); lia|].
    left. split; [divmod|]. intros E.
    destruct (Z.eqb_spec b 237) as [_|Hn]; [lia | exfalso; divmod]. }
  destruct (inRange 240 244 b) eqn:H4.
  { apply inRange_iff in H4. cbn [fst snd]. split; [apply goodUnits_nil|].
    right; right; right.
    cbn [bytesNeeded codePoint lowerBoundary upperBoundary].
    assert (H : Z.land b 7 = b mod 8) by (apply (land_low b 3); lia).
    rewrite H. split; [reflexivity|].
    split; [destruct (b =? 240); lia|]. split; [destruct (b =? 244); lia|].
    split; [divmod|]. split; intros E.
    - destruct (Z.eqb_spec b 240) as [_|Hn]; [lia | exfalso; divmod].
    - destruct (Z.eqb_spec b 244) as [_|Hn]; [lia | exfalso; divmod]. }
  cbn [fst snd]. split; [apply goodUnits_unit; lia | now left].
Qed.

Lemma utf8Step_good (st : Utf8State) (b : Z) :
  pendingScalar st ->
  goodUnits (fst (utf8Step st b)) /\ pendingScalar (snd (utf8Step st b)).
Proof.
  intros Hinv. unfold utf8Step.
  pose proof (utf8Lead_good b) as [Hout Hst].
  destruct (Z.eqb_spec (bytesNeeded st) 0) as [H0|H0]; [now split|].
  destruct (inRange (lowerBoundary st) (upperBoundary st) b) eqn:Hin;
    cbn [negb].
  2:{ destruct (utf8Lead b) as [out st']. cbn [fst snd] in *.
      split; [|exact Hst].
      apply (goodUnits_app [0xFFFD] out); [apply goodUnits_unit; lia | exact Hout]. }
  apply inRange_iff in Hin.
  assert (Hx : 0 <= Z.land b 63 < 64) by (apply (land_mod b 6); lia).
  assert (Hx' : Z.land b 63 = b mod 64) by (apply (land_low b 6); lia).
  rewrite accumulate by exact Hx.
  unfold pendingScalar in Hinv. cbv zeta in Hinv.
  destruct Hinv as [E | [(E & Hacc & Hsur) | [(E & Hlo & Hhi & Hacc)
                                            | (E & Hlo & Hhi & Hacc & H0' & H4)]]];
    [contradiction | | |]; rewrite E; cbn [Z.eqb Pos.eqb fst snd].
  - split; [|now left]. apply goodUnits_scalar. unfold isScalar. lia.
  - split; [apply goodUnits_nil|]. right; left.
    cbn [bytesNeeded codePoint]. split; [reflexivity|].
    assert (Hb : b mod 64 = b - 128) by divmod.
    rewrite Hx', Hb. lia.
  - split; [apply goodUnits_nil|]. right; right; left.
    cbn [bytesNeeded codePoint lowerBoundary upperBoundary].
    split; [reflexivity|]. split; [lia|]. split; [lia|].
    assert (Hb : b mod 64 = b - 128) by divmod.
    rewrite Hx', Hb. right. lia.
Qed.

Lemma utf8DecodeFrom_good (bytes : list Z) :
  forall st, pendingScalar st -> goodUnits (utf8DecodeFrom st bytes).
Proof.
  induction bytes as [|b r IH]; intros st Hinv.
  - cbn [utf8DecodeFrom]. destruct (bytesNeeded st =? 0);
      [apply goodUnits_nil | apply goodUnits_unit; lia].
  - cbn [utf8DecodeFrom].
    pose proof (utf8Step_good st b Hinv) as [Hout Hst].
    destruct (utf8Step st b) as [out st']. cbn [fst snd] in *.
    apply goodUnits_app; [exact Hout | now apply IH].
Qed.

(** Whatever the bytes, the decoded text is valid. *)
Lemma utf8Decode_valid (bytes : list Z) : isValidUTF8 (utf8Decode bytes) = true.
Proof.
  destruct (utf8DecodeFrom_good bytes utf8Start) as [Hwf Hunits]; [now left|].
  unfold utf8Decode. now rewrite isValidUTF8_wellFormed.
Qed.

(** *** Idempotence *)

Lemma tryLatin1_valid (s : jsstring) : isValidUTF8 s = true -> tryLatin1 s = None.
Proof. intros H. unfold tryLatin1. now rewrite H. Qed.

(** A valid, non-empty name is a fixed point exactly when no attempt of the
    chain applies to it. *)
Lemma decodeFileName_fixed_iff (d : jsstring) :
  d <> [] ->
  isValidUTF8 d = true ->
  decodeFileName d = d <-> tryUrlDecode d = None /\ looksLikeGarbled d = false.
Proof.
  intros Hne Hvalid. rewrite (decodeFileName_chain d Hne).
  rewrite (tryLatin1_valid d Hvalid).
  destruct (tryUrlDecode d) as [x|] eqn:Hurl.
  - split; [intros ->|intros [? _]; discriminate].
    exfalso. now apply (tryUrlDecode_changes d d).
  - destruct (looksLikeGarbled d) eqn:Hg.
    + split; [intros Heq|intros [_ ?]; discriminate].
      exfalso. now apply (reinterpretLatin1_changes d).
    + split; [now split | reflexivity].
Qed.

(** The normalized form of a valid name is valid and not empty. *)
Lemma decodeFileName_valid (s : jsstring) :
  isValidUTF8 s = true ->
  isValidUTF8 (decodeFileName s) = true /\ decodeFileName s <> [].
Proof.
  intros Hvalid. destruct s as [|c r]; [split; [reflexivity | discriminate]|].
  rewrite (decodeFileName_chain (c :: r)) by discriminate.
  rewrite (tryLatin1_valid _ Hvalid).
  destruct (tryUrlDecode (c :: r)) as [x|] eqn:Hurl.
  - unfold tryUrlDecode in Hurl.
    destruct (includesUnit percent (c :: r)); [|discriminate].
    destruct (decodeURIComponent (c :: r)) as [x'|] eqn:Hd; [|discriminate].
    destruct (isValidUTF8 x') eqn:Hx; [|discriminate].
    injection Hurl as <-. split; [exact Hx|].
    eapply decodeURIFrom_nonempty; [exact Hd|]. left. discriminate.
  - destruct (looksLikeGarbled (c :: r)).
    + split; [apply utf8Decode_valid|].
      unfold reinterpretLatin1, utf8Decode. apply utf8DecodeFrom_nonempty.
      left. discriminate.
    + split; [exact Hvalid | discriminate].
Qed.

(** C9 (amended). The normalized form of a valid name is valid and not
    empty, and normalizing it again changes nothing exactly when no attempt
    of the chain applies to it: URL decoding does not (it holds no percent
    sign, its escapes are malformed, or the decoded text is not valid), and
    it does not match the garbled heuristic. So the normalizer is idempotent
    on the names it repairs into such a form, as on the names no attempt
    applies to, which it returns unchanged; a successful URL decoding and a
    reading as Latin-1 of a garbled name always change the name. *)
Theorem decodeFileName_idempotent_iff (s : jsstring) :
  isValidUTF8 s = true ->
  let d := decodeFileName s in
  isValidUTF8 d = true
  /\ d <> []
  /\ (decodeFileName d = d
      <-> tryUrlDecode d = None /\ looksLikeGarbled d = false)
  /\ (s <> [] -> tryUrlDecode s = None -> looksLikeGarbled s = false -> d = s).
Proof.
  intros Hvalid d.
  destruct (decodeFileName_valid s Hvalid) as [Hd Hne]. fold d in Hd, Hne.
  split; [exact Hd|]. split; [exact Hne|].
  split; [now apply decodeFileName_fixed_iff|].
  intros Hs Hurl Hg. unfold d.
  apply (decodeFileName_fixed_iff s Hs Hvalid). now split.
Qed.

Lemma decodeFileName_idempotent_iff_witness :
  (isValidUTF8 (units "my%20base.zip") = true
   /\ decodeFileName (units "my%20base.zip") = units "my base.zip"
   /\ decodeFileName (decodeFileName (units "my%20base.zip"))
      = decodeFileName (units "my%20base.zip"))
  /\ (isValidUTF8 ([0xE6; 0x95; 0x99] ++ units ".z")%list = true
      /\ decodeFileName ([0xE6; 0x95; 0x99] ++ units ".z")%list
         = 0x6559 :: units ".z"
      /\ decodeFileName (decodeFileName ([0xE6; 0x95; 0x99] ++ units ".z")%list)
         = decodeFileName ([0xE6; 0x95; 0x99] ++ units ".z")%list).
Proof.
  split.
  - split; [reflexivity|]. split; [vm_compute; reflexivity|].
    apply (proj1 (proj2 (proj2 (decodeFileName_idempotent_iff
                                  (units "my%20base.zip") eq_refl)))).
    split; vm_compute; reflexivity.
  - split; [reflexivity|]. split; [vm_compute; reflexivity|].
    apply (proj1 (proj2 (proj2 (decodeFileName_idempotent_iff
                                  ([0xE6; 0x95; 0x99] ++ units ".z")%list
                                  eq_refl)))).
    split; vm_compute; reflexivity.
Defined.

End NormalizerRepairs.
